(** * Grade report generator: a model of [src/App.js] and of its earlier variant

    The application reads a spreadsheet into an array of row objects, coerces
    the selected grade column to numbers, and computes one overall summary and
    one summary per group.  This file embeds the computational part of
    [App.js] (module [App]) and of the earlier copy of the same component
    (module [Part000]), and states properties of both.  The other handlers
    of [App.js], its export and the data of its charts are in module [View].

    JavaScript numbers are IEEE-754 binary64 values.  They are modelled by the
    Standard Library's [spec_float] with its arithmetic instantiated at
    precision 53 and maximal exponent 1024, so every rounding step of the
    source is performed by the model as well.  JavaScript strings are modelled
    by [string]; each character stands for one code unit below 256. *)

From Stdlib Require Import ZArith List Bool Lia Ascii String DecimalString DecimalN.
From Stdlib Require Import Sorted Permutation.
From Stdlib Require Import Floats.SpecFloat.
Import ListNotations.

Local Open Scope Z_scope.

(** ** Numbers *)

Module Num.

Definition prec : Z := 53.
Definition emax : Z := 1024.

Definition number := spec_float.

Definition NaN : number := S754_nan.
Definition Infinity : number := S754_infinity false.
Definition NegInfinity : number := S754_infinity true.
Definition zero : number := S754_zero false.

Definition add : number -> number -> number := SFadd prec emax.
Definition sub : number -> number -> number := SFsub prec emax.
Definition mul : number -> number -> number := SFmul prec emax.
Definition div : number -> number -> number := SFdiv prec emax.

(** [Math.sqrt]. *)
Definition sqrt : number -> number := SFsqrt prec emax.

(** [Math.pow(x, 2)], taken as the correctly rounded square. *)
Definition pow2 (x : number) : number := mul x x.

(** The comparison operators [a >= b], [a < b] and [a === b] on numbers. *)
Definition geb (a b : number) : bool := SFleb b a.
Definition ltb (a b : number) : bool := SFltb a b.
Definition eqb (a b : number) : bool := SFeqb a b.
Definition leb (a b : number) : bool := SFleb a b.

(** [Number.isNaN] and [Number.isFinite] on a value that is a number. *)
Definition isNaN (x : number) : bool :=
  match x with S754_nan => true | _ => false end.

Definition isFinite (x : number) : bool :=
  match x with S754_zero _ | S754_finite _ _ _ => true | _ => false end.

(** The number denoted by an integer (exact below 2^53, rounded to nearest
    even above). *)
Definition of_Z (z : Z) : number := binary_normalize prec emax z 0 false.

Definition of_nat (n : nat) : number := of_Z (Z.of_nat n).

(** The number nearest to the rational [p / q] ([0 <= p], [0 < q]), ties to
    even, with sign [s].  The quotient is taken with more than a thousand
    extra bits and a sticky bit, so that the single rounding performed by
    [binary_round] is the rounding of the exact rational. *)
Definition of_ratio (s : bool) (p q : Z) : number :=
  let k := 1100 + Z.log2 q in
  let (m, r) := Z.div_eucl (Z.shiftl p k) q in
  match 2 * m + (if r =? 0 then 0 else 1) with
  | Zpos pm => binary_round prec emax s pm (- k - 1)
  | _ => S754_zero s
  end.

(** The number denoted by the decimal [d * 10^e]. *)
Definition of_decimal (s : bool) (d e : Z) : number :=
  if 0 <=? e then of_ratio s (d * 10 ^ e) 1 else of_ratio s d (10 ^ (- e)).

(** [Math.max(a, b)] and [Math.min(a, b)]: NaN is contagious and
    [+0] is larger than [-0]. *)
Definition max (a b : number) : number :=
  match SFcompare a b with
  | None => NaN
  | Some Lt => b
  | Some Gt => a
  | Some Eq => match a with S754_zero true => b | _ => a end
  end.

Definition min (a b : number) : number :=
  match SFcompare a b with
  | None => NaN
  | Some Lt => a
  | Some Gt => b
  | Some Eq => match a with S754_zero false => b | _ => a end
  end.

(** [Math.max(...xs)] and [Math.min(...xs)]. *)
Definition max_list (xs : list number) : number := fold_left max xs NegInfinity.
Definition min_list (xs : list number) : number := fold_left min xs Infinity.

(** A number is a value of the binary64 format. *)
Definition valid (x : number) : bool := valid_binary prec emax x.

End Num.

Abbreviation number := Num.number.

(** ** Strings *)

Module Str.

Local Open Scope string_scope.
Local Open Scope Z_scope.

Definition code (c : ascii) : Z := Z.of_N (N_of_ascii c).

(** White space and line terminators of the language, among the code units
    below 256: TAB, LF, VT, FF, CR, SP and NBSP. *)
Definition is_whitespace (c : ascii) : bool :=
  let n := code c in
  ((9 <=? n) && (n <=? 13)) || (n =? 32) || (n =? 160).

Definition is_digit (c : ascii) : bool :=
  let n := code c in (48 <=? n) && (n <=? 57).

Definition digit_value (c : ascii) : Z := code c - 48.

Fixpoint trim_start (s : string) : string :=
  match s with
  | String c r => if is_whitespace c then trim_start r else s
  | EmptyString => EmptyString
  end.

Fixpoint rev_append (s acc : string) : string :=
  match s with
  | String c r => rev_append r (String c acc)
  | EmptyString => acc
  end.

Definition rev (s : string) : string := rev_append s EmptyString.

Definition trim_end (s : string) : string := rev (trim_start (rev s)).

(** [s.trim()]. *)
Definition trim (s : string) : string := trim_end (trim_start s).

(** [s.replace(/c/g, "")] for a single character [c]. *)
Fixpoint remove_all (c : ascii) (s : string) : string :=
  match s with
  | String a r => if Ascii.eqb a c then remove_all c r else String a (remove_all c r)
  | EmptyString => EmptyString
  end.

(** The longest prefix of decimal digits, and the rest. *)
Fixpoint span_digits (s : string) : list ascii * string :=
  match s with
  | String c r =>
      if is_digit c then let (ds, t) := span_digits r in (c :: ds, t) else (nil, s)
  | EmptyString => (nil, EmptyString)
  end.

Definition digits_value (ds : list ascii) : Z :=
  fold_left (fun acc c => 10 * acc + digit_value c) ds 0.

(** The decimal digits of a natural number. *)
Definition of_N (n : N) : string := NilZero.string_of_uint (N.to_uint n).

Definition of_Z_abs (z : Z) : string := of_N (Z.to_N (Z.abs z)).

Fixpoint zeros (n : nat) : string :=
  match n with O => EmptyString | S k => String "0" (zeros k) end.

(** The comparison used by [Array.prototype.sort] without a comparator:
    code unit by code unit. *)
Definition ltb (a b : string) : bool := String.ltb a b.

End Str.

(** ** Number to string conversions *)

Module NumStr.

Local Open Scope string_scope.
Local Open Scope Z_scope.
Import Num.

(** Structural equality of numbers ([Object.is], NaN included). *)
Definition same (a b : number) : bool :=
  match a, b with
  | S754_zero s, S754_zero t => Bool.eqb s t
  | S754_infinity s, S754_infinity t => Bool.eqb s t
  | S754_nan, S754_nan => true
  | S754_finite s m e, S754_finite t n f => Bool.eqb s t && Pos.eqb m n && Z.eqb e f
  | _, _ => false
  end.

(** [floor (m * 2^e / 10^q)] for a positive mantissa. *)
Definition scaled_floor (m : positive) (e q : Z) : Z :=
  let num := Zpos m * (if 0 <=? e then 2 ^ e else 1) * (if 0 <=? q then 1 else 10 ^ (- q)) in
  let den := (if 0 <=? e then 1 else 2 ^ (- e)) * (if 0 <=? q then 10 ^ q else 1) in
  num / den.

(** Twice the distance between [s * 10^q] and [m * 2^e], scaled by the
    common denominator; only used to compare two candidates. *)
Definition scaled_dist (m : positive) (e q s : Z) : Z :=
  let num := Zpos m * (if 0 <=? e then 2 ^ e else 1) * (if 0 <=? q then 1 else 10 ^ (- q)) in
  let den := (if 0 <=? e then 1 else 2 ^ (- e)) * (if 0 <=? q then 10 ^ q else 1) in
  Z.abs (s * den - num).

(** The shortest decimal [s * 10^q] that reads back as the positive finite
    number [m * 2^e]; among the candidates of that length, the nearest one
    (then the even one).  [q] runs downwards from an upper estimate. *)
Fixpoint shortest (fuel : nat) (m : positive) (e q : Z) : Z * Z :=
  match fuel with
  | O => (scaled_floor m e q, q)
  | S fuel' =>
      let x := S754_finite false m e in
      let lo := scaled_floor m e q in
      let hi := lo + 1 in
      let ok_lo := (0 <? lo) && same (of_decimal false lo q) x in
      let ok_hi := same (of_decimal false hi q) x in
      match ok_lo, ok_hi with
      | true, false => (lo, q)
      | false, true => (hi, q)
      | true, true =>
          let dl := scaled_dist m e q lo in
          let dh := scaled_dist m e q hi in
          if dl <? dh then (lo, q)
          else if dh <? dl then (hi, q)
          else if Z.even lo then (lo, q) else (hi, q)
      | false, false => shortest fuel' m e (q - 1)
      end
  end.

(** An upper estimate of the decimal exponent of [m * 2^e]. *)
Definition exp10_upper (m : positive) (e : Z) : Z :=
  ((Z.log2 (Zpos m) + e + 1) * 30103) / 100000 + 2.

Definition take (n : nat) (s : string) : string := String.substring 0 n s.
Definition drop (n : nat) (s : string) : string :=
  String.substring n (String.length s - n) s.

(** [Number::toString] for a positive finite number, from its digits [s]
    ([k] of them) and the position [n] of the decimal point. *)
Definition layout (s : Z) (n : Z) : string :=
  let ds := Str.of_Z_abs s in
  let k := Z.of_nat (String.length ds) in
  if (k <=? n) && (n <=? 21) then
    ds ++ Str.zeros (Z.to_nat (n - k))
  else if (0 <? n) && (n <=? 21) then
    take (Z.to_nat n) ds ++ "." ++ drop (Z.to_nat n) ds
  else if (-6 <? n) && (n <=? 0) then
    "0." ++ Str.zeros (Z.to_nat (- n)) ++ ds
  else
    let ex := (if 0 <=? n - 1 then "+" else "-") ++ Str.of_Z_abs (n - 1) in
    if k =? 1 then ds ++ "e" ++ ex
    else take 1 ds ++ "." ++ drop 1 ds ++ "e" ++ ex.

(** [String(x)] for a number [x]. *)
Definition toString (x : number) : string :=
  match x with
  | S754_nan => "NaN"
  | S754_zero _ => "0"
  | S754_infinity s => if s then "-Infinity" else "Infinity"
  | S754_finite sg m e =>
      let (s, q) := shortest 400 m e (exp10_upper m e) in
      let k := Z.of_nat (String.length (Str.of_Z_abs s)) in
      (if sg then "-" else "") ++ layout s (k + q)
  end.

(** The integer [n] for which [n / 10^f] is nearest to [m * 2^e], the larger
    one when two are equally near. *)
Definition nearest_scaled (m : positive) (e : Z) (f : nat) : Z :=
  let t := Zpos m * 10 ^ Z.of_nat f in
  if 0 <=? e then t * 2 ^ e
  else (2 * t + 2 ^ (- e)) / 2 ^ (1 - e).

(** The digits of [n] with a decimal point before the last [f] of them. *)
Definition fixed_digits (n : Z) (f : nat) : string :=
  let m := Str.of_Z_abs n in
  match f with
  | O => m
  | _ =>
      let k := String.length m in
      let m' := if (k <=? f)%nat then Str.zeros (f + 1 - k) ++ m else m in
      let k' := String.length m' in
      take (k' - f) m' ++ "." ++ drop (k' - f) m'
  end.

(** [x.toFixed(f)]. *)
Definition toFixed (x : number) (f : nat) : string :=
  match x with
  | S754_finite sg m e =>
      if SFleb (of_decimal false 1 21) (S754_finite false m e) then toString x
      else (if sg then "-" else "") ++ fixed_digits (nearest_scaled m e f) f
  | S754_zero _ => fixed_digits 0 f
  | _ => toString x
  end.

End NumStr.

(** ** Cell values and number coercion *)

Local Open Scope string_scope.
Local Open Scope Z_scope.

(** The values a cell of an imported sheet can hold. *)
Inductive value :=
  | VNull
  | VUndefined
  | VNumber (n : number)
  | VString (s : string)
  | VBoolean (b : bool).

(** [String(x)]. *)
Definition String_ (x : value) : string :=
  match x with
  | VNull => "null"
  | VUndefined => "undefined"
  | VNumber n => NumStr.toString n
  | VString s => s
  | VBoolean b => if b then "true" else "false"
  end.

(** The exponent part [e, sign, digits] of a decimal literal, if one starts [s]. *)
Definition exponent_part (s : string) : Z :=
  match s with
  | String c r =>
      if Ascii.eqb c "e" || Ascii.eqb c "E" then
        let (neg, u) :=
          match r with
          | String "-" r' => (true, r')
          | String "+" r' => (false, r')
          | _ => (false, r)
          end in
        match fst (Str.span_digits u) with
        | nil => 0
        | ds => if neg then - Str.digits_value ds else Str.digits_value ds
        end
      else 0
  | EmptyString => 0
  end.

(** [parseFloat(s)]: leading white space is skipped, then the longest prefix
    that is a decimal literal is read and rounded to the nearest number;
    without such a prefix the result is NaN. *)
Definition parseFloat (input : string) : number :=
  let t := Str.trim_start input in
  let (neg, u) :=
    match t with
    | String "-" r => (true, r)
    | String "+" r => (false, r)
    | _ => (false, t)
    end in
  if String.prefix "Infinity" u then S754_infinity neg
  else
    let (ip, r1) := Str.span_digits u in
    let (fp, r2) :=
      match r1 with
      | String "." r => Str.span_digits r
      | _ => (nil, r1)
      end in
    match ip, fp with
    | nil, nil => Num.NaN
    | _, _ =>
        Num.of_decimal neg (Str.digits_value (ip ++ fp)%list)
          (exponent_part r2 - Z.of_nat (List.length fp))
    end.

(** [parseNumber] (the same function in both source files). *)
Definition parseNumber (x : value) : number :=
  match x with
  | VNull | VUndefined => Num.NaN
  | VNumber n => n
  | _ =>
      let s := Str.remove_all "%" (Str.remove_all "," (Str.trim (String_ x))) in
      let v := parseFloat s in
      if Num.isFinite v then v else Num.NaN
  end.

(** ** Rows *)

(** A row object of the imported sheet: its own properties, one per column
    of the header. *)
Definition RawRow := list (string * value).

(** [r[col]].  Every row of an imported sheet carries each header column as
    an own property, so the selected columns are never looked up in a
    prototype. *)
Fixpoint get (r : RawRow) (col : string) : value :=
  match r with
  | (k, v) :: r' => if String.eqb k col then v else get r' col
  | nil => VUndefined
  end.

(** A row after coercion. *)
Record Row := { grade : number; group : string }.

Definition coerce_row (gradeCol groupCol : string) (r : RawRow) : Row :=
  {| grade := parseNumber (get r gradeCol);
     group := match get r groupCol with
              | VNull | VUndefined => "(missing)"
              | v => String_ v
              end |}.

(** [data.map(...).filter((r) => !Number.isNaN(r.grade))]. *)
Definition prepare_rows (gradeCol groupCol : string) (data : list RawRow) : list Row :=
  filter (fun r => negb (Num.isNaN (grade r))) (map (coerce_row gradeCol groupCol) data).

(** ** Statistics shared by the overall and the per-group computations *)

(** [xs.filter(pred).length]. *)
Definition count (pred : number -> bool) (xs : list number) : nat :=
  List.length (filter pred xs).

(** [xs.reduce((a, b) => a + b, 0) / xs.length]. *)
Definition mean (xs : list number) : number :=
  Num.div (fold_left Num.add xs Num.zero) (Num.of_nat (List.length xs)).

(** [Math.sqrt(xs.reduce((a, b) => a + Math.pow(b - mean, 2), 0) / xs.length)]. *)
Definition sd (xs : list number) : number :=
  let mu := mean xs in
  Num.sqrt (Num.div (fold_left (fun a b => Num.add a (Num.pow2 (Num.sub b mu))) xs Num.zero)
                    (Num.of_nat (List.length xs))).

(** [((c / n) * 100).toFixed(1)]. *)
Definition rate (c n : nat) : string :=
  NumStr.toFixed (Num.mul (Num.div (Num.of_nat c) (Num.of_nat n)) (Num.of_Z 100)) 1.

(** ** The [groups] object *)

(** [groups] starts as the literal [{}]: besides its own properties it
    answers reads of the property names of [Object.prototype], with values
    (functions, or the prototype object itself) that are truthy and have no
    [push] method. *)
Definition object_prototype_keys : list string :=
  [ "constructor"; "__defineGetter__"; "__defineSetter__"; "hasOwnProperty";
    "__lookupGetter__"; "__lookupSetter__"; "isPrototypeOf";
    "propertyIsEnumerable"; "toString"; "valueOf"; "__proto__";
    "toLocaleString" ].

Definition inherited (k : string) : bool :=
  existsb (String.eqb k) object_prototype_keys.

(** Own properties, in creation order. *)
Definition Groups := list (string * list number).

Fixpoint own (g : Groups) (k : string) : option (list number) :=
  match g with
  | (k', arr) :: g' => if String.eqb k' k then Some arr else own g' k
  | nil => None
  end.

(** [groups[k].push(x)] on an own property [k]. *)
Fixpoint push (g : Groups) (k : string) (x : number) : Groups :=
  match g with
  | (k', arr) :: g' =>
      if String.eqb k' k then (k', (arr ++ [x])%list) :: g' else (k', arr) :: push g' k x
  | nil => nil
  end.

(** One iteration of
    [if (!groups[r.group]) groups[r.group] = []; groups[r.group].push(r.grade)];
    [None] when the call of [push] raises a TypeError. *)
Definition add_row (g : Groups) (r : Row) : option Groups :=
  match own g (group r) with
  | Some _ => Some (push g (group r) (grade r))
  | None =>
      if inherited (group r) then None
      else Some (g ++ [(group r, [grade r])])%list
  end.

(** [rows.forEach(...)] from the given object. *)
Fixpoint add_rows (g : Groups) (rows : list Row) : option Groups :=
  match rows with
  | nil => Some g
  | r :: rows' =>
      match add_row g r with
      | Some g' => add_rows g' rows'
      | None => None
      end
  end.

(** An array index: the canonical decimal form of an integer below 2^32 - 1. *)
Definition is_array_index (k : string) : bool :=
  match k with
  | EmptyString => false
  | String c r =>
      let (ds, rest) := Str.span_digits k in
      match rest with
      | EmptyString =>
          (String.eqb k "0" || negb (Ascii.eqb c "0"))
          && (Str.digits_value ds <? 4294967295)
      | _ => false
      end
  end.

Definition index_value (k : string) : Z :=
  Str.digits_value (fst (Str.span_digits k)).

Section InsertionSort.

Context {A : Type} (lt : A -> A -> bool).

Fixpoint insert (x : A) (l : list A) : list A :=
  match l with
  | nil => [x]
  | y :: l' => if lt x y then x :: l else y :: insert x l'
  end.

Definition sort_by (l : list A) : list A := fold_right insert nil l.

End InsertionSort.

(** [Object.keys(groups)]: array indices in increasing numeric order, then
    the other names in creation order. *)
Definition Object_keys (g : Groups) : list string :=
  let ks := map fst g in
  (sort_by (fun a b => index_value a <? index_value b) (filter is_array_index ks)
   ++ filter (fun k => negb (is_array_index k)) ks)%list.

(** [keys.sort()]: increasing order of code units. *)
Definition sort (ks : list string) : list string := sort_by Str.ltb ks.

(** [groups[k]] for a key returned by [Object.keys]. *)
Definition lookup (g : Groups) (k : string) : list number :=
  match own g k with Some arr => arr | None => nil end.

(** ** User interaction *)

(** What the component does to its environment while a handler runs. *)
Inductive event :=
  | Alert (msg : string)
  | Confirm (msg : string) (answer : bool).

(** How a handler ends: it returns early from one of its guards, it runs to
    its last statement, or an exception leaves it. *)
Inductive completion := Aborted | Completed | TypeError.

(** ** The component of [src/App.js] *)

Module App.

Record OverallSummary := {
  N : nat;
  PassingCount : nat;
  FailedCount : nat;
  PassingRate : string;
  MeritRate : string;
  DistinctionRate : string;
  OverallPassingRateFixed : string;
  PassBandCount : nat;
  MeritBandCount : nat;
  DistinctionBandCount : nat;
  Mean : string;
  SD : string;
  Max : number;
  Min : number
}.

Record GroupSummary := {
  Group : string;
  summary : OverallSummary
}.

(** The state variables of the component. *)
Record State := {
  data : list RawRow;
  gradeCol : string;
  groupCol : string;
  title : string;
  passing : number;
  merit : number;
  distinction : number;
  overallSummary : list OverallSummary;
  groupSummary : list GroupSummary;
  reportGenerated : bool
}.

Definition setTitle (t : string) (st : State) : State :=
  {| data := data st; gradeCol := gradeCol st; groupCol := groupCol st;
     title := t;
     passing := passing st; merit := merit st; distinction := distinction st;
     overallSummary := overallSummary st; groupSummary := groupSummary st;
     reportGenerated := reportGenerated st |}.

Definition setOverallSummary (o : list OverallSummary) (st : State) : State :=
  {| data := data st; gradeCol := gradeCol st; groupCol := groupCol st;
     title := title st;
     passing := passing st; merit := merit st; distinction := distinction st;
     overallSummary := o; groupSummary := groupSummary st;
     reportGenerated := reportGenerated st |}.

Definition setGroupSummary (g : list GroupSummary) (st : State) : State :=
  {| data := data st; gradeCol := gradeCol st; groupCol := groupCol st;
     title := title st;
     passing := passing st; merit := merit st; distinction := distinction st;
     overallSummary := overallSummary st; groupSummary := g;
     reportGenerated := reportGenerated st |}.

Definition setReportGenerated (b : bool) (st : State) : State :=
  {| data := data st; gradeCol := gradeCol st; groupCol := groupCol st;
     title := title st;
     passing := passing st; merit := merit st; distinction := distinction st;
     overallSummary := overallSummary st; groupSummary := groupSummary st;
     reportGenerated := b |}.

(** [setPassing], [setMerit] and [setDistinction], called together. *)
Definition setThresholds (a b c : number) (st : State) : State :=
  {| data := data st; gradeCol := gradeCol st; groupCol := groupCol st;
     title := title st;
     passing := a; merit := b; distinction := c;
     overallSummary := overallSummary st; groupSummary := groupSummary st;
     reportGenerated := reportGenerated st |}.

(** The normalized thresholds [{ p, m, d }]. *)
Record Thresholds := { p : number; m : number; d : number }.

Definition coerceThresholds (passing merit distinction : number) : Thresholds :=
  let p0 := if Num.isFinite passing then passing else Num.of_Z 40 in
  let m0 := if Num.isFinite merit then merit else Num.of_Z 60 in
  let d0 := if Num.isFinite distinction then distinction else Num.of_Z 70 in
  let p1 := Num.max Num.zero (Num.min (Num.of_Z 100) p0) in
  let m1 := Num.max p1 (Num.min (Num.of_Z 100) m0) in
  let d1 := Num.max m1 (Num.min (Num.of_Z 100) d0) in
  {| p := p1; m := m1; d := d1 |}.

(** [rows.filter(pred).length]. *)
Definition count_rows (pred : Row -> bool) (rows : list Row) : nat :=
  List.length (filter pred rows).

(** The overall summary record, computed over the prepared rows. *)
Definition overall (t : Thresholds) (rows : list Row) : OverallSummary :=
  let n := List.length rows in
  let passCount := count_rows (fun r => Num.geb (grade r) (p t)) rows in
  let meritCount :=
    count_rows (fun r => Num.geb (grade r) (m t) && Num.ltb (grade r) (d t)) rows in
  let distCount := count_rows (fun r => Num.geb (grade r) (d t)) rows in
  let failCount := (n - passCount)%nat in
  let passBandCount :=
    count_rows (fun r => Num.geb (grade r) (Num.of_Z 40) && Num.ltb (grade r) (Num.of_Z 60)) rows in
  let meritBandCount :=
    count_rows (fun r => Num.geb (grade r) (Num.of_Z 60) && Num.ltb (grade r) (Num.of_Z 70)) rows in
  let distBandCount := count_rows (fun r => Num.geb (grade r) (Num.of_Z 70)) rows in
  let overallPassingRateFixed :=
    rate (count_rows (fun r => Num.geb (grade r) (Num.of_Z 40)) rows) n in
  let grades := map grade rows in
  {| N := n;
     PassingCount := passCount;
     FailedCount := failCount;
     PassingRate := rate passCount n;
     MeritRate := rate meritCount n;
     DistinctionRate := rate distCount n;
     OverallPassingRateFixed := overallPassingRateFixed;
     PassBandCount := passBandCount;
     MeritBandCount := meritBandCount;
     DistinctionBandCount := distBandCount;
     Mean := NumStr.toFixed (mean grades) 2;
     SD := NumStr.toFixed (sd grades) 2;
     Max := Num.max_list grades;
     Min := Num.min_list grades |}.

(** The metrics of one group, computed over the array of its grades. *)
Definition summarize (t : Thresholds) (grades : list number) : OverallSummary :=
  let n := List.length grades in
  let passCount := count (fun g => Num.geb g (p t)) grades in
  let meritCount := count (fun g => Num.geb g (m t) && Num.ltb g (d t)) grades in
  let distCount := count (fun g => Num.geb g (d t)) grades in
  let failCount := (n - passCount)%nat in
  let passBandCount :=
    count (fun g => Num.geb g (Num.of_Z 40) && Num.ltb g (Num.of_Z 60)) grades in
  let meritBandCount :=
    count (fun g => Num.geb g (Num.of_Z 60) && Num.ltb g (Num.of_Z 70)) grades in
  let distBandCount := count (fun g => Num.geb g (Num.of_Z 70)) grades in
  let overallPassingRateFixed :=
    rate (count (fun g => Num.geb g (Num.of_Z 40)) grades) n in
  {| N := n;
     PassingCount := passCount;
     FailedCount := failCount;
     PassingRate := rate passCount n;
     MeritRate := rate meritCount n;
     DistinctionRate := rate distCount n;
     OverallPassingRateFixed := overallPassingRateFixed;
     PassBandCount := passBandCount;
     MeritBandCount := meritBandCount;
     DistinctionBandCount := distBandCount;
     Mean := NumStr.toFixed (mean grades) 2;
     SD := NumStr.toFixed (sd grades) 2;
     Max := Num.max_list grades;
     Min := Num.min_list grades |}.

(** [Object.keys(groups).sort().map((g) => ...)]. *)
Definition group_summaries (t : Thresholds) (g : Groups) : list GroupSummary :=
  map (fun k => {| Group := k; summary := summarize t (lookup g k) |})
      (sort (Object_keys g)).

Definition default_title : string := "Mid-Term Politics Grades Report".

(** [generateReport], from the guards to the last state update.  [answer] is
    what the user replies if [window.confirm] is shown.  The result is the
    state after the setter calls that were reached, the dialogs shown, and
    the way the handler ended. *)
Definition generateReport (answer : bool) (st : State)
  : State * list event * completion :=
  match data st with
  | nil => (st, [Alert "Please upload a data file first."], Aborted)
  | _ =>
    if String.eqb (gradeCol st) "" then
      (st, [Alert "Please select a Grade column."], Aborted)
    else if String.eqb (groupCol st) "" then
      (st, [Alert "Please select a Group column."], Aborted)
    else
      let ask := String.eqb (Str.trim (title st)) "" in
      let asked :=
        if ask then
          [Confirm "Title is empty. Use default title 'Mid-Term Politics Grades Report'?" answer]
        else [] in
      if ask && negb answer then (st, asked, Aborted)
      else
        let st1 := if ask then setTitle default_title st else st in
        let t := coerceThresholds (passing st) (merit st) (distinction st) in
        let rows := prepare_rows (gradeCol st) (groupCol st) (data st) in
        match rows with
        | nil =>
            (st1,
             (asked ++ [Alert "No numeric grades found in selected Grade column."])%list,
             Aborted)
        | _ =>
            let st2 := setOverallSummary [overall t rows] st1 in
            match add_rows [] rows with
            | None => (st2, asked, TypeError)
            | Some groups =>
                let st3 := setGroupSummary (group_summaries t groups) st2 in
                (setReportGenerated true st3, asked, Completed)
            end
        end
  end.

End App.

(** ** The earlier variant of the component ([src/unnamed/part_000]) *)

Module Part000.

Record OverallSummary := {
  N : nat;
  PassingCount : nat;
  FailedCount : nat;
  PassingRate : string;
  MeritRate : string;
  DistinctionRate : string;
  Mean : string;
  SD : string;
  Max : number;
  Min : number
}.

Record GroupSummary := {
  Group : string;
  summary : OverallSummary
}.

Record State := {
  data : list RawRow;
  gradeCol : string;
  groupCol : string;
  title : string;
  passing : number;
  merit : number;
  distinction : number;
  overallSummary : list OverallSummary;
  groupSummary : list GroupSummary;
  reportGenerated : bool
}.

Definition setTitle (t : string) (st : State) : State :=
  {| data := data st; gradeCol := gradeCol st; groupCol := groupCol st;
     title := t;
     passing := passing st; merit := merit st; distinction := distinction st;
     overallSummary := overallSummary st; groupSummary := groupSummary st;
     reportGenerated := reportGenerated st |}.

Definition setOverallSummary (o : list OverallSummary) (st : State) : State :=
  {| data := data st; gradeCol := gradeCol st; groupCol := groupCol st;
     title := title st;
     passing := passing st; merit := merit st; distinction := distinction st;
     overallSummary := o; groupSummary := groupSummary st;
     reportGenerated := reportGenerated st |}.

Definition setGroupSummary (g : list GroupSummary) (st : State) : State :=
  {| data := data st; gradeCol := gradeCol st; groupCol := groupCol st;
     title := title st;
     passing := passing st; merit := merit st; distinction := distinction st;
     overallSummary := overallSummary st; groupSummary := g;
     reportGenerated := reportGenerated st |}.

Definition setReportGenerated (b : bool) (st : State) : State :=
  {| data := data st; gradeCol := gradeCol st; groupCol := groupCol st;
     title := title st;
     passing := passing st; merit := merit st; distinction := distinction st;
     overallSummary := overallSummary st; groupSummary := groupSummary st;
     reportGenerated := b |}.

Definition count_rows (pred : Row -> bool) (rows : list Row) : nat :=
  List.length (filter pred rows).

(** The overall summary record, with the state's thresholds as they are. *)
Definition overall (passing merit distinction : number) (rows : list Row)
  : OverallSummary :=
  let n := List.length rows in
  let passCount := count_rows (fun r => Num.geb (grade r) passing) rows in
  let meritCount :=
    count_rows (fun r => Num.geb (grade r) merit && Num.ltb (grade r) distinction) rows in
  let distCount := count_rows (fun r => Num.geb (grade r) distinction) rows in
  let failCount := (n - passCount)%nat in
  let grades := map grade rows in
  {| N := n;
     PassingCount := passCount;
     FailedCount := failCount;
     PassingRate := rate passCount n;
     MeritRate := rate meritCount n;
     DistinctionRate := rate distCount n;
     Mean := NumStr.toFixed (mean grades) 2;
     SD := NumStr.toFixed (sd grades) 2;
     Max := Num.max_list grades;
     Min := Num.min_list grades |}.

(** The metrics of one group. *)
Definition summarize (passing merit distinction : number) (grades : list number)
  : OverallSummary :=
  let n := List.length grades in
  let passCount := count (fun g => Num.geb g passing) grades in
  let meritCount := count (fun g => Num.geb g merit && Num.ltb g distinction) grades in
  let distCount := count (fun g => Num.geb g distinction) grades in
  let failCount := (n - passCount)%nat in
  {| N := n;
     PassingCount := passCount;
     FailedCount := failCount;
     PassingRate := rate passCount n;
     MeritRate := rate meritCount n;
     DistinctionRate := rate distCount n;
     Mean := NumStr.toFixed (mean grades) 2;
     SD := NumStr.toFixed (sd grades) 2;
     Max := Num.max_list grades;
     Min := Num.min_list grades |}.

(** [Object.keys(groups).map((g) => ...)]: no sorting here. *)
Definition group_summaries (passing merit distinction : number) (g : Groups)
  : list GroupSummary :=
  map (fun k => {| Group := k;
                   summary := summarize passing merit distinction (lookup g k) |})
      (Object_keys g).

Definition default_title : string := "Mid-Term Politics Grades Report".

Definition generateReport (answer : bool) (st : State)
  : State * list event * completion :=
  match data st with
  | nil => (st, [Alert "Please upload a data file first."], Aborted)
  | _ =>
    if String.eqb (gradeCol st) "" then
      (st, [Alert "Please select a Grade column."], Aborted)
    else if String.eqb (groupCol st) "" then
      (st, [Alert "Please select a Group column."], Aborted)
    else
      let ask := String.eqb (Str.trim (title st)) "" in
      let asked :=
        if ask then [Confirm "Title is empty. Use default title?" answer] else [] in
      if ask && negb answer then (st, asked, Aborted)
      else
        let st1 := if ask then setTitle default_title st else st in
        let rows := prepare_rows (gradeCol st) (groupCol st) (data st) in
        match rows with
        | nil => (st1, (asked ++ [Alert "No numeric grades found."])%list, Aborted)
        | _ =>
            let st2 :=
              setOverallSummary
                [overall (passing st) (merit st) (distinction st) rows] st1 in
            match add_rows [] rows with
            | None => (st2, asked, TypeError)
            | Some groups =>
                let st3 :=
                  setGroupSummary
                    (group_summaries (passing st) (merit st) (distinction st) groups) st2 in
                (setReportGenerated true st3, asked, Completed)
            end
        end
  end.

End Part000.

(** ** Sample inputs *)

(** A state ready for [generateReport]: the given rows, columns "Grade" and
    "Group" selected, a title, the default thresholds, no report yet. *)
Definition loaded (rows : list RawRow) : App.State :=
  {| App.data := rows;
     App.gradeCol := "Grade";
     App.groupCol := "Group";
     App.title := "Report";
     App.passing := Num.of_Z 40;
     App.merit := Num.of_Z 60;
     App.distinction := Num.of_Z 70;
     App.overallSummary := [];
     App.groupSummary := [];
     App.reportGenerated := false |}.

Definition cell_row (g : value) (label : string) : RawRow :=
  [("Grade", g); ("Group", VString label)].

(** A row whose grade cell holds the numeric value [Infinity]. *)
Definition infinite_row : RawRow := cell_row (VNumber Num.Infinity) "A".

(** No row survives coercion: every grade coerces to NaN. *)
Definition all_NaN (gradeCol : string) (data : list RawRow) : Prop :=
  Forall (fun r => parseNumber (get r gradeCol) = Num.NaN) data.

(** ** The worked example: grades 35, 45, 65, 75 with thresholds 40/60/70 *)

Definition example_grades : list number :=
  [Num.of_Z 35; Num.of_Z 45; Num.of_Z 65; Num.of_Z 75].

Definition example_thresholds : App.Thresholds :=
  App.coerceThresholds (Num.of_Z 40) (Num.of_Z 60) (Num.of_Z 70).

Definition example_rows : list Row :=
  map (fun g => {| grade := g; group := "A" |}) example_grades.

Definition example_summary : App.OverallSummary :=
  {| App.N := 4;
     App.PassingCount := 3;
     App.FailedCount := 1;
     App.PassingRate := "75.0";
     App.MeritRate := "25.0";
     App.DistinctionRate := "25.0";
     App.OverallPassingRateFixed := "75.0";
     App.PassBandCount := 1;
     App.MeritBandCount := 1;
     App.DistinctionBandCount := 1;
     App.Mean := "55.00";
     App.SD := "15.81";
     App.Max := Num.of_Z 75;
     App.Min := Num.of_Z 35 |}.

(** All the orders in which the elements of a list can come. *)
Fixpoint insert_everywhere {A : Type} (x : A) (l : list A) : list (list A) :=
  match l with
  | nil => [[x]]
  | y :: l' => (x :: l) :: map (cons y) (insert_everywhere x l')
  end.

Fixpoint orders {A : Type} (l : list A) : list (list A) :=
  match l with
  | nil => [nil]
  | x :: l' => flat_map (insert_everywhere x) (orders l')
  end.

(** The sheet of the worked example, with two groups. *)
Definition example_data : list RawRow :=
  [cell_row (VNumber (Num.of_Z 35)) "A"; cell_row (VNumber (Num.of_Z 45)) "B";
   cell_row (VNumber (Num.of_Z 65)) "A"; cell_row (VNumber (Num.of_Z 75)) "B"].

(** ** The order of numbers *)

(** Numbers other than NaN are ordered as the triples below, compared
    lexicographically; the two zeros share a triple. *)
Definition key (x : number) : Z * Z * Z :=
  match x with
  | S754_nan => (0, 0, 0)
  | S754_zero _ => (0, 0, 0)
  | S754_infinity s => (if s then -2 else 2, 0, 0)
  | S754_finite s m e => if s then (-1, - e, Zneg m) else (1, e, Zpos m)
  end.

Definition lt3 (k1 k2 : Z * Z * Z) : Prop :=
  let '(a, b, c) := k1 in
  let '(a', b', c') := k2 in
  a < a' \/ (a = a' /\ (b < b' \/ (b = b' /\ c < c'))).

Definition le3 (k1 k2 : Z * Z * Z) : Prop := lt3 k1 k2 \/ k1 = k2.

(** The number [-0]. *)
Definition is_neg_zero (x : number) : bool :=
  match x with S754_zero true => true | _ => false end.


(** ** The threshold normalizer, in the words of the specification *)

(** A non-finite input is replaced by its default. *)
Definition or_default (dflt x : number) : number :=
  if Num.isFinite x then x else dflt.

(** [x] clamped to the interval from [lo] to [hi]. *)
Definition clamp (lo hi x : number) : number :=
  if Num.ltb x lo then lo else if Num.ltb hi x then hi else x.

Definition hundred : number := Num.of_Z 100.

(** A threshold set is ordered: [0 <= p <= m <= d <= 100]. *)
Definition ordered (t : App.Thresholds) : Prop :=
  Num.leb Num.zero (App.p t) = true
  /\ Num.leb (App.p t) (App.m t) = true
  /\ Num.leb (App.m t) (App.d t) = true
  /\ Num.leb (App.d t) hundred = true.

(** ** Views of a summary *)

(** The fields of a summary that are specified from the rows alone: N, the
    fixed passing rate, the three band counts, mean, sd, max and min. *)
Definition fixed_fields (o : App.OverallSummary)
  : nat * string * nat * nat * nat * string * string * number * number :=
  (App.N o, App.OverallPassingRateFixed o, App.PassBandCount o,
   App.MeritBandCount o, App.DistinctionBandCount o,
   App.Mean o, App.SD o, App.Max o, App.Min o).

Definition fixed_view (st : App.State) :=
  (map fixed_fields (App.overallSummary st),
   map (fun g => (App.Group g, fixed_fields (App.summary g))) (App.groupSummary st)).

(** The fields that the two variants of the component have in common. *)
Definition common (o : App.OverallSummary) : Part000.OverallSummary :=
  {| Part000.N := App.N o;
     Part000.PassingCount := App.PassingCount o;
     Part000.FailedCount := App.FailedCount o;
     Part000.PassingRate := App.PassingRate o;
     Part000.MeritRate := App.MeritRate o;
     Part000.DistinctionRate := App.DistinctionRate o;
     Part000.Mean := App.Mean o;
     Part000.SD := App.SD o;
     Part000.Max := App.Max o;
     Part000.Min := App.Min o |}.

(** ** Groups, in the words of the specification *)

(** The grades of the rows whose group is [k], in row order. *)
Definition grades_of (k : string) (rows : list Row) : list number :=
  map grade (filter (fun r => String.eqb (group r) k) rows).

(** The labels in the order of their first appearance, given those already
    seen. *)
Fixpoint first_seen (seen ks : list string) : list string :=
  match ks with
  | nil => nil
  | k :: ks' =>
      if existsb (String.eqb k) seen then first_seen seen ks'
      else k :: first_seen (seen ++ [k])%list ks'
  end.

(** Ascending order of code units, strict and large. *)
Definition str_lt (a b : string) : Prop := Str.ltb a b = true.
Definition str_le (a b : string) : Prop := Str.ltb b a = false.

(** The sum of the N fields of a list of group summaries. *)
Definition total_N (gs : list App.GroupSummary) : nat :=
  fold_right (fun s acc => (App.N (App.summary s) + acc)%nat) 0%nat gs.

(** A row whose group label is also a property name of [Object.prototype]. *)
Definition constructor_row : RawRow := cell_row (VNumber (Num.of_Z 50)) "constructor".

(** The same ready state for the earlier variant. *)
Definition loaded0 (rows : list RawRow) : Part000.State :=
  {| Part000.data := rows;
     Part000.gradeCol := "Grade";
     Part000.groupCol := "Group";
     Part000.title := "Report";
     Part000.passing := Num.of_Z 40;
     Part000.merit := Num.of_Z 60;
     Part000.distinction := Num.of_Z 70;
     Part000.overallSummary := [];
     Part000.groupSummary := [];
     Part000.reportGenerated := false |}.

(** Two rows of two groups, the label that sorts later first. *)
Definition rows_B_then_A : list RawRow :=
  [cell_row (VNumber (Num.of_Z 50)) "B"; cell_row (VNumber (Num.of_Z 60)) "A"].

(** ** Signs *)

(** [x] is a zero, a finite number or an infinity of sign [s]; in
    particular it is not NaN. *)
Definition signed (s : bool) (x : number) : Prop :=
  match x with
  | S754_zero s' | S754_infinity s' | S754_finite s' _ _ => s' = s
  | S754_nan => False
  end.

(** ** Sample grade lists *)

(** All the grades of a list are [===]. *)
Definition all_equal (xs : list number) : bool :=
  match xs with
  | nil => true
  | x :: r => forallb (Num.eqb x) r
  end.

(** Three grades 0.1. *)
Definition tenths : list number :=
  let x := Num.of_decimal false 1 (-1) in [x; x; x].

(** The grades 0 and 1e-200. *)
Definition tiny_pair : list number := [Num.zero; Num.of_decimal false 1 (-200)].

(** ** Rates, in the words of the specification *)






(** ** Magnitudes *)

(** [x] is a zero of either sign. *)
Definition is_zero (x : number) : bool :=
  match x with S754_zero _ => true | _ => false end.

(** [x] is an infinity, or a finite number [m * 2^e] with [e] at least the
    smallest exponent of the format and [2^(B - 1) <= m * 2^e]. *)
Definition large (B : Z) (x : number) : Prop :=
  match x with
  | S754_finite _ m e => B <= Zpos (digits2_pos m) + e /\ -1074 <= e
  | S754_infinity _ => True
  | _ => False
  end.

(** [x] is a zero, or is positive and [large B]. *)
Definition zero_or_large (B : Z) (x : number) : Prop :=
  is_zero x = true \/ (signed false x /\ large B x).

(** A finite number written with at most 53 bits and an exponent of the
    format, as every number of the format is. *)
Definition well_formed (x : number) : Prop :=
  match x with
  | S754_finite _ m e => Zpos (digits2_pos m) <= 53 /\ -1074 <= e
  | _ => True
  end.

(** [x] is a zero, an infinity, or finite with [2^b <= |x|]. *)
Definition at_least (b : Z) (x : number) : bool :=
  match x with
  | S754_zero _ | S754_infinity _ => true
  | S754_finite _ m e => b <? Zpos (digits2_pos m) + e
  | S754_nan => false
  end.

(** The sum of the squared deviations from the mean, as [sd] accumulates
    it. *)
Definition squares (xs : list number) : number :=
  let mu := mean xs in
  fold_left (fun a b => Num.add a (Num.pow2 (Num.sub b mu))) xs Num.zero.

(** Nothing underflows in the computation of [sd]: a squared deviation is
    zero only if the deviation is, and the quotient of the sum of the
    squares by the length is zero only if the sum is. *)
Definition no_underflow (xs : list number) : bool :=
  let mu := mean xs in
  forallb (fun g => implb (Num.eqb (Num.pow2 (Num.sub g mu)) Num.zero)
                          (Num.eqb (Num.sub g mu) Num.zero)) xs
  && implb (Num.eqb (Num.div (squares xs) (Num.of_nat (List.length xs))) Num.zero)
           (Num.eqb (squares xs) Num.zero).

(** Two finite numbers of the same sign and the same value, or two zeros. *)
Definition same_value (x y : number) : Prop :=
  match x, y with
  | S754_zero _, S754_zero _ => True
  | S754_finite sx mx ex, S754_finite sy my ey =>
      sx = sy /\ Zpos mx * 2 ^ (ex + 1074) = Zpos my * 2 ^ (ey + 1074)
  | _, _ => False
  end.

(** ** The other handlers and the chart data of [src/App.js] *)

Module View.

(** The state variables that [App.State] leaves out: the name of the loaded
    file and the header columns offered by the two selectors. *)
Record Component := {
  fileName : string;
  columns : list string;
  app : App.State
}.

(** The state the component starts in (the initial values of [useState]). *)
Definition initial : Component :=
  {| fileName := "";
     columns := [];
     app := {| App.data := [];
               App.gradeCol := "";
               App.groupCol := "";
               App.title := "";
               App.passing := Num.of_Z 40;
               App.merit := Num.of_Z 60;
               App.distinction := Num.of_Z 70;
               App.overallSummary := [];
               App.groupSummary := [];
               App.reportGenerated := false |} |}.

(** [Object.keys(o)] from the names of the own properties of [o] in creation
    order: array indices in increasing numeric order, then the others. *)
Definition keys_in_order (ks : list string) : list string :=
  (sort_by (fun a b => index_value a <? index_value b) (filter is_array_index ks)
   ++ filter (fun k => negb (is_array_index k)) ks)%list.

(** The upper case of an ASCII letter; other code units are left alone.
    Against an ASCII pattern letter, the [i] flag lets exactly the two ASCII
    cases of that letter match. *)
Definition upper (c : ascii) : ascii :=
  let n := Str.code c in
  if (97 <=? n) && (n <=? 122) then ascii_of_N (Z.to_N (n - 32)) else c.

(** The literal [pat] matches, ignoring case, at the start of [s]. *)
Fixpoint matches_at (pat s : string) : bool :=
  match pat with
  | EmptyString => true
  | String p pat' =>
      match s with
      | EmptyString => false
      | String c s' => Ascii.eqb (upper p) (upper c) && matches_at pat' s'
      end
  end.

(** [/a1|a2|.../i.test(s)] for literal alternatives. *)
Fixpoint test (alternatives : list string) (s : string) : bool :=
  existsb (fun pat => matches_at pat s) alternatives
  || match s with
     | EmptyString => false
     | String _ s' => test alternatives s'
     end.

(** [/grade|score|marks?/i]; the optional [s] is written as two
    alternatives. *)
Definition grade_pattern : list string := ["grade"; "score"; "marks"; "mark"].

(** [/group|section|class|cohort/i]. *)
Definition group_pattern : list string := ["group"; "section"; "class"; "cohort"].

(** [a || b || ""] where [a] and [b] are strings or undefined. *)
Definition first_truthy (a b : option string) : string :=
  match a with
  | Some (String c r) => String c r
  | _ => match b with
         | Some s => s
         | None => ""
         end
  end.

(** [handleFileChange] up to the start of the read: without a file nothing
    happens, otherwise the file name is stored. *)
Definition handleFileChange (file : option string) (c : Component) : Component :=
  match file with
  | None => c
  | Some name => {| fileName := name; columns := columns c; app := app c |}
  end.

(** The [onload] callback of [handleFileChange]; [json] is what
    [XLSX.utils.sheet_to_json] returned for the first sheet. *)
Definition onload (json : list RawRow) (c : Component) : Component :=
  let cols :=
    match json with
    | row :: _ => keys_in_order (map fst row)
    | nil => nil
    end in
  let gradeCandidate := find (test grade_pattern) cols in
  let groupCandidate := find (test group_pattern) cols in
  {| fileName := fileName c;
     columns := cols;
     app := {| App.data := json;
               App.gradeCol := first_truthy gradeCandidate (nth_error cols 0);
               App.groupCol := first_truthy groupCandidate (nth_error cols 1);
               App.title := App.title (app c);
               App.passing := App.passing (app c);
               App.merit := App.merit (app c);
               App.distinction := App.distinction (app c);
               App.overallSummary := [];
               App.groupSummary := [];
               App.reportGenerated := false |} |}.

(** [resetAll]. *)
Definition resetAll (c : Component) : Component := initial.

(** The change handlers of the title box, the two selectors and the three
    threshold boxes. *)
Definition setGradeCol (s : string) (st : App.State) : App.State :=
  {| App.data := App.data st; App.gradeCol := s; App.groupCol := App.groupCol st;
     App.title := App.title st;
     App.passing := App.passing st; App.merit := App.merit st;
     App.distinction := App.distinction st;
     App.overallSummary := App.overallSummary st;
     App.groupSummary := App.groupSummary st;
     App.reportGenerated := App.reportGenerated st |}.

Definition setGroupCol (s : string) (st : App.State) : App.State :=
  {| App.data := App.data st; App.gradeCol := App.gradeCol st; App.groupCol := s;
     App.title := App.title st;
     App.passing := App.passing st; App.merit := App.merit st;
     App.distinction := App.distinction st;
     App.overallSummary := App.overallSummary st;
     App.groupSummary := App.groupSummary st;
     App.reportGenerated := App.reportGenerated st |}.

Definition with_app (f : App.State -> App.State) (c : Component) : Component :=
  {| fileName := fileName c; columns := columns c; app := f (app c) |}.

(** What the user can do to the component. *)
Inductive action :=
  | ChooseFile (file : option string)
  | FileLoaded (json : list RawRow)
  | TypeTitle (s : string)
  | SelectGradeCol (s : string)
  | SelectGroupCol (s : string)
  | TypeThresholds (a b c : number)
  | ClickGenerate (answer : bool)
  | ClickReset.

Definition step (c : Component) (a : action) : Component :=
  match a with
  | ChooseFile file => handleFileChange file c
  | FileLoaded json => onload json c
  | TypeTitle s => with_app (App.setTitle s) c
  | SelectGradeCol s => with_app (setGradeCol s) c
  | SelectGroupCol s => with_app (setGroupCol s) c
  | TypeThresholds x y z => with_app (App.setThresholds x y z) c
  | ClickGenerate answer => with_app (fun st => fst (fst (App.generateReport answer st))) c
  | ClickReset => resetAll c
  end.

(** The states the component can be in: those reached from the initial one. *)
Definition run (actions : list action) : Component := fold_left step actions initial.

(** [s.replace(/\s+/g, "_")]: every maximal run of white space becomes one
    underscore.  [in_run] tells that the previous character was white
    space. *)
Fixpoint replace_spaces (in_run : bool) (s : string) : string :=
  match s with
  | EmptyString => EmptyString
  | String c r =>
      if Str.is_whitespace c then
        if in_run then replace_spaces true r else String "_" (replace_spaces true r)
      else String c (replace_spaces false r)
  end.

(** [(title && title.trim()) ? title.replace(/\s+/g, "_") : "Mid-Term_Politics_Grades_Report"]. *)
Definition safeTitle (title : string) : string :=
  match title with
  | EmptyString => "Mid-Term_Politics_Grades_Report"
  | _ =>
      match Str.trim title with
      | EmptyString => "Mid-Term_Politics_Grades_Report"
      | _ => replace_spaces false title
      end
  end.

(** What [downloadPDF] comes to: an alert, a TypeError from reading the keys
    of a missing first record, or a saved document with its cover title, the
    rows of its two tables and its file name. *)
Inductive download :=
  | Refused (msg : string)
  | Failed
  | Saved (cover : string) (overall : list App.OverallSummary)
          (groups : list App.GroupSummary) (filename : string).

(** [downloadPDF]; [day] is [new Date().toISOString().slice(0, 10)].  The
    drawing calls with constant arguments are left out. *)
Definition downloadPDF (day : string) (st : App.State) : download :=
  if negb (App.reportGenerated st) then Refused "Generate report first."
  else
    let cover :=
      match App.title st with
      | EmptyString => "Mid-Term Politics Grades Report"
      | t => t
      end in
    match App.overallSummary st with
    | nil => Failed
    | _ =>
        match App.groupSummary st with
        | nil => Failed
        | _ =>
            Saved cover (App.overallSummary st) (App.groupSummary st)
                  (safeTitle (App.title st) ++ "_" ++ day ++ ".pdf")
        end
    end.

(** [gradesForHistogram]. *)
Definition gradesForHistogram (st : App.State) : list number :=
  if App.reportGenerated st then
    filter Num.isFinite (map (fun r => parseNumber (get r (App.gradeCol st))) (App.data st))
  else [].

(** The property key made from [row[groupCol] ?? "(missing)"]. *)
Definition label_of (v : value) : string :=
  match v with
  | VNull | VUndefined => "(missing)"
  | _ => String_ v
  end.

(** One step of the [reduce] behind [boxplotDataByGroup]; [None] when
    [acc[g].push] raises a TypeError. *)
Definition box_step (gradeCol groupCol : string) (acc : option Groups) (row : RawRow)
  : option Groups :=
  match acc with
  | None => None
  | Some a =>
      let g := label_of (get row groupCol) in
      let a1 :=
        match own a g with
        | Some _ => a
        | None => if inherited g then a else (a ++ [(g, [])])%list
        end in
      let val := parseNumber (get row gradeCol) in
      if Num.isNaN val then Some a1
      else
        match own a1 g with
        | Some _ => Some (push a1 g val)
        | None => None
        end
  end.

(** One trace of the box plot: [{ y, type: "box", name }]. *)
Record Trace := { y : list number; name : string }.

(** [boxplotDataByGroup]; [None] when the computation raises. *)
Definition boxplotDataByGroup (st : App.State) : option (list Trace) :=
  if App.reportGenerated st then
    match fold_left (box_step (App.gradeCol st) (App.groupCol st)) (App.data st) (Some []) with
    | None => None
    | Some acc =>
        Some (map (fun k => {| y := lookup acc k; name := k |}) (Object_keys acc))
    end
  else Some [].

(** [(100 * c) / n] with [n = arr.length || 1]. *)
Definition chart_rate (c len : nat) : number :=
  let n := match len with O => 1%nat | _ => len end in
  Num.div (Num.mul (Num.of_Z 100) (Num.of_nat c)) (Num.of_nat n).

Record RatesChart := {
  x : list string;
  passRates : list number;
  meritRates : list number;
  distRates : list number
}.

(** The rows that the [forEach] of [groupRatesChart] does not skip. *)
Definition finite_rows (gradeCol groupCol : string) (data : list RawRow) : list Row :=
  filter (fun r => Num.isFinite (grade r))
         (map (fun row => {| grade := parseNumber (get row gradeCol);
                             group := label_of (get row groupCol) |}) data).

(** [groupRatesChart]: [Some None] is [null], [None] a TypeError. *)
Definition groupRatesChart (st : App.State) : option (option RatesChart) :=
  if App.reportGenerated st then
    let t := App.coerceThresholds (App.passing st) (App.merit st) (App.distinction st) in
    match add_rows [] (finite_rows (App.gradeCol st) (App.groupCol st) (App.data st)) with
    | None => None
    | Some groupsMap =>
        let groupsSorted := sort (Object_keys groupsMap) in
        let rates (pred : number -> bool) :=
          map (fun g =>
                 let arr := lookup groupsMap g in
                 chart_rate (count pred arr) (List.length arr))
              groupsSorted in
        Some (Some {| x := groupsSorted;
                      passRates := rates (fun v => Num.geb v (App.p t));
                      meritRates :=
                        rates (fun v => Num.geb v (App.m t) && Num.ltb v (App.d t));
                      distRates := rates (fun v => Num.geb v (App.d t)) |})
    end
  else Some None.

End View.

(** ** Auxiliary notions about strings and reachable states *)

(** The string with its ASCII letters in upper case. *)
Fixpoint uppercase (s : string) : string :=
  match s with
  | EmptyString => EmptyString
  | String c r => String (View.upper c) (uppercase r)
  end.

(** [sub] occurs in [s], ignoring the case of ASCII letters. *)
Definition contains_ignoring_case (sub s : string) : Prop :=
  exists pre mid post,
    s = (pre ++ mid ++ post)%string /\ uppercase mid = uppercase sub.

(** Some character of [s] is white space. *)
Fixpoint has_space (s : string) : bool :=
  match s with
  | EmptyString => false
  | String c r => Str.is_whitespace c || has_space r
  end.

(** Every character of [s] is white space. *)
Fixpoint all_space (s : string) : bool :=
  match s with
  | EmptyString => true
  | String c r => Str.is_whitespace c && all_space r
  end.

(** What holds of the summaries whenever the report flag is set. *)
Definition report_present (st : App.State) : Prop :=
  App.reportGenerated st = true ->
  (exists o, App.overallSummary st = [o] /\ (1 <= App.N o)%nat)
  /\ App.groupSummary st <> []
  /\ App.data st <> [].

(** A string that is empty or starts with white space. *)
Definition blank_head (w : string) : Prop :=
  match w with
  | EmptyString => True
  | String c _ => Str.is_whitespace c = true
  end.

(** The sign of a decimal literal and what follows it, as [parseFloat] and
    the exponent part split them. *)
Definition sign_split (t : string) : bool * string :=
  match t with
  | String c r =>
      if Ascii.eqb c "-" then (true, r)
      else if Ascii.eqb c "+" then (false, r) else (false, t)
  | EmptyString => (false, t)
  end.

(** The fraction digits after a decimal point, and the rest. *)
Definition fraction_split (r1 : string) : list ascii * string :=
  match r1 with
  | String c r => if Ascii.eqb c "." then Str.span_digits r else ([], r1)
  | EmptyString => ([], r1)
  end.

(** [s.replace(/,/g, "").replace(/%/g, "")]. *)
Definition strip (s : string) : string := Str.remove_all "%" (Str.remove_all "," s).

(** Every character of [s] is a decimal digit. *)
Fixpoint all_digits (s : string) : bool :=
  match s with
  | EmptyString => true
  | String c r => Str.is_digit c && all_digits r
  end.

(** The sum of one count over the group records. *)
Definition sum_of (f : App.OverallSummary -> nat) (gs : list App.GroupSummary) : nat :=
  list_sum (map (fun s => f (App.summary s)) gs).

(** A dialog other than the three guard alerts of [generateReport]. *)
Definition guard_free (e : event) : Prop :=
  match e with
  | Alert msg => msg = "No numeric grades found in selected Grade column."
  | Confirm _ _ => True
  end.

(** The same sum over the group records of the earlier variant. *)
Definition sum_of0 (f : Part000.OverallSummary -> nat) (gs : list Part000.GroupSummary)
  : nat :=
  list_sum (map (fun s => f (Part000.summary s)) gs).

(** * Properties *)

(** ** The order of numbers: lemmas *)

Lemma compare_key (x y : number) :
  Num.isNaN x = false -> Num.isNaN y = false ->
  (SFcompare x y = Some Lt /\ lt3 (key x) (key y))
  \/ (SFcompare x y = Some Eq /\ key x = key y)
  \/ (SFcompare x y = Some Gt /\ lt3 (key y) (key x)).
Proof.
  destruct x as [sx|sx| |sx mx ex], y as [sy|sy| |sy my ey];
    try discriminate; intros _ _;
    try (destruct sx); try (destruct sy); cbn;
    try (left; split; [reflexivity|lia]);
    try (right; left; split; [reflexivity|reflexivity]);
    try (right; right; split; [reflexivity|lia]).
  - destruct (Z.compare_spec ex ey) as [He|He|He].
    + subst ey. rewrite Pos.compare_cont_spec. cbn [Pos.switch_Eq].
      destruct (Pos.compare_spec mx my) as [Hm|Hm|Hm]; cbn.
      * right; left. split; [reflexivity|]. now subst.
      * right; right. split; [reflexivity|]. right. split; [reflexivity|]. right. split; lia.
      * left. split; [reflexivity|]. right. split; [reflexivity|]. right. split; lia.
    + right; right. split; [reflexivity|]. lia.
    + left. split; [reflexivity|]. lia.
  - destruct (Z.compare_spec ex ey) as [He|He|He].
    + subst ey. rewrite Pos.compare_cont_spec. cbn [Pos.switch_Eq].
      destruct (Pos.compare_spec mx my) as [Hm|Hm|Hm].
      * right; left. split; [reflexivity|]. now subst.
      * left. split; [reflexivity|]. right. split; [reflexivity|]. right. split; lia.
      * right; right. split; [reflexivity|]. right. split; [reflexivity|]. right. split; lia.
    + left. split; [reflexivity|]. lia.
    + right; right. split; [reflexivity|]. lia.
Qed.

Lemma compare_nan_l (y : number) : SFcompare S754_nan y = None.
Proof. reflexivity. Qed.

Lemma compare_nan_r (x : number) : SFcompare x S754_nan = None.
Proof. destruct x as [| | |[]]; reflexivity. Qed.

Lemma compare_not_nan (x y : number) (c : comparison) :
  SFcompare x y = Some c -> Num.isNaN x = false /\ Num.isNaN y = false.
Proof.
  destruct x, y; cbn; try discriminate; auto.
Qed.

Lemma lt3_irrefl (k : Z * Z * Z) : ~ lt3 k k.
Proof. destruct k as [[a b] c]. cbn. lia. Qed.

Lemma lt3_asym (k1 k2 : Z * Z * Z) : lt3 k1 k2 -> ~ lt3 k2 k1.
Proof. destruct k1 as [[a b] c], k2 as [[a' b'] c']. cbn. lia. Qed.

Lemma lt3_trans (k1 k2 k3 : Z * Z * Z) : lt3 k1 k2 -> lt3 k2 k3 -> lt3 k1 k3.
Proof.
  destruct k1 as [[a b] c], k2 as [[a' b'] c'], k3 as [[a'' b''] c'']. cbn. lia.
Qed.

Lemma le3_trans (k1 k2 k3 : Z * Z * Z) : le3 k1 k2 -> le3 k2 k3 -> le3 k1 k3.
Proof.
  unfold le3. intros [H1| ->] [H2| ->]; auto. left. eapply lt3_trans; eauto.
Qed.

Lemma le3_lt3_trans (k1 k2 k3 : Z * Z * Z) : le3 k1 k2 -> lt3 k2 k3 -> lt3 k1 k3.
Proof. intros [H1| ->] H2; auto. eapply lt3_trans; eauto. Qed.


Lemma le3_antisym (k1 k2 : Z * Z * Z) : le3 k1 k2 -> le3 k2 k1 -> k1 = k2.
Proof.
  intros [H1| ->] [H2|H2]; auto. destruct (lt3_asym _ _ H1 H2).
Qed.

(** [a <= b] on numbers, read on the keys. *)
Lemma leb_iff (x y : number) :
  Num.leb x y = true <->
  Num.isNaN x = false /\ Num.isNaN y = false /\ le3 (key x) (key y).
Proof.
  unfold Num.leb, SFleb. split.
  - destruct (SFcompare x y) as [c|] eqn:E; [|discriminate].
    destruct (compare_not_nan _ _ _ E) as [Hx Hy].
    destruct (compare_key x y Hx Hy) as [[E' H]|[[E' H]|[E' H]]];
      rewrite E' in E; injection E as <-; try discriminate; intros _;
      repeat split; auto; unfold le3; auto.
  - intros (Hx & Hy & H).
    destruct (compare_key x y Hx Hy) as [[E' H']|[[E' H']|[E' H']]];
      rewrite E'; auto.
    destruct H as [H| H]; [destruct (lt3_asym _ _ H H')|].
    rewrite H in H'. destruct (lt3_irrefl _ H').
Qed.


Lemma eqb_iff (x y : number) :
  Num.eqb x y = true <->
  Num.isNaN x = false /\ Num.isNaN y = false /\ key x = key y.
Proof.
  unfold Num.eqb, SFeqb. split.
  - destruct (SFcompare x y) as [c|] eqn:E; [|discriminate].
    destruct (compare_not_nan _ _ _ E) as [Hx Hy].
    destruct (compare_key x y Hx Hy) as [[E' H]|[[E' H]|[E' H]]];
      rewrite E' in E; injection E as <-; try discriminate; intros _;
      repeat split; auto.
  - intros (Hx & Hy & H).
    destruct (compare_key x y Hx Hy) as [[E' H']|[[E' H']|[E' H']]];
      rewrite E'; auto; rewrite H in H'; destruct (lt3_irrefl _ H').
Qed.

(** Numbers with the same key are the same number, up to the sign of zero. *)
Lemma key_inj (x y : number) :
  Num.isNaN x = false -> Num.isNaN y = false ->
  is_neg_zero x = false -> is_neg_zero y = false ->
  key x = key y -> x = y.
Proof.
  destruct x as [[]|[]| |[] mx ex], y as [[]|[]| |[] my ey]; cbn;
    try discriminate; intros _ _ _ _ H; try reflexivity;
    injection H; intros; f_equal; lia.
Qed.


(** ** The threshold normalizer *)

Lemma max_cases (a b : number) :
  Num.isNaN a = false -> Num.isNaN b = false ->
  (Num.max a b = b /\ le3 (key a) (key b))
  \/ (Num.max a b = a /\ le3 (key b) (key a)).
Proof.
  intros Ha Hb. unfold Num.max, le3.
  destruct (compare_key a b Ha Hb) as [[E H]|[[E H]|[E H]]]; rewrite E; auto.
  destruct a as [[]| | |]; auto.
Qed.

Lemma min_cases (a b : number) :
  Num.isNaN a = false -> Num.isNaN b = false ->
  (Num.min a b = a /\ le3 (key a) (key b))
  \/ (Num.min a b = b /\ le3 (key b) (key a)).
Proof.
  intros Ha Hb. unfold Num.min, le3.
  destruct (compare_key a b Ha Hb) as [[E H]|[[E H]|[E H]]]; rewrite E; auto.
  destruct a as [[]| | |]; auto.
Qed.

(** [Math.max(lo, x)] is [x] itself when [lo <= x], unless [x] is [-0]. *)
Lemma max_fix (lo x : number) :
  Num.isNaN lo = false -> Num.isNaN x = false ->
  le3 (key lo) (key x) -> is_neg_zero x = false ->
  Num.max lo x = x.
Proof.
  intros Hlo Hx Hle Hz. unfold Num.max.
  destruct (compare_key lo x Hlo Hx) as [[E H]|[[E H]|[E H]]]; rewrite E.
  - reflexivity.
  - destruct (is_neg_zero lo) eqn:Hl.
    + destruct lo as [[]| | |]; try discriminate. reflexivity.
    + rewrite (key_inj lo x) by assumption.
      destruct x as [[]| | |]; try discriminate; reflexivity.
  - destruct Hle as [Hle|Hle].
    + destruct (lt3_asym _ _ H Hle).
    + rewrite Hle in H. destruct (lt3_irrefl _ H).
Qed.

(** [Math.min(hi, x)] is [x] itself when [x <= hi], unless a [-0] is involved. *)
Lemma min_fix (hi x : number) :
  Num.isNaN hi = false -> Num.isNaN x = false ->
  le3 (key x) (key hi) -> is_neg_zero hi = false -> is_neg_zero x = false ->
  Num.min hi x = x.
Proof.
  intros Hhi Hx Hle Hzh Hz. unfold Num.min.
  destruct (compare_key hi x Hhi Hx) as [[E H]|[[E H]|[E H]]]; rewrite E.
  - destruct Hle as [Hle|Hle].
    + destruct (lt3_asym _ _ H Hle).
    + rewrite Hle in H. destruct (lt3_irrefl _ H).
  - rewrite (key_inj hi x) by assumption.
    destruct x as [[]| | |]; try discriminate; reflexivity.
  - reflexivity.
Qed.

Lemma isFinite_not_nan (x : number) : Num.isFinite x = true -> Num.isNaN x = false.
Proof. destruct x; cbn; congruence. Qed.

Lemma or_default_finite (dflt x : number) :
  Num.isFinite dflt = true -> Num.isFinite (or_default dflt x) = true.
Proof. unfold or_default. destruct (Num.isFinite x) eqn:E; auto. Qed.

(** Between two finite numbers (in the order of the keys) only finite
    numbers lie. *)
Lemma between_finite (lo hi x : number) :
  Num.isFinite lo = true -> Num.isFinite hi = true -> Num.isNaN x = false ->
  le3 (key lo) (key x) -> le3 (key x) (key hi) -> Num.isFinite x = true.
Proof.
  intros Hlo Hhi Hx [H1|H1] [H2|H2];
    destruct lo as [| | |[]], hi as [| | |[]], x as [|[]| |[]];
    cbn in *; try discriminate; try reflexivity;
    try lia; try (injection H1; lia); try (injection H2; lia).
Qed.

Lemma key_hundred : key hundred = (1, -46, 7036874417766400).
Proof. reflexivity. Qed.

Lemma key_zero : key Num.zero = (0, 0, 0).
Proof. reflexivity. Qed.

Lemma ltb_cases (x y : number) :
  Num.isNaN x = false -> Num.isNaN y = false ->
  (Num.ltb x y = true /\ lt3 (key x) (key y))
  \/ (Num.ltb x y = false /\ le3 (key y) (key x)).
Proof.
  intros Hx Hy. unfold Num.ltb, SFltb, le3.
  destruct (compare_key x y Hx Hy) as [[E H]|[[E H]|[E H]]]; rewrite E; auto.
Qed.

Lemma le3_alt (k1 k2 : Z * Z * Z) :
  le3 k1 k2 <->
  (fst (fst k1) < fst (fst k2)
   \/ (fst (fst k1) = fst (fst k2)
       /\ (snd (fst k1) < snd (fst k2)
           \/ (snd (fst k1) = snd (fst k2) /\ snd k1 <= snd k2)))).
Proof.
  destruct k1 as [[a b] c], k2 as [[a' b'] c']. unfold le3. cbn. split.
  - intros [H|H]; [lia|]. injection H. lia.
  - intros H.
    destruct (Z.eq_dec a a'), (Z.eq_dec b b'), (Z.eq_dec c c'); subst; auto; left; lia.
Qed.

Lemma lt3_alt (k1 k2 : Z * Z * Z) :
  lt3 k1 k2 <->
  (fst (fst k1) < fst (fst k2)
   \/ (fst (fst k1) = fst (fst k2)
       /\ (snd (fst k1) < snd (fst k2)
           \/ (snd (fst k1) = snd (fst k2) /\ snd k1 < snd k2)))).
Proof.
  destruct k1 as [[a b] c], k2 as [[a' b'] c']. cbn. tauto.
Qed.

Lemma eq3_alt (k1 k2 : Z * Z * Z) :
  k1 = k2 <->
  fst (fst k1) = fst (fst k2) /\ snd (fst k1) = snd (fst k2) /\ snd k1 = snd k2.
Proof.
  destruct k1 as [[a b] c], k2 as [[a' b'] c']. cbn. split.
  - intros H. injection H. auto.
  - intros (-> & -> & ->). reflexivity.
Qed.

(** Goals about the order of keys are goals of linear arithmetic. *)
Ltac order3 :=
  rewrite ?key_zero, ?key_hundred in *;
  repeat match goal with
  | H : le3 _ _ |- _ => apply le3_alt in H
  | H : lt3 _ _ |- _ => apply lt3_alt in H
  | H : @eq (Z * Z * Z) _ _ |- _ => apply eq3_alt in H
  end;
  rewrite ?le3_alt, ?lt3_alt, ?eq3_alt;
  cbn [fst snd] in *; lia.

(** The facts about one clamping step [Math.max(lo, Math.min(100, x))] that
    the normalizer relies on. *)
Lemma clamp_step (lo x : number) :
  Num.isFinite lo = true -> Num.isFinite x = true ->
  is_neg_zero lo = false ->
  le3 (key Num.zero) (key lo) -> le3 (key lo) (key hundred) ->
  let y := Num.max lo (Num.min hundred x) in
  Num.isFinite y = true /\ is_neg_zero y = false
  /\ le3 (key lo) (key y) /\ le3 (key y) (key hundred)
  /\ Num.eqb y (clamp lo hundred x) = true.
Proof.
  intros Hlo Hx Hz H0 H100 y.
  pose proof (isFinite_not_nan _ Hlo) as Nlo.
  pose proof (isFinite_not_nan _ Hx) as Nx.
  assert (Nh : Num.isNaN hundred = false) by reflexivity.
  assert (Ny : Num.isNaN (Num.min hundred x) = false).
  { destruct (min_cases hundred x Nh Nx) as [[E _]|[E _]]; rewrite E; auto. }
  assert (Hyl : le3 (key lo) (key y)).
  { subst y. destruct (max_cases lo _ Nlo Ny) as [[E H]|[E H]]; rewrite E; auto.
    right; reflexivity. }
  assert (Hyh : le3 (key y) (key hundred)).
  { subst y. destruct (max_cases lo _ Nlo Ny) as [[E H]|[E H]]; rewrite E; auto.
    destruct (min_cases hundred x Nh Nx) as [[E' H']|[E' H']]; rewrite E'; auto.
    right; reflexivity. }
  assert (Nyy : Num.isNaN y = false).
  { subst y. destruct (max_cases lo _ Nlo Ny) as [[E _]|[E _]]; rewrite E; auto. }
  assert (Hyz : is_neg_zero y = false).
  { subst y. unfold Num.max.
    destruct (compare_key lo _ Nlo Ny) as [[E H]|[[E H]|[E H]]]; rewrite E; auto.
    - pose proof (le3_lt3_trans _ _ _ H0 H) as H1. rewrite key_zero in H1.
      destruct (Num.min hundred x) as [[]| | |]; auto. cbn in H1. lia.
    - destruct lo as [[]| | |]; auto. discriminate. }
  repeat split; auto.
  - eapply between_finite with (lo := lo) (hi := hundred); auto.
  - apply eqb_iff. unfold clamp.
    assert (Hc : Num.isNaN (if Num.ltb x lo then lo
                            else if Num.ltb hundred x then hundred else x) = false).
    { destruct (Num.ltb x lo); auto. destruct (Num.ltb hundred x); auto. }
    repeat split; auto.
    subst y. clear Hyl Hyh Nyy Hyz Hc.
    destruct (ltb_cases x lo Nx Nlo) as [[L1 K1]|[L1 K1]]; rewrite L1;
      [|destruct (ltb_cases hundred x Nh Nx) as [[L2 K2]|[L2 K2]]; rewrite L2];
      destruct (min_cases hundred x Nh Nx) as [[E' H']|[E' H']]; rewrite E' in *;
      match goal with
      | |- key (Num.max ?u ?v) = _ =>
          destruct (max_cases u v) as [[E H]|[E H]]; auto; rewrite E
      end;
      order3.
Qed.

(** A clamping step leaves a number of the interval unchanged. *)
Lemma clamp_step_fix (lo x : number) :
  Num.isFinite lo = true -> Num.isFinite x = true ->
  is_neg_zero x = false ->
  le3 (key lo) (key x) -> le3 (key x) (key hundred) ->
  Num.max lo (Num.min hundred x) = x.
Proof.
  intros Hlo Hx Hz H1 H2.
  rewrite min_fix; auto using isFinite_not_nan.
  apply max_fix; auto using isFinite_not_nan.
Qed.

(** The normalized thresholds are finite, none is [-0], and they are
    ordered between 0 and 100. *)
Lemma coerceThresholds_range (a b c : number) :
  let t := App.coerceThresholds a b c in
  (Num.isFinite (App.p t) = true /\ is_neg_zero (App.p t) = false)
  /\ (Num.isFinite (App.m t) = true /\ is_neg_zero (App.m t) = false)
  /\ (Num.isFinite (App.d t) = true /\ is_neg_zero (App.d t) = false)
  /\ le3 (key Num.zero) (key (App.p t)) /\ le3 (key (App.p t)) (key (App.m t))
  /\ le3 (key (App.m t)) (key (App.d t)) /\ le3 (key (App.d t)) (key hundred).
Proof.
  intros t. subst t. unfold App.coerceThresholds. cbn [App.p App.m App.d].
  fold hundred. fold (or_default (Num.of_Z 40) a).
  fold (or_default (Num.of_Z 60) b). fold (or_default (Num.of_Z 70) c).
  set (a' := or_default (Num.of_Z 40) a).
  set (b' := or_default (Num.of_Z 60) b).
  set (c' := or_default (Num.of_Z 70) c).
  assert (Fa : Num.isFinite a' = true) by (apply or_default_finite; reflexivity).
  assert (Fb : Num.isFinite b' = true) by (apply or_default_finite; reflexivity).
  assert (Fc : Num.isFinite c' = true) by (apply or_default_finite; reflexivity).
  destruct (clamp_step Num.zero a') as (Fp & Zp & Lp & Hp & _); auto;
    try reflexivity; try (right; reflexivity); try (left; cbn; lia).
  set (p1 := Num.max Num.zero (Num.min hundred a')) in *.
  destruct (clamp_step p1 b') as (Fm & Zm & Lm & Hm & _); auto.
  set (m1 := Num.max p1 (Num.min hundred b')) in *.
  destruct (clamp_step m1 c') as (Fd & Zd & Ld & Hd & _); auto.
  { eapply le3_trans; eauto. }
  repeat split; auto.
Qed.

(** What the normalizer does to any three numbers: each output is [===] to
    the clamped input, the outputs are ordered, and normalizing them again
    changes nothing. *)
Lemma coerceThresholds_clamps (a b c : number) :
  let t := App.coerceThresholds a b c in
  Num.eqb (App.p t) (clamp Num.zero hundred (or_default (Num.of_Z 40) a)) = true
  /\ Num.eqb (App.m t) (clamp (App.p t) hundred (or_default (Num.of_Z 60) b)) = true
  /\ Num.eqb (App.d t) (clamp (App.m t) hundred (or_default (Num.of_Z 70) c)) = true
  /\ ordered t
  /\ App.coerceThresholds (App.p t) (App.m t) (App.d t) = t.
Proof.
  intros t.
  pose proof (coerceThresholds_range a b c) as R. fold t in R.
  destruct R as ((Fp & Zp) & (Fm & Zm) & (Fd & Zd) & L0 & L1 & L2 & L3).
  assert (Fa : Num.isFinite (or_default (Num.of_Z 40) a) = true)
    by (apply or_default_finite; reflexivity).
  assert (Fb : Num.isFinite (or_default (Num.of_Z 60) b) = true)
    by (apply or_default_finite; reflexivity).
  assert (Fc : Num.isFinite (or_default (Num.of_Z 70) c) = true)
    by (apply or_default_finite; reflexivity).
  assert (Lph : le3 (key (App.p t)) (key hundred))
    by (eapply le3_trans; [exact L1|eapply le3_trans; eauto]).
  assert (Lmh : le3 (key (App.m t)) (key hundred)) by (eapply le3_trans; eauto).
  split; [|split; [|split; [|split]]].
  - apply (clamp_step Num.zero (or_default (Num.of_Z 40) a)); auto;
      try reflexivity; try (right; reflexivity); left; cbn; lia.
  - apply (clamp_step (App.p t) (or_default (Num.of_Z 60) b)); auto.
  - apply (clamp_step (App.m t) (or_default (Num.of_Z 70) c)); auto.
    eapply le3_trans; eauto.
  - unfold ordered. repeat split; apply leb_iff;
      repeat split; auto using isFinite_not_nan.
  - unfold App.coerceThresholds at 1. rewrite Fp, Fm, Fd. fold hundred.
    rewrite (clamp_step_fix Num.zero (App.p t)); auto.
    rewrite (clamp_step_fix (App.p t) (App.m t)); auto.
    rewrite (clamp_step_fix (App.m t) (App.d t)); auto.
Qed.

(** On finite thresholds that are already ordered between 0 and 100 the
    normalizer returns the same three numbers (as compared by [===]). *)
Lemma coerceThresholds_ordered_input (a b c : number) :
  Num.isFinite a = true -> Num.isFinite b = true -> Num.isFinite c = true ->
  ordered {| App.p := a; App.m := b; App.d := c |} ->
  let t := App.coerceThresholds a b c in
  Num.eqb (App.p t) a = true /\ Num.eqb (App.m t) b = true /\ Num.eqb (App.d t) c = true.
Proof.
  intros Fa Fb Fc (O0 & O1 & O2 & O3) t. cbn [App.p App.m App.d] in *.
  destruct (coerceThresholds_clamps a b c) as (Cp & Cm & Cd & _).
  fold t in Cp, Cm, Cd.
  unfold or_default in *. rewrite Fa in Cp. rewrite Fb in Cm. rewrite Fc in Cd.
  apply leb_iff in O0, O1, O2, O3.
  destruct O0 as (_ & Na & O0), O1 as (_ & Nb & O1), O2 as (_ & Nc & O2),
           O3 as (_ & Nh & O3).
  assert (Nz : Num.isNaN Num.zero = false) by reflexivity.
  assert (Ep : Num.eqb (App.p t) a = true).
  { unfold clamp in Cp.
    destruct (ltb_cases a Num.zero Na Nz) as [[L K]|[L K]]; rewrite L in Cp;
      [exfalso; order3|].
    destruct (ltb_cases hundred a Nh Na) as [[L' K']|[L' K']]; rewrite L' in Cp;
      [exfalso; order3|]. exact Cp. }
  pose proof Ep as Kp. apply eqb_iff in Kp. destruct Kp as (Np & _ & Kp).
  assert (Em : Num.eqb (App.m t) b = true).
  { unfold clamp in Cm.
    destruct (ltb_cases b (App.p t) Nb Np) as [[L K]|[L K]]; rewrite L in Cm;
      [exfalso; order3|].
    destruct (ltb_cases hundred b Nh Nb) as [[L' K']|[L' K']]; rewrite L' in Cm;
      [exfalso; order3|]. exact Cm. }
  pose proof Em as Km. apply eqb_iff in Km. destruct Km as (Nm & _ & Km).
  repeat split; auto.
  unfold clamp in Cd.
  destruct (ltb_cases c (App.m t) Nc Nm) as [[L K]|[L K]]; rewrite L in Cd;
    [exfalso; order3|].
  destruct (ltb_cases hundred c Nh Nc) as [[L' K']|[L' K']]; rewrite L' in Cd;
    [exfalso; order3|]. exact Cd.
Qed.

Example coerceThresholds_defaults :
  App.coerceThresholds Num.NaN Num.Infinity Num.NegInfinity
  = {| App.p := Num.of_Z 40; App.m := Num.of_Z 60; App.d := Num.of_Z 70 |}.
Proof. vm_compute. reflexivity. Qed.

Example coerceThresholds_inverted :
  App.coerceThresholds (Num.of_Z 80) (Num.of_Z 60) (Num.of_Z 150)
  = {| App.p := Num.of_Z 80; App.m := Num.of_Z 80; App.d := Num.of_Z 100 |}.
Proof. vm_compute. reflexivity. Qed.

(** C3: for every triple of numbers, finite or not, the normalizer replaces
    the non-finite inputs by 40, 60 and 70, clamps passing to [0,100], merit
    to [passing,100] and distinction to [merit,100], yields
    [0 <= passing <= merit <= distinction <= 100], and is idempotent: applied
    to its own result it returns that result, and applied to any finite
    triple that is already ordered between 0 and 100 it returns the same
    three numbers. *)
Theorem coerceThresholds_normalizes (a b c : number) :
  let t := App.coerceThresholds a b c in
  Num.eqb (App.p t) (clamp Num.zero hundred (or_default (Num.of_Z 40) a)) = true
  /\ Num.eqb (App.m t) (clamp (App.p t) hundred (or_default (Num.of_Z 60) b)) = true
  /\ Num.eqb (App.d t) (clamp (App.m t) hundred (or_default (Num.of_Z 70) c)) = true
  /\ (Num.leb Num.zero (App.p t) = true
      /\ Num.leb (App.p t) (App.m t) = true
      /\ Num.leb (App.m t) (App.d t) = true
      /\ Num.leb (App.d t) (Num.of_Z 100) = true)
  /\ App.coerceThresholds (App.p t) (App.m t) (App.d t) = t
  /\ (Num.isFinite a = true -> Num.isFinite b = true -> Num.isFinite c = true ->
      Num.leb Num.zero a = true -> Num.leb a b = true ->
      Num.leb b c = true -> Num.leb c (Num.of_Z 100) = true ->
      Num.eqb (App.p t) a = true /\ Num.eqb (App.m t) b = true
      /\ Num.eqb (App.d t) c = true).
Proof.
  intros t.
  destruct (coerceThresholds_clamps a b c) as (H1 & H2 & H3 & H4 & H5).
  repeat split; try assumption; try apply H4.
  - apply (coerceThresholds_ordered_input a b c); auto. repeat split; assumption.
  - apply (coerceThresholds_ordered_input a b c); auto. repeat split; assumption.
  - apply (coerceThresholds_ordered_input a b c); auto. repeat split; assumption.
Qed.

Lemma coerceThresholds_normalizes_witness :
  let t := App.coerceThresholds (Num.of_Z 40) (Num.of_Z 60) (Num.of_Z 70) in
  Num.eqb (App.p t) (Num.of_Z 40) = true
  /\ Num.eqb (App.m t) (Num.of_Z 60) = true
  /\ Num.eqb (App.d t) (Num.of_Z 70) = true.
Proof.
  intros t.
  apply (coerceThresholds_normalizes (Num.of_Z 40) (Num.of_Z 60) (Num.of_Z 70));
    reflexivity.
Defined.

(** ** The worked example *)

(** C1, as stated, fails: on the grades 35, 45, 65, 75 with thresholds
    40/60/70 the overall summary does not carry all of N=4, passCount=3,
    failCount=1, meritCount=1, distCount=1, the three band counts 1, the fixed
    passing rate 75.0, mean 55.00, sd 16.20, max 75 and min 35: the population
    standard deviation of these grades is the square root of 250. *)
Lemma example_sd_is_not_16_20 :
  let o := App.overall example_thresholds example_rows in
  ~ (App.N o = 4%nat /\ App.PassingCount o = 3%nat /\ App.FailedCount o = 1%nat
     /\ App.MeritRate o = rate 1 4 /\ App.DistinctionRate o = rate 1 4
     /\ App.PassBandCount o = 1%nat /\ App.MeritBandCount o = 1%nat
     /\ App.DistinctionBandCount o = 1%nat
     /\ App.OverallPassingRateFixed o = "75.0"
     /\ App.Mean o = "55.00" /\ App.SD o = "16.20"
     /\ App.Max o = Num.of_Z 75 /\ App.Min o = Num.of_Z 35).
Proof.
  intros o H.
  assert (Hsd : App.SD o = "16.20") by tauto.
  vm_compute in Hsd. discriminate Hsd.
Qed.

Lemma insert_everywhere_In {A : Type} (x : A) (l1 l2 : list A) :
  In (l1 ++ x :: l2)%list (insert_everywhere x (l1 ++ l2)%list).
Proof.
  induction l1 as [|y l1 IH]; cbn.
  - destruct l2; cbn; auto.
  - right. apply in_map. exact IH.
Qed.

Lemma orders_complete {A : Type} (l' : list A) : forall l,
  Permutation l l' -> In l (orders l').
Proof.
  induction l' as [|x l' IH]; intros l P.
  - apply Permutation_sym, Permutation_nil in P. subst. now left.
  - assert (I : In x l) by (eapply Permutation_in; [symmetry; exact P|now left]).
    apply in_split in I. destruct I as (l1 & l2 & ->).
    apply Permutation_sym, Permutation_cons_app_inv, Permutation_sym in P.
    cbn [orders]. apply in_flat_map. exists (l1 ++ l2)%list.
    split; [now apply IH|apply insert_everywhere_In].
Qed.

(** C1, amended: in whatever order the grades 35, 45, 65, 75 come and
    whatever the group labels, thresholds 40/60/70 give N=4, passCount=3,
    failCount=1, one merit and one distinction (rates 25.0), band counts
    1/1/1, fixed passing rate 75.0, mean 55.00, population sd 15.81, max 75
    and min 35. *)
Theorem example_overall_summary :
  forall rows : list Row,
    Permutation (map grade rows) example_grades ->
    App.overall example_thresholds rows = example_summary.
Proof.
  intros rows P.
  pose proof (Permutation_length P) as L. rewrite length_map in L.
  apply orders_complete in P.
  destruct rows as [|[g1 l1] [|[g2 l2] [|[g3 l3] [|[g4 l4] [|r rows]]]]];
    try discriminate L.
  cbn [map grade] in P. vm_compute in P.
  repeat (destruct P as [P|P];
          [injection P as <- <- <- <-; vm_compute; reflexivity|]).
  destruct P.
Qed.

Lemma example_overall_summary_witness :
  Permutation (map grade example_rows) example_grades
  /\ App.overall example_thresholds example_rows = example_summary.
Proof.
  split; [apply Permutation_refl|].
  apply (example_overall_summary example_rows). apply Permutation_refl.
Defined.

(** The same through the handler, with the grades spread over two groups. *)
Example example_report :
  exists st',
    App.generateReport true (loaded example_data) = (st', [], Completed)
    /\ App.overallSummary st' = [example_summary]
    /\ map App.Group (App.groupSummary st') = ["A"; "B"]
    /\ map (fun g => App.N (App.summary g)) (App.groupSummary st') = [2%nat; 2%nat].
Proof.
  eexists. split; [vm_compute; reflexivity|].
  repeat split.
Qed.

(** Two grades 50 in one group: mean 50.00 and sd 0.00. *)
Example example_equal_grades :
  let o := App.summarize example_thresholds [Num.of_Z 50; Num.of_Z 50] in
  App.Mean o = "50.00" /\ App.SD o = "0.00".
Proof. split; vm_compute; reflexivity. Qed.

(** ** Number coercion *)

Lemma parseNumber_number (n : number) : parseNumber (VNumber n) = n.
Proof. reflexivity. Qed.

Lemma parseNumber_null : parseNumber VNull = Num.NaN /\ parseNumber VUndefined = Num.NaN.
Proof. split; reflexivity. Qed.

(** A string is read after trimming and dropping commas and percent signs. *)
Lemma parseNumber_string (s : string) :
  parseNumber (VString s) =
  let v := parseFloat (Str.remove_all "%" (Str.remove_all "," (Str.trim s))) in
  if Num.isFinite v then v else Num.NaN.
Proof. reflexivity. Qed.

(** Whatever is not a number literal coerces to a finite number or to NaN. *)
Lemma parseNumber_finite_or_NaN (x : value) :
  (forall n, x <> VNumber n) ->
  Num.isFinite (parseNumber x) = true \/ parseNumber x = Num.NaN.
Proof.
  intros Hx. destruct x as [| |n|s|b]; cbn [parseNumber]; auto.
  - destruct (Hx n eq_refl).
  - destruct (Num.isFinite (parseFloat _)) eqn:E; auto.
  - destruct (Num.isFinite (parseFloat _)) eqn:E; auto.
Qed.

Example parseNumber_percent : parseNumber (VString "85%") = Num.of_Z 85.
Proof. vm_compute. reflexivity. Qed.

Example parseNumber_not_available : parseNumber (VString "N/A") = Num.NaN.
Proof. vm_compute. reflexivity. Qed.

Example parseNumber_thousands : parseNumber (VString " 1,234.5 ") = Num.of_decimal false 12345 (-1).
Proof. vm_compute. reflexivity. Qed.

Example parseNumber_Infinity_string : parseNumber (VString "Infinity") = Num.NaN.
Proof. vm_compute. reflexivity. Qed.

Example prepare_rows_example :
  prepare_rows "Grade" "Group"
    [cell_row (VString "85%") "A"; cell_row (VString "N/A") "A"; cell_row VNull "B"]
  = [{| grade := Num.of_Z 85; group := "A" |}].
Proof. vm_compute. reflexivity. Qed.

(** No prepared row has a NaN grade. *)
Lemma prepare_rows_not_NaN (gradeCol groupCol : string) (data : list RawRow) :
  Forall (fun r => Num.isNaN (grade r) = false) (prepare_rows gradeCol groupCol data).
Proof.
  unfold prepare_rows. apply Forall_forall. intros r Hr.
  apply filter_In in Hr. destruct Hr as [_ Hr].
  now apply negb_true_iff in Hr.
Qed.

(** If no grade cell holds a non-finite number literal, every prepared row
    has a finite grade. *)
Lemma prepare_rows_finite (gradeCol groupCol : string) (data : list RawRow) :
  (forall r n, In r data -> get r gradeCol = VNumber n ->
               Num.isFinite n = true \/ n = Num.NaN) ->
  Forall (fun r => Num.isFinite (grade r) = true) (prepare_rows gradeCol groupCol data).
Proof.
  intros H. unfold prepare_rows. apply Forall_forall. intros r Hr.
  apply filter_In in Hr. destruct Hr as [Hin Hr].
  apply in_map_iff in Hin. destruct Hin as (raw & <- & Hraw).
  cbn [coerce_row grade] in *.
  apply negb_true_iff in Hr.
  destruct (get raw gradeCol) as [| |n|s|b] eqn:E.
  - discriminate Hr.
  - discriminate Hr.
  - destruct (H raw n Hraw E) as [F|F]; auto.
    subst n. discriminate Hr.
  - destruct (parseNumber_finite_or_NaN (VString s)) as [F|F]; auto; try congruence.
    rewrite F in Hr. discriminate Hr.
  - destruct (parseNumber_finite_or_NaN (VBoolean b)) as [F|F]; auto; try congruence.
    rewrite F in Hr. discriminate Hr.
Qed.

(** All rows coerce to NaN exactly when no row is prepared. *)
Lemma prepare_rows_nil (gradeCol groupCol : string) (data : list RawRow) :
  prepare_rows gradeCol groupCol data = [] <-> all_NaN gradeCol data.
Proof.
  unfold prepare_rows, all_NaN. induction data as [|r data IH]; cbn [map filter].
  - split; auto.
  - cbn [coerce_row grade].
    destruct (Num.isNaN (parseNumber (get r gradeCol))) eqn:E; cbn [negb].
    + rewrite IH. split; intros H.
      * constructor; auto. destruct (parseNumber (get r gradeCol)); try discriminate E.
        reflexivity.
      * now inversion H.
    + split; intros H; [discriminate H|].
      inversion H as [|? ? H1 H2]; subst. rewrite H1 in E. discriminate E.
Qed.

(** C2 at its failing input: a grade cell holding the number [Infinity] is
    taken as it is, passes the NaN filter, and enters aggregation although it
    is not finite. *)
Theorem infinite_grade_enters_aggregation :
  prepare_rows "Grade" "Group" [infinite_row]
  = [{| grade := Num.Infinity; group := "A" |}]
  /\ Num.isFinite Num.Infinity = false.
Proof. split; reflexivity. Qed.

(** ** Guards and error paths of [generateReport] *)

(** Whenever the handler returns from a guard, the summaries and the
    report flag are those of the state it started from. *)
Lemma generateReport_aborted (answer : bool) (st st' : App.State) (evs : list event) :
  App.generateReport answer st = (st', evs, Aborted) ->
  App.overallSummary st' = App.overallSummary st
  /\ App.groupSummary st' = App.groupSummary st
  /\ App.reportGenerated st' = App.reportGenerated st.
Proof.
  unfold App.generateReport.
  destruct (App.data st) as [|r0 data0]; [intros H; injection H as <- _; auto|].
  destruct (String.eqb (App.gradeCol st) ""); [intros H; injection H as <- _; auto|].
  destruct (String.eqb (App.groupCol st) ""); [intros H; injection H as <- _; auto|].
  destruct (String.eqb (Str.trim (App.title st)) "" && negb answer);
    [intros H; injection H as <- _; auto|].
  destruct (prepare_rows _ _ _) as [|r rows].
  - intros H. injection H as <- _.
    destruct (String.eqb (Str.trim (App.title st)) ""); auto.
  - destruct (add_rows [] (r :: rows)); discriminate.
Qed.

(** With data loaded, both columns selected and the title settled, rows that
    all coerce to NaN make the handler report that there are no numeric
    grades and return. *)
Lemma generateReport_empty_result (answer : bool) (st : App.State) :
  App.data st <> [] ->
  App.gradeCol st <> "" -> App.groupCol st <> "" ->
  (Str.trim (App.title st) <> "" \/ answer = true) ->
  all_NaN (App.gradeCol st) (App.data st) ->
  exists st' evs,
    App.generateReport answer st
    = (st', (evs ++ [Alert "No numeric grades found in selected Grade column."])%list, Aborted)
    /\ App.overallSummary st' = App.overallSummary st
    /\ App.groupSummary st' = App.groupSummary st
    /\ App.reportGenerated st' = App.reportGenerated st.
Proof.
  intros Hd Hg Hc Ht Hn.
  unfold App.generateReport.
  destruct (App.data st) as [|r0 data0] eqn:Ed; [congruence|].
  apply String.eqb_neq in Hg, Hc. rewrite Hg, Hc.
  assert (E : String.eqb (Str.trim (App.title st)) "" && negb answer = false).
  { destruct Ht as [Ht| ->].
    - apply String.eqb_neq in Ht. now rewrite Ht.
    - apply andb_false_r. }
  rewrite E.
  apply (prepare_rows_nil _ (App.groupCol st)) in Hn. rewrite Hn.
  eexists. eexists. split; [reflexivity|].
  destruct (String.eqb (Str.trim (App.title st)) ""); auto.
Qed.

(** C4 at its failing input: with the single grade [Infinity] no row has a
    finite grade, yet the handler does not stop with the "no numeric grades"
    report; it runs to the end and stores a summary whose mean is printed
    as Infinity and whose standard deviation as NaN. *)
Theorem infinite_grade_summarized :
  exists st' o g,
    App.generateReport true (loaded [infinite_row]) = (st', [], Completed)
    /\ App.overallSummary st' = [o] /\ App.groupSummary st' = [g]
    /\ App.N o = 1%nat /\ App.Mean o = "Infinity" /\ App.SD o = "NaN"
    /\ Forall (fun r => Num.isFinite (grade r) = false)
              (prepare_rows "Grade" "Group" [infinite_row]).
Proof.
  do 3 eexists. split; [vm_compute; reflexivity|].
  cbn [App.overallSummary App.groupSummary].
  repeat split. repeat constructor.
Qed.

(** ** Thresholds do not reach the fixed bands *)

Lemma fixed_fields_overall (t1 t2 : App.Thresholds) (rows : list Row) :
  fixed_fields (App.overall t1 rows) = fixed_fields (App.overall t2 rows).
Proof. reflexivity. Qed.

Lemma fixed_fields_summarize (t1 t2 : App.Thresholds) (grades : list number) :
  fixed_fields (App.summarize t1 grades) = fixed_fields (App.summarize t2 grades).
Proof. reflexivity. Qed.

Lemma fixed_fields_groups (t1 t2 : App.Thresholds) (g : Groups) :
  map (fun s => (App.Group s, fixed_fields (App.summary s))) (App.group_summaries t1 g)
  = map (fun s => (App.Group s, fixed_fields (App.summary s))) (App.group_summaries t2 g).
Proof.
  unfold App.group_summaries. rewrite !map_map. apply map_ext. intros k.
  cbn [App.Group App.summary]. now rewrite (fixed_fields_summarize t1 t2).
Qed.

(** C8: for every state and every two threshold triples, running the report
    with one or the other gives the same dialogs, ends the same way, and
    stores summaries with the same N, fixed passing rate (>= 40), Pass (40-59),
    Merit (60-69) and Distinction (>= 70) counts, mean, sd, max and min, overall
    and for every group. *)
Theorem fixed_bands_ignore_thresholds
  (answer : bool) (st : App.State) (a b c a' b' c' : number) :
  let r1 := App.generateReport answer (App.setThresholds a b c st) in
  let r2 := App.generateReport answer (App.setThresholds a' b' c' st) in
  fixed_view (fst (fst r1)) = fixed_view (fst (fst r2))
  /\ snd (fst r1) = snd (fst r2)
  /\ snd r1 = snd r2.
Proof.
  unfold App.generateReport, App.setThresholds.
  cbn [App.data App.gradeCol App.groupCol App.title App.passing App.merit App.distinction].
  destruct (App.data st) as [|r0 data0]; [repeat split|].
  destruct (String.eqb (App.gradeCol st) ""); [repeat split|].
  destruct (String.eqb (App.groupCol st) ""); [repeat split|].
  destruct (String.eqb (Str.trim (App.title st)) ""), answer; cbn [andb negb];
    try (repeat split; fail);
    (destruct (prepare_rows _ _ _) as [|r rows]; [repeat split|];
     destruct (add_rows [] (r :: rows)) as [g|]; cbn [fst snd];
     unfold fixed_view;
     cbn [App.overallSummary App.groupSummary App.setReportGenerated
            App.setGroupSummary App.setOverallSummary App.setTitle map];
     repeat split;
     rewrite ?(fixed_fields_groups
                 (App.coerceThresholds a b c) (App.coerceThresholds a' b' c'));
     reflexivity).
Qed.

(** ** The two variants on normalized thresholds *)

(** Numbers that are [===] compare alike with every number. *)
Lemma compare_eqb_r (g x y : number) :
  Num.eqb x y = true -> SFcompare g x = SFcompare g y.
Proof.
  intros H. apply eqb_iff in H. destruct H as (Nx & Ny & K).
  destruct (Num.isNaN g) eqn:Ng.
  - destruct g; try discriminate Ng. reflexivity.
  - destruct (compare_key g x Ng Nx) as [[E H]|[[E H]|[E H]]];
      destruct (compare_key g y Ng Ny) as [[E' H']|[[E' H']|[E' H']]];
      rewrite E, E'; try reflexivity; exfalso; order3.
Qed.

Lemma compare_eqb_l (g x y : number) :
  Num.eqb x y = true -> SFcompare x g = SFcompare y g.
Proof.
  intros H. apply eqb_iff in H. destruct H as (Nx & Ny & K).
  destruct (Num.isNaN g) eqn:Ng.
  - destruct g; try discriminate Ng. now rewrite !compare_nan_r.
  - destruct (compare_key x g Nx Ng) as [[E H]|[[E H]|[E H]]];
      destruct (compare_key y g Ny Ng) as [[E' H']|[[E' H']|[E' H']]];
      rewrite E, E'; try reflexivity; exfalso; order3.
Qed.

Lemma geb_eqb (g x y : number) : Num.eqb x y = true -> Num.geb g x = Num.geb g y.
Proof. intros H. unfold Num.geb, SFleb. now rewrite (compare_eqb_l g x y H). Qed.

Lemma ltb_eqb (g x y : number) : Num.eqb x y = true -> Num.ltb g x = Num.ltb g y.
Proof. intros H. unfold Num.ltb, SFltb. now rewrite (compare_eqb_r g x y H). Qed.

Lemma count_rows_ext (f g : Row -> bool) (rows : list Row) :
  (forall r, f r = g r) -> App.count_rows f rows = App.count_rows g rows.
Proof. intros H. unfold App.count_rows. now rewrite (filter_ext f g H). Qed.

(** C10: for every row set and every finite threshold triple with
    [0 <= passing <= merit <= distinction <= 100], the overall record of
    [App.js], restricted to the fields both variants have, is the overall
    record of the earlier variant: the same N, passing and failed counts,
    rates, mean, sd, max and min; the merit and distinction counts behind
    the rates agree as well. *)
Theorem variants_agree_on_ordered_thresholds
  (rows : list Row) (a b c : number) :
  Num.isFinite a = true -> Num.isFinite b = true -> Num.isFinite c = true ->
  ordered {| App.p := a; App.m := b; App.d := c |} ->
  let t := App.coerceThresholds a b c in
  common (App.overall t rows) = Part000.overall a b c rows
  /\ App.count_rows (fun r => Num.geb (grade r) (App.m t) && Num.ltb (grade r) (App.d t)) rows
     = Part000.count_rows (fun r => Num.geb (grade r) b && Num.ltb (grade r) c) rows
  /\ App.count_rows (fun r => Num.geb (grade r) (App.d t)) rows
     = Part000.count_rows (fun r => Num.geb (grade r) c) rows.
Proof.
  intros Fa Fb Fc O t.
  destruct (coerceThresholds_ordered_input a b c Fa Fb Fc O) as (Ep & Em & Ed).
  fold t in Ep, Em, Ed.
  assert (Cp : App.count_rows (fun r => Num.geb (grade r) (App.p t)) rows
               = Part000.count_rows (fun r => Num.geb (grade r) a) rows).
  { apply count_rows_ext. intros r. now apply geb_eqb. }
  assert (Cm : App.count_rows
                 (fun r => Num.geb (grade r) (App.m t) && Num.ltb (grade r) (App.d t)) rows
               = Part000.count_rows
                   (fun r => Num.geb (grade r) b && Num.ltb (grade r) c) rows).
  { apply count_rows_ext. intros r.
    now rewrite (geb_eqb _ _ _ Em), (ltb_eqb _ _ _ Ed). }
  assert (Cd : App.count_rows (fun r => Num.geb (grade r) (App.d t)) rows
               = Part000.count_rows (fun r => Num.geb (grade r) c) rows).
  { apply count_rows_ext. intros r. now apply geb_eqb. }
  repeat split; auto.
  unfold common, App.overall, Part000.overall.
  cbn [App.N App.PassingCount App.FailedCount App.PassingRate App.MeritRate
         App.DistinctionRate App.Mean App.SD App.Max App.Min].
  now rewrite Cp, Cm, Cd.
Qed.

Lemma variants_agree_on_ordered_thresholds_witness :
  common (App.overall example_thresholds example_rows)
  = Part000.overall (Num.of_Z 40) (Num.of_Z 60) (Num.of_Z 70) example_rows.
Proof.
  apply (variants_agree_on_ordered_thresholds example_rows
           (Num.of_Z 40) (Num.of_Z 60) (Num.of_Z 70));
    try reflexivity.
  repeat split; reflexivity.
Defined.

(** ** The [groups] object *)

Section GroupsObject.

Implicit Types (g : Groups) (k : string) (x : number) (rows : list Row).

Lemma own_None g k : own g k = None <-> ~ In k (map fst g).
Proof.
  induction g as [|[k' arr] g IH]; cbn.
  - tauto.
  - destruct (String.eqb_spec k' k) as [->|N].
    + split; [discriminate|]. intros H. destruct H. now left.
    + rewrite IH. split; [intros H [E|I]; auto|intros H I; auto].
Qed.

Lemma own_push g k x k' :
  own (push g k x) k' =
  if String.eqb k k' then option_map (fun arr => (arr ++ [x])%list) (own g k')
  else own g k'.
Proof.
  induction g as [|[k0 arr] g IH]; cbn.
  - now destruct (String.eqb k k').
  - destruct (String.eqb_spec k0 k) as [->|N0]; cbn.
    + destruct (String.eqb_spec k k') as [->|N]; [reflexivity|reflexivity].
    + destruct (String.eqb_spec k0 k') as [->|N1].
      * destruct (String.eqb_spec k k') as [->|N]; [congruence|reflexivity].
      * exact IH.
Qed.

Lemma own_app g k arr k' :
  own (g ++ [(k, arr)])%list k' =
  match own g k' with
  | Some a => Some a
  | None => if String.eqb k k' then Some arr else None
  end.
Proof.
  induction g as [|[k0 a0] g IH]; cbn.
  - reflexivity.
  - destruct (String.eqb k0 k'); auto.
Qed.

Lemma keys_push g k x : map fst (push g k x) = map fst g.
Proof.
  induction g as [|[k0 arr] g IH]; cbn; [reflexivity|].
  destruct (String.eqb k0 k); cbn; congruence.
Qed.

Lemma grades_of_cons k r rows :
  grades_of k (r :: rows) =
  if String.eqb (group r) k then grade r :: grades_of k rows else grades_of k rows.
Proof. unfold grades_of. cbn. now destruct (String.eqb (group r) k). Qed.

Lemma grades_of_nil_iff k rows : grades_of k rows = [] <-> ~ In k (map group rows).
Proof.
  induction rows as [|r rows IH]; [cbn; tauto|].
  rewrite grades_of_cons. cbn [map In].
  destruct (String.eqb_spec (group r) k) as [E|N].
  - split; [discriminate|]. intros H. destruct H. now left.
  - rewrite IH. tauto.
Qed.

(** What [rows.forEach] leaves in each property. *)
Lemma add_rows_own rows : forall g g',
  add_rows g rows = Some g' ->
  forall k,
    own g' k =
    match own g k with
    | Some arr => Some (arr ++ grades_of k rows)%list
    | None => match grades_of k rows with [] => None | l => Some l end
    end.
Proof.
  induction rows as [|r rows IH]; intros g g' H k.
  - cbn in H. injection H as <-. cbn [grades_of filter map].
    destruct (own g k); [now rewrite app_nil_r|reflexivity].
  - cbn [add_rows] in H. destruct (add_row g r) as [g1|] eqn:E1; [|discriminate].
    rewrite (IH _ _ H k). rewrite grades_of_cons.
    unfold add_row in E1.
    destruct (own g (group r)) as [arr|] eqn:Eo.
    + injection E1 as <-. rewrite own_push.
      destruct (String.eqb_spec (group r) k) as [<-|N].
      * rewrite Eo. cbn. now rewrite <- app_assoc.
      * reflexivity.
    + destruct (inherited (group r)); [discriminate|]. injection E1 as <-.
      rewrite own_app.
      destruct (String.eqb_spec (group r) k) as [<-|N].
      * rewrite Eo. reflexivity.
      * now destruct (own g k).
Qed.

(** The property names it creates, in creation order. *)
Lemma add_rows_keys rows : forall g g',
  add_rows g rows = Some g' ->
  map fst g' = (map fst g ++ first_seen (map fst g) (map group rows))%list.
Proof.
  induction rows as [|r rows IH]; intros g g' H.
  - cbn in H. injection H as <-. cbn. now rewrite app_nil_r.
  - cbn [add_rows] in H. destruct (add_row g r) as [g1|] eqn:E1; [|discriminate].
    rewrite (IH _ _ H). cbn [map first_seen].
    unfold add_row in E1.
    destruct (own g (group r)) as [arr|] eqn:Eo.
    + injection E1 as <-. rewrite keys_push.
      assert (In (group r) (map fst g)) as Hin.
      { destruct (in_dec string_dec (group r) (map fst g)) as [I|I]; auto.
        apply own_None in I. congruence. }
      assert (existsb (String.eqb (group r)) (map fst g) = true) as ->.
      { apply existsb_exists. exists (group r). split; auto. apply String.eqb_refl. }
      reflexivity.
    + destruct (inherited (group r)); [discriminate|]. injection E1 as <-.
      apply own_None in Eo.
      assert (existsb (String.eqb (group r)) (map fst g) = false) as ->.
      { apply not_true_is_false. intros Hex. apply existsb_exists in Hex.
        destruct Hex as (k & Hk & Ek). apply String.eqb_eq in Ek. now subst k. }
      rewrite map_app. cbn [map fst]. now rewrite <- app_assoc.
Qed.

Lemma first_seen_spec ks : forall seen,
  NoDup seen ->
  NoDup (seen ++ first_seen seen ks)%list
  /\ (forall k, In k (seen ++ first_seen seen ks)%list <-> In k seen \/ In k ks).
Proof.
  induction ks as [|k ks IH]; intros seen Hs; cbn [first_seen].
  - rewrite app_nil_r. split; auto. cbn. tauto.
  - destruct (existsb (String.eqb k) seen) eqn:E.
    + apply existsb_exists in E. destruct E as (k' & Hk' & Ek).
      apply String.eqb_eq in Ek. subst k'.
      destruct (IH seen Hs) as [N I]. split; auto.
      intros k0. rewrite I. cbn. intuition (subst; auto).
    + assert (~ In k seen) as Hk.
      { intros Hin. apply not_true_iff_false in E. apply E.
        apply existsb_exists. exists k. split; auto. apply String.eqb_refl. }
      assert (NoDup (seen ++ [k])%list) as Hs'.
      { apply NoDup_app; auto.
        - repeat constructor. intros [].
        - intros a Ha [<-|[]]. auto. }
      destruct (IH _ Hs') as [N I].
      rewrite <- app_assoc in N, I. cbn [app] in N, I. split; auto.
      intros k0. rewrite I. rewrite in_app_iff. cbn. tauto.
Qed.

(** After [forEach] there is one property per distinct group label. *)
Lemma add_rows_labels rows g :
  add_rows [] rows = Some g ->
  NoDup (map fst g) /\ (forall k, In k (map fst g) <-> In k (map group rows)).
Proof.
  intros H. rewrite (add_rows_keys _ _ _ H). cbn [map app].
  destruct (first_seen_spec (map group rows) [] (NoDup_nil _)) as [N I].
  cbn [app] in N, I. split; auto. intros k. rewrite I. cbn. tauto.
Qed.

Lemma add_rows_lookup rows g k :
  add_rows [] rows = Some g -> lookup g k = grades_of k rows.
Proof.
  intros H. unfold lookup. rewrite (add_rows_own _ _ _ H k). cbn [own].
  now destruct (grades_of k rows).
Qed.

(** [forEach] raises exactly when some label is a property name of
    [Object.prototype]. *)
Lemma add_rows_None rows : forall g,
  (forall k, In k (map fst g) -> inherited k = false) ->
  add_rows g rows = None <-> exists r, In r rows /\ inherited (group r) = true.
Proof.
  induction rows as [|r rows IH]; intros g Hg; cbn [add_rows].
  - split; [discriminate|]. intros (r & [] & _).
  - unfold add_row at 1.
    destruct (own g (group r)) as [arr|] eqn:Eo.
    + assert (inherited (group r) = false) as Hr.
      { apply Hg. destruct (in_dec string_dec (group r) (map fst g)) as [I|I]; auto.
        apply own_None in I. congruence. }
      rewrite IH.
      * split; intros (r' & Hin & Hi); exists r'; cbn; auto.
        destruct Hin as [<-|Hin]; [congruence|auto].
      * intros k. rewrite keys_push. apply Hg.
    + destruct (inherited (group r)) eqn:Hr.
      * split; auto. intros _. exists r. cbn. auto.
      * rewrite IH.
        -- split; intros (r' & Hin & Hi); exists r'; cbn; auto.
           destruct Hin as [<-|Hin]; [congruence|auto].
        -- intros k. rewrite map_app, in_app_iff. cbn [map fst In].
           intros [Hk|[<-|[]]]; auto.
Qed.

End GroupsObject.

(** ** Sorting the labels *)

Section Sorting.

Context {A : Type} (lt : A -> A -> bool).

Lemma insert_perm (x : A) (l : list A) : Permutation (insert lt x l) (x :: l).
Proof.
  induction l as [|y l IH]; cbn; [reflexivity|].
  destruct (lt x y); [reflexivity|].
  rewrite IH. apply perm_swap.
Qed.

Lemma sort_by_perm (l : list A) : Permutation (sort_by lt l) l.
Proof.
  induction l as [|x l IH]; cbn; [reflexivity|].
  rewrite insert_perm. now constructor.
Qed.

End Sorting.

Lemma filter_split_perm {A : Type} (f : A -> bool) (l : list A) :
  Permutation (filter f l ++ filter (fun x => negb (f x)) l)%list l.
Proof.
  induction l as [|x l IH]; cbn; [reflexivity|].
  destruct (f x); cbn.
  - now constructor.
  - rewrite <- Permutation_middle. now constructor.
Qed.

Lemma Object_keys_perm (g : Groups) : Permutation (Object_keys g) (map fst g).
Proof.
  unfold Object_keys. rewrite sort_by_perm. apply filter_split_perm.
Qed.

Lemma sort_perm (ks : list string) : Permutation (sort ks) ks.
Proof. apply sort_by_perm. Qed.

(** The order of code units is a strict total order. *)
Lemma ascii_compare_lt_trans (a b c : ascii) :
  Ascii.compare a b = Lt -> Ascii.compare b c = Lt -> Ascii.compare a c = Lt.
Proof.
  unfold Ascii.compare. rewrite !N.compare_lt_iff. apply N.lt_trans.
Qed.

Lemma ascii_compare_refl (a : ascii) : Ascii.compare a a = Eq.
Proof. unfold Ascii.compare. apply N.compare_refl. Qed.

Lemma string_compare_lt_trans (a : string) : forall b c,
  String.compare a b = Lt -> String.compare b c = Lt -> String.compare a c = Lt.
Proof.
  induction a as [|x a IH]; intros [|y b] [|z c]; cbn; try discriminate; auto.
  destruct (Ascii.compare x y) eqn:Exy; try discriminate;
    destruct (Ascii.compare y z) eqn:Eyz; try discriminate; intros H1 H2.
  - apply Ascii.compare_eq_iff in Exy, Eyz. subst. rewrite ascii_compare_refl. eauto.
  - apply Ascii.compare_eq_iff in Exy. subst. now rewrite Eyz.
  - apply Ascii.compare_eq_iff in Eyz. subst. now rewrite Exy.
  - now rewrite (ascii_compare_lt_trans _ _ _ Exy Eyz).
Qed.

Lemma string_compare_refl (a : string) : String.compare a a = Eq.
Proof.
  induction a as [|x a IH]; cbn; [reflexivity|]. now rewrite ascii_compare_refl.
Qed.

Lemma str_lt_trans (a b c : string) : str_lt a b -> str_lt b c -> str_lt a c.
Proof.
  unfold str_lt, Str.ltb, String.ltb. intros H1 H2.
  destruct (String.compare a b) eqn:E1; try discriminate.
  destruct (String.compare b c) eqn:E2; try discriminate.
  now rewrite (string_compare_lt_trans _ _ _ E1 E2).
Qed.

Lemma str_le_cases (a b : string) : str_le a b <-> str_lt a b \/ a = b.
Proof.
  unfold str_le, str_lt, Str.ltb, String.ltb.
  rewrite (String.compare_antisym b a).
  destruct (String.compare a b) eqn:E; cbn.
  - apply String.compare_eq_iff in E. subst. split; auto.
  - split; auto.
  - split; [discriminate|]. intros [H|H]; [discriminate|].
    subst. rewrite string_compare_refl in E. discriminate.
Qed.

Lemma str_le_trans (a b c : string) : str_le a b -> str_le b c -> str_le a c.
Proof.
  rewrite !str_le_cases. intros [H1| ->] [H2| ->]; auto.
  left. eapply str_lt_trans; eauto.
Qed.

Lemma str_lt_le (a b : string) : str_lt a b -> str_le a b.
Proof. intros H. apply str_le_cases. now left. Qed.

Lemma insert_sorted (x : string) (l : list string) :
  StronglySorted str_le l -> StronglySorted str_le (insert Str.ltb x l).
Proof.
  induction 1 as [|y l Hs IH Hy]; cbn.
  - repeat constructor.
  - destruct (Str.ltb x y) eqn:E.
    + constructor; [now constructor|].
      constructor; [now apply str_lt_le|].
      eapply Forall_impl; [|exact Hy]. intros z Hz.
      eapply str_le_trans; [apply str_lt_le; exact E|exact Hz].
    + constructor; auto.
      eapply Permutation_Forall; [symmetry; apply insert_perm|].
      constructor; auto.
Qed.

Lemma sort_sorted (ks : list string) : StronglySorted str_le (sort ks).
Proof.
  unfold sort, sort_by. induction ks as [|k ks IH]; cbn.
  - constructor.
  - now apply insert_sorted.
Qed.

(** Without repeated labels the sorted list is strictly ascending. *)
Lemma sorted_strict (l : list string) :
  NoDup l -> StronglySorted str_le l -> StronglySorted str_lt l.
Proof.
  induction 2 as [|y l Hs IH Hy]; constructor.
  - apply IH. now inversion H.
  - inversion H as [|? ? Hn Hd]; subst.
    apply Forall_forall. intros z Hz.
    rewrite Forall_forall in Hy. specialize (Hy z Hz).
    apply str_le_cases in Hy. destruct Hy as [Hy| ->]; [auto|contradiction].
Qed.

(** ** The group summaries *)

(** A run that reaches the end has prepared at least one row, built the
    [groups] object, and stored both summaries. *)
Lemma generateReport_completed (answer : bool) (st st' : App.State) (evs : list event) :
  App.generateReport answer st = (st', evs, Completed) ->
  let rows := prepare_rows (App.gradeCol st) (App.groupCol st) (App.data st) in
  let t := App.coerceThresholds (App.passing st) (App.merit st) (App.distinction st) in
  exists g,
    rows <> [] /\ add_rows [] rows = Some g
    /\ App.overallSummary st' = [App.overall t rows]
    /\ App.groupSummary st' = App.group_summaries t g
    /\ App.reportGenerated st' = true.
Proof.
  unfold App.generateReport.
  destruct (App.data st) as [|r0 data0]; [discriminate|].
  destruct (String.eqb (App.gradeCol st) ""); [discriminate|].
  destruct (String.eqb (App.groupCol st) ""); [discriminate|].
  destruct (String.eqb (Str.trim (App.title st)) "" && negb answer); [discriminate|].
  destruct (prepare_rows _ _ _) as [|r rows]; [discriminate|].
  destruct (add_rows [] (r :: rows)) as [g|] eqn:E; [|discriminate].
  intros H. injection H as <- _. exists g.
  repeat split; auto. discriminate.
Qed.

Lemma generateReport0_completed
  (answer : bool) (st st' : Part000.State) (evs : list event) :
  Part000.generateReport answer st = (st', evs, Completed) ->
  let rows :=
    prepare_rows (Part000.gradeCol st) (Part000.groupCol st) (Part000.data st) in
  exists g,
    rows <> [] /\ add_rows [] rows = Some g
    /\ Part000.overallSummary st'
       = [Part000.overall (Part000.passing st) (Part000.merit st)
            (Part000.distinction st) rows]
    /\ Part000.groupSummary st'
       = Part000.group_summaries (Part000.passing st) (Part000.merit st)
           (Part000.distinction st) g
    /\ Part000.reportGenerated st' = true.
Proof.
  unfold Part000.generateReport.
  destruct (Part000.data st) as [|r0 data0]; [discriminate|].
  destruct (String.eqb (Part000.gradeCol st) ""); [discriminate|].
  destruct (String.eqb (Part000.groupCol st) ""); [discriminate|].
  destruct (String.eqb (Str.trim (Part000.title st)) "" && negb answer); [discriminate|].
  destruct (prepare_rows _ _ _) as [|r rows]; [discriminate|].
  destruct (add_rows [] (r :: rows)) as [g|] eqn:E; [|discriminate].
  intros H. injection H as <- _. exists g.
  repeat split; auto. discriminate.
Qed.

Lemma group_summaries_labels (t : App.Thresholds) (g : Groups) :
  map App.Group (App.group_summaries t g) = sort (Object_keys g).
Proof.
  unfold App.group_summaries. rewrite map_map. cbn [App.Group]. apply map_id.
Qed.

Lemma group_summaries0_labels (a b c : number) (g : Groups) :
  map Part000.Group (Part000.group_summaries a b c g) = Object_keys g.
Proof.
  unfold Part000.group_summaries. rewrite map_map. cbn [Part000.Group]. apply map_id.
Qed.

(** Rows without a group value are gathered under the placeholder label. *)
Example missing_group_label :
  let st' :=
    fst (fst (App.generateReport true
                (loaded [ [("Grade", VNumber (Num.of_Z 50)); ("Group", VNull)];
                          cell_row (VNumber (Num.of_Z 60)) "A";
                          [("Grade", VNumber (Num.of_Z 70))] ]))) in
  map (fun g => (App.Group g, App.N (App.summary g))) (App.groupSummary st')
  = [("(missing)", 2%nat); ("A", 1%nat)].
Proof. vm_compute. reflexivity. Qed.

(** C5, as stated, fails for the earlier variant, which does not sort: with
    a row of group "B" followed by a row of group "A" its group summaries come
    out as B, A. *)
Lemma unsorted_group_summaries :
  let st' := fst (fst (Part000.generateReport true (loaded0 rows_B_then_A))) in
  map Part000.Group (Part000.groupSummary st') = ["B"; "A"]
  /\ ~ StronglySorted str_lt (map Part000.Group (Part000.groupSummary st')).
Proof.
  split; [vm_compute; reflexivity|].
  intros H. vm_compute in H.
  inversion H as [|? ? _ HF]. inversion HF as [|? ? HBA _]. discriminate HBA.
Qed.

(** C5, amended: whenever [generateReport] of [App.js] runs to its end, the
    group summaries carry each distinct group label of the prepared rows
    (the "(missing)" placeholder included) exactly once, in strictly ascending
    order of code units, each with the grades of its rows; the earlier variant
    also has one record per distinct label, but in the key order of the
    [groups] object: array-index labels first, then the others as first
    seen. *)
Theorem group_summaries_one_per_label :
  (forall (answer : bool) (st st' : App.State) (evs : list event),
      App.generateReport answer st = (st', evs, Completed) ->
      let rows := prepare_rows (App.gradeCol st) (App.groupCol st) (App.data st) in
      let t := App.coerceThresholds (App.passing st) (App.merit st) (App.distinction st) in
      let labels := map App.Group (App.groupSummary st') in
      NoDup labels
      /\ (forall k, In k labels <-> In k (map group rows))
      /\ StronglySorted str_lt labels
      /\ Forall (fun s => App.summary s
                          = App.summarize t (grades_of (App.Group s) rows))
                (App.groupSummary st'))
  /\
  (forall (answer : bool) (st st' : Part000.State) (evs : list event),
      Part000.generateReport answer st = (st', evs, Completed) ->
      let rows :=
        prepare_rows (Part000.gradeCol st) (Part000.groupCol st) (Part000.data st) in
      let labels := map Part000.Group (Part000.groupSummary st') in
      NoDup labels
      /\ (forall k, In k labels <-> In k (map group rows))
      /\ exists g,
           map fst g = first_seen [] (map group rows)
           /\ labels = Object_keys g).
Proof.
  split.
  - intros answer st st' evs H rows t labels.
    destruct (generateReport_completed _ _ _ _ H) as (g & _ & Hg & _ & Hs & _).
    fold rows in Hg. fold t in Hs.
    destruct (add_rows_labels _ _ Hg) as [Nd In_g].
    assert (P : Permutation labels (map fst g)).
    { subst labels. rewrite Hs, group_summaries_labels.
      rewrite sort_perm. apply Object_keys_perm. }
    assert (Nl : NoDup labels).
    { eapply Permutation_NoDup; [symmetry; exact P|exact Nd]. }
    repeat split.
    + exact Nl.
    + intros I. apply In_g. eapply Permutation_in; eauto.
    + intros I. eapply Permutation_in; [symmetry; exact P|]. now apply In_g.
    + apply sorted_strict; auto. subst labels.
      rewrite Hs, group_summaries_labels. apply sort_sorted.
    + rewrite Hs. unfold App.group_summaries. apply Forall_forall.
      intros s Hin. apply in_map_iff in Hin. destruct Hin as (k & <- & _).
      cbn [App.summary App.Group]. now rewrite (add_rows_lookup _ _ k Hg).
  - intros answer st st' evs H rows labels.
    destruct (generateReport0_completed _ _ _ _ H) as (g & _ & Hg & _ & Hs & _).
    fold rows in Hg.
    destruct (add_rows_labels _ _ Hg) as [Nd In_g].
    assert (E : labels = Object_keys g).
    { subst labels. now rewrite Hs, group_summaries0_labels. }
    assert (P : Permutation labels (map fst g)).
    { rewrite E. apply Object_keys_perm. }
    repeat split.
    + eapply Permutation_NoDup; [symmetry; exact P|exact Nd].
    + intros I. apply In_g. eapply Permutation_in; eauto.
    + intros I. eapply Permutation_in; [symmetry; exact P|]. now apply In_g.
    + exists g. split; auto.
      now rewrite (add_rows_keys _ _ _ Hg).
Qed.

Lemma group_summaries_one_per_label_witness :
  let st := loaded rows_B_then_A in
  let st' := fst (fst (App.generateReport true st)) in
  App.generateReport true st = (st', [], Completed)
  /\ map App.Group (App.groupSummary st') = ["A"; "B"]
  /\ StronglySorted str_lt (map App.Group (App.groupSummary st')).
Proof.
  intros st st'.
  assert (H : App.generateReport true st = (st', [], Completed))
    by (vm_compute; reflexivity).
  split; [exact H|]. split; [vm_compute; reflexivity|].
  exact (proj1 (proj2 (proj2 (proj1 group_summaries_one_per_label true st st' [] H)))).
Defined.

(** ** Group sizes add up *)

Lemma total_N_lengths (t : App.Thresholds) (g : Groups) (ks : list string) :
  total_N (map (fun k => {| App.Group := k; App.summary := App.summarize t (lookup g k) |}) ks)
  = list_sum (map (fun k => List.length (lookup g k)) ks).
Proof.
  unfold total_N, list_sum.
  induction ks as [|k ks IH]; [reflexivity|].
  cbn [map fold_right]. rewrite IH. reflexivity.
Qed.

Lemma list_sum_perm (l l' : list nat) : Permutation l l' -> list_sum l = list_sum l'.
Proof.
  unfold list_sum. induction 1; cbn [fold_right] in *; lia.
Qed.

(** The rows whose label is among [ks], counted label by label. *)
Lemma count_by_label (rows : list Row) : forall ks,
  NoDup ks ->
  list_sum (map (fun k => List.length (grades_of k rows)) ks)
  = List.length (filter (fun r => existsb (String.eqb (group r)) ks) rows).
Proof.
  unfold list_sum.
  induction rows as [|r rows IH]; intros ks Nd.
  - cbn [filter List.length]. induction ks as [|k ks IHk]; [reflexivity|].
    inversion Nd; subst. cbn [map fold_right].
    rewrite IHk by assumption. reflexivity.
  - cbn [filter].
    assert (E : fold_right Nat.add 0%nat
                  (map (fun k => List.length (grades_of k (r :: rows))) ks)
                = ((if existsb (String.eqb (group r)) ks then 1 else 0)
                   + fold_right Nat.add 0%nat
                       (map (fun k => List.length (grades_of k rows)) ks))%nat).
    { clear IH. induction Nd as [|k ks Hk Nd IHk]; cbn [map fold_right existsb].
      - reflexivity.
      - rewrite IHk, grades_of_cons.
        destruct (String.eqb_spec (group r) k) as [E|N]; cbn [orb List.length].
        + assert (existsb (String.eqb (group r)) ks = false) as ->.
          { apply not_true_is_false. intros Hex. apply existsb_exists in Hex.
            destruct Hex as (k' & Hk' & Ek). apply String.eqb_eq in Ek. congruence. }
          lia.
        + lia. }
    rewrite E, (IH ks Nd).
    destruct (existsb (String.eqb (group r)) ks); cbn [List.length]; lia.
Qed.

(** Whenever the handler runs to its end, the N fields of the group
    summaries add up to the N of the overall summary. *)
Lemma group_sizes_add_up (answer : bool) (st st' : App.State) (evs : list event) :
  App.generateReport answer st = (st', evs, Completed) ->
  exists o, App.overallSummary st' = [o] /\ total_N (App.groupSummary st') = App.N o.
Proof.
  intros H.
  destruct (generateReport_completed _ _ _ _ H) as (g & _ & Hg & Ho & Hs & _).
  eexists. split; [exact Ho|]. rewrite Hs.
  set (rows := prepare_rows _ _ _) in *.
  unfold App.group_summaries. rewrite total_N_lengths.
  cbn [App.overall App.N].
  destruct (add_rows_labels _ _ Hg) as [Nd In_g].
  assert (P : Permutation (sort (Object_keys g)) (map fst g)).
  { rewrite sort_perm. apply Object_keys_perm. }
  rewrite (list_sum_perm _ _ (Permutation_map _ P)).
  rewrite (map_ext _ (fun k => List.length (grades_of k rows)))
    by (intros k; now rewrite (add_rows_lookup _ _ k Hg)).
  rewrite count_by_label by exact Nd.
  f_equal. apply forallb_filter_id. apply forallb_forall. intros r Hr.
  apply existsb_exists. exists (group r). split; [|apply String.eqb_refl].
  apply In_g. now apply in_map.
Qed.

(** C9 at its failing input: a single row with grade 50 and group label
    "constructor" has a coercible grade; the overall summary is stored with
    N = 1, then the handler is left by a TypeError and no group summary is
    stored, so the group sizes (none) do not add up to 1. *)
Theorem inherited_label_raises :
  exists st' o,
    App.generateReport true (loaded [constructor_row]) = (st', [], TypeError)
    /\ App.overallSummary st' = [o] /\ App.N o = 1%nat
    /\ App.groupSummary st' = []
    /\ total_N (App.groupSummary st') <> App.N o.
Proof.
  do 2 eexists. split; [vm_compute; reflexivity|].
  cbn [App.overallSummary App.groupSummary App.N total_N fold_right].
  repeat split. discriminate.
Qed.

(** The handler does run to its end once the guards are passed, a row is
    prepared, and no group label is a property name of [Object.prototype]. *)
Lemma generateReport_runs (answer : bool) (st : App.State) :
  App.data st <> [] ->
  App.gradeCol st <> "" -> App.groupCol st <> "" ->
  (Str.trim (App.title st) <> "" \/ answer = true) ->
  let rows := prepare_rows (App.gradeCol st) (App.groupCol st) (App.data st) in
  rows <> [] ->
  Forall (fun r => inherited (group r) = false) rows ->
  exists st' evs, App.generateReport answer st = (st', evs, Completed).
Proof.
  intros Hd Hg Hc Ht rows Hr Hi.
  unfold App.generateReport.
  destruct (App.data st) as [|r0 data0] eqn:Ed; [congruence|].
  apply String.eqb_neq in Hg, Hc. rewrite Hg, Hc.
  assert (E : String.eqb (Str.trim (App.title st)) "" && negb answer = false).
  { destruct Ht as [Ht| ->].
    - apply String.eqb_neq in Ht. now rewrite Ht.
    - apply andb_false_r. }
  rewrite E. fold rows.
  destruct rows as [|r rows'] eqn:Er; [congruence|].
  destruct (add_rows [] (r :: rows')) as [g|] eqn:Ea.
  - eauto.
  - apply add_rows_None in Ea; [|intros k []].
    destruct Ea as (r' & Hin & Hinh).
    rewrite Forall_forall in Hi. rewrite (Hi r' Hin) in Hinh. discriminate.
Qed.

(** ** Rounding keeps the sign and never yields NaN *)

Section Rounding.

Let prec := Num.prec.
Let emax := Num.emax.

Lemma shr_1_nonneg (r : shr_record) : 0 <= shr_m r -> 0 <= shr_m (shr_1 r).
Proof.
  destruct r as [m rb sb]. cbn. intros H.
  destruct m as [|[p|p|]|p]; cbn; lia.
Qed.

Lemma iter_shr_1_nonneg (n : positive) : forall r : shr_record,
  0 <= shr_m r -> 0 <= shr_m (iter_pos shr_1 n r).
Proof.
  induction n as [n IH|n IH|]; intros r H; cbn.
  - apply IH, IH. now apply shr_1_nonneg.
  - now apply IH, IH.
  - now apply shr_1_nonneg.
Qed.

Lemma shr_nonneg (r : shr_record) (e n : Z) :
  0 <= shr_m r -> 0 <= shr_m (fst (shr r e n)).
Proof.
  intros H. unfold shr. destruct n; cbn [fst]; auto.
  now apply iter_shr_1_nonneg.
Qed.

Lemma shr_record_of_loc_m (m : Z) (l : location) : shr_m (shr_record_of_loc m l) = m.
Proof. destruct l as [|[]]; reflexivity. Qed.

Lemma shr_fexp_nonneg (m e : Z) (l : location) :
  0 <= m -> 0 <= shr_m (fst (shr_fexp prec emax m e l)).
Proof.
  intros H. unfold shr_fexp. apply shr_nonneg. now rewrite shr_record_of_loc_m.
Qed.

Lemma round_nearest_even_nonneg (m : Z) (l : location) :
  0 <= m -> 0 <= round_nearest_even m l.
Proof.
  intros H. destruct l as [|[]]; cbn; try lia. destruct (Z.even m); lia.
Qed.

Lemma round_aux_signed (s : bool) (m e : Z) (l : location) :
  0 <= m -> signed s (binary_round_aux prec emax s m e l).
Proof.
  intros H. unfold binary_round_aux.
  pose proof (shr_fexp_nonneg m e l H) as H1.
  destruct (shr_fexp prec emax m e l) as [r1 e1]. cbn [fst] in H1.
  pose proof (shr_fexp_nonneg _ e1 loc_Exact
                (round_nearest_even_nonneg _ (loc_of_shr_record r1) H1)) as H2.
  destruct (shr_fexp prec emax _ e1 loc_Exact) as [r2 e2]. cbn [fst] in H2.
  destruct (shr_m r2) as [|p|p]; cbn.
  - reflexivity.
  - destruct (_ <=? _); reflexivity.
  - lia.
Qed.

Lemma round_signed (s : bool) (m : positive) (e : Z) :
  signed s (binary_round prec emax s m e).
Proof.
  unfold binary_round. destruct (shl_align _ _ _) as [mz ez].
  apply round_aux_signed. lia.
Qed.

Lemma normalize_not_nan (m e : Z) (sz : bool) :
  Num.isNaN (binary_normalize prec emax m e sz) = false.
Proof.
  destruct m as [|p|p]; cbn [binary_normalize].
  - reflexivity.
  - pose proof (round_signed false p e) as H.
    destruct (binary_round prec emax false p e); cbn in *; auto. destruct H.
  - pose proof (round_signed true p e) as H.
    destruct (binary_round prec emax true p e); cbn in *; auto. destruct H.
Qed.

End Rounding.

Lemma signed_not_nan (s : bool) (x : number) : signed s x -> Num.isNaN x = false.
Proof. destruct x; cbn; auto. intros []. Qed.

(** Sums of finite numbers are never NaN. *)
Lemma add_finite_not_nan (a b : number) :
  Num.isNaN a = false -> Num.isFinite b = true -> Num.isNaN (Num.add a b) = false.
Proof.
  intros Ha Hb. unfold Num.add.
  destruct a as [sa|sa| |sa ma ea], b as [sb|sb| |sb mb eb];
    try discriminate; cbn [SFadd]; try reflexivity.
  - destruct sa, sb; reflexivity.
  - apply normalize_not_nan.
Qed.

Lemma sum_finite_not_nan (xs : list number) : forall acc,
  Num.isNaN acc = false -> Forall (fun x => Num.isFinite x = true) xs ->
  Num.isNaN (fold_left Num.add xs acc) = false.
Proof.
  induction xs as [|x xs IH]; intros acc Ha Hx; cbn; auto.
  inversion Hx; subst. apply IH; auto. now apply add_finite_not_nan.
Qed.

(** Sums of numbers of positive sign have positive sign. *)
Lemma add_signed (a b : number) :
  signed false a -> signed false b -> signed false (Num.add a b).
Proof.
  unfold Num.add.
  destruct a as [sa|sa| |sa ma ea], b as [sb|sb| |sb mb eb];
    cbn [signed]; try tauto; intros -> ->; cbn [SFadd signed]; try reflexivity.
  cbn [cond_Zopp]. cbn [Z.add binary_normalize]. apply round_signed.
Qed.

(** Squares have positive sign. *)
Lemma pow2_signed (x : number) : Num.isNaN x = false -> signed false (Num.pow2 x).
Proof.
  unfold Num.pow2, Num.mul.
  destruct x as [s|s| |s m e]; try discriminate; intros _; cbn [SFmul signed].
  - now destruct s.
  - now destruct s.
  - replace (xorb s s) with false by now destruct s.
    apply round_aux_signed. lia.
Qed.

(** Quotients by a positive finite number keep the sign. *)
Lemma div_signed (s : bool) (x : number) (m : positive) (e : Z) :
  signed s x -> signed s (Num.div x (S754_finite false m e)).
Proof.
  unfold Num.div.
  destruct x as [sx|sx| |sx mx ex]; cbn [signed]; try tauto; intros ->;
    cbn [SFdiv signed]; try (now destruct s).
  unfold SFdiv_core_binary.
  set (e' := Z.min _ _). set (m' := match _ - e' with Z0 => _ | Zpos _ => _ | Zneg _ => _ end).
  assert (Hm : 0 <= m').
  { subst m'. destruct (ex - e - e'); try lia. apply Z.shiftl_nonneg. lia. }
  pose proof (Z_div_mod m' (Zpos m) eq_refl) as Hd.
  destruct (Z.div_eucl m' (Zpos m)) as [q r].
  replace (xorb s false) with s by now destruct s.
  apply round_aux_signed. nia.
Qed.

(** Square roots of numbers of positive sign have positive sign. *)
Lemma sqrt_signed (x : number) : signed false x -> signed false (Num.sqrt x).
Proof.
  unfold Num.sqrt.
  destruct x as [s|s| |s m e]; cbn [signed]; try tauto; intros ->;
    cbn [SFsqrt signed]; try reflexivity.
  unfold SFsqrt_core_binary.
  set (e' := Z.min _ _). set (m' := match _ - 2 * e' with Z0 => _ | Zpos _ => _ | Zneg _ => _ end).
  pose proof (Z.sqrtrem_spec m') as Hs.
  assert (Hm : 0 <= m').
  { subst m'. destruct (e - 2 * e'); try lia. apply Z.shiftl_nonneg. lia. }
  specialize (Hs Hm).
  destruct (Z.sqrtrem m') as [q r].
  apply round_aux_signed. nia.
Qed.

(** Differences of a finite number and a number are never NaN. *)
Lemma sub_finite_not_nan (a b : number) :
  Num.isFinite a = true -> Num.isNaN b = false -> Num.isNaN (Num.sub a b) = false.
Proof.
  intros Ha Hb. unfold Num.sub.
  destruct a as [sa|sa| |sa ma ea], b as [sb|sb| |sb mb eb];
    try discriminate; cbn [SFsub]; try reflexivity.
  - destruct sa, sb; reflexivity.
  - apply normalize_not_nan.
Qed.

Lemma div_not_nan (x : number) (m : positive) (e : Z) :
  Num.isNaN x = false -> Num.isNaN (Num.div x (S754_finite false m e)) = false.
Proof.
  intros H.
  assert (S : exists s, signed s x).
  { destruct x as [s|s| |s mx ex]; try discriminate; exists s; reflexivity. }
  destruct S as [s S]. eapply signed_not_nan. apply div_signed. exact S.
Qed.

(** ** Operations that are exact *)

Lemma digits2_pos_iter (p k : positive) :
  digits2_pos (Pos.iter xO p k) = (digits2_pos p + k)%positive.
Proof.
  induction k as [|k IH] using Pos.peano_ind.
  - cbn. lia.
  - rewrite Pos.iter_succ. cbn [digits2_pos]. rewrite IH. lia.
Qed.

Lemma digits2_pos_lower (p : positive) : 2 ^ (Zpos (digits2_pos p) - 1) <= Zpos p.
Proof.
  induction p as [p IH|p IH|]; cbn [digits2_pos].
  - rewrite Pos2Z.inj_succ.
    replace (Z.succ (Zpos (digits2_pos p)) - 1) with (Z.succ (Zpos (digits2_pos p) - 1)) by lia.
    rewrite Z.pow_succ_r by lia. lia.
  - rewrite Pos2Z.inj_succ.
    replace (Z.succ (Zpos (digits2_pos p)) - 1) with (Z.succ (Zpos (digits2_pos p) - 1)) by lia.
    rewrite Z.pow_succ_r by lia. lia.
  - cbn. lia.
Qed.

Lemma digits2_pos_small (p : positive) :
  Zpos p < 2 ^ 53 -> Zpos (digits2_pos p) <= 53.
Proof.
  intros H. pose proof (digits2_pos_lower p) as L.
  destruct (Z_le_gt_dec (Zpos (digits2_pos p)) 53) as [|G]; auto.
  exfalso.
  assert (2 ^ 53 <= 2 ^ (Zpos (digits2_pos p) - 1)) by (apply Z.pow_le_mono_r; lia).
  lia.
Qed.

(** Rounding a mantissa that is already canonical returns it. *)
Lemma round_aux_canonical (s : bool) (m : positive) (e : Z) :
  canonical_mantissa Num.prec Num.emax m e = true -> e <= Num.emax - Num.prec ->
  binary_round_aux Num.prec Num.emax s (Zpos m) e loc_Exact = S754_finite s m e.
Proof.
  unfold canonical_mantissa. intros C B. apply Z.eqb_eq in C.
  unfold binary_round_aux, shr_fexp. cbn [Zdigits2 shr_record_of_loc].
  rewrite C, Z.sub_diag. cbn [shr shr_m loc_of_shr_record round_nearest_even].
  cbn [Zdigits2 shr_record_of_loc]. rewrite C, Z.sub_diag.
  cbn [shr shr_m]. apply Z.leb_le in B. now rewrite B.
Qed.

(** An integer between 1 and 2^53 - 1 is a positive finite number. *)
Lemma of_Z_finite (p : positive) :
  Zpos p < 2 ^ 53 -> exists m e, Num.of_Z (Zpos p) = S754_finite false m e.
Proof.
  intros H. pose proof (digits2_pos_small p H) as D.
  unfold Num.of_Z. cbn [binary_normalize]. unfold binary_round.
  set (d := digits2_pos p) in *.
  assert (F : fexp Num.prec Num.emax (Zpos d + 0) = Zpos d - 53).
  { unfold fexp, SpecFloat.emin, Num.prec, Num.emax. lia. }
  rewrite F. unfold shl_align.
  destruct (Zpos d - 53 - 0) as [|k|k] eqn:K; try lia.
  - exists p, 0. apply round_aux_canonical.
    + unfold canonical_mantissa. fold d. rewrite F. apply Z.eqb_eq. lia.
    + unfold Num.prec, Num.emax. lia.
  - exists (Pos.iter xO p k), (Zpos d - 53). apply round_aux_canonical.
    + unfold canonical_mantissa. rewrite digits2_pos_iter. fold d.
      apply Z.eqb_eq. unfold fexp, SpecFloat.emin, Num.prec, Num.emax. lia.
    + unfold Num.prec, Num.emax. lia.
Qed.

Lemma of_nat_finite (n : nat) :
  (0 < n)%nat -> Z.of_nat n < 2 ^ 53 ->
  exists m e, Num.of_nat n = S754_finite false m e.
Proof.
  intros H0 H. unfold Num.of_nat.
  destruct (Z.of_nat n) as [|p|p] eqn:E; try lia.
  now apply of_Z_finite.
Qed.

(** Dividing a number of the format by one returns it. *)
Lemma div_one (s : bool) (m : positive) (e : Z) :
  Num.valid (S754_finite s m e) = true ->
  Num.div (S754_finite s m e) (Num.of_nat 1) = S754_finite s m e.
Proof.
  unfold Num.valid, valid_binary, bounded. intros V.
  apply andb_true_iff in V. destruct V as [C B]. apply Z.leb_le in B.
  pose proof C as C'. unfold canonical_mantissa in C'. apply Z.eqb_eq in C'.
  change (Num.of_nat 1) with (S754_finite false 4503599627370496 (-52)).
  unfold Num.div. cbn [SFdiv]. rewrite xorb_false_r.
  unfold SFdiv_core_binary. cbn [Zdigits2 digits2_pos Pos.succ].
  set (d := Zpos (digits2_pos m)) in *.
  assert (Hd : 0 < d) by (subst d; lia).
  unfold fexp, SpecFloat.emin, Num.prec, Num.emax in *.
  destruct (Z.eq_dec e (-1074)) as [E|E].
  - (* the smallest exponent: the quotient is the mantissa itself *)
    assert (D : d <= 53) by lia.
    replace (Z.min (Z.max (d + e - (53 + -52) - 53) (3 - 1024 - 53)) (e - -52)) with e by lia.
    replace (e - -52 - e) with 52 by lia.
    assert (Q : Z.div_eucl (Z.shiftl (Zpos m) 52) 4503599627370496 = (Zpos m, 0)).
    { rewrite Z.shiftl_mul_pow2 by lia.
      pose proof (Z_div_mod (Zpos m * 2 ^ 52) 4503599627370496 eq_refl) as Hq.
      destruct (Z.div_eucl (Zpos m * 2 ^ 52) 4503599627370496) as [q r].
      change (2 ^ 52) with 4503599627370496 in Hq.
      f_equal; lia. }
    rewrite Q. cbn [new_location Z.even new_location_even Z.eqb].
    apply round_aux_canonical; [exact C|exact B].
  - (* a normal number: the quotient has one more bit, shifted out exactly *)
    assert (D : d = 53) by lia.
    replace (Z.min (Z.max (d + e - (53 + -52) - 53) (3 - 1024 - 53)) (e - -52))
      with (e - 1) by lia.
    replace (e - -52 - (e - 1)) with 53 by lia.
    assert (Q : Z.div_eucl (Z.shiftl (Zpos m) 53) 4503599627370496 = (Zpos m~0, 0)).
    { rewrite Z.shiftl_mul_pow2 by lia.
      pose proof (Z_div_mod (Zpos m * 2 ^ 53) 4503599627370496 eq_refl) as Hq.
      destruct (Z.div_eucl (Zpos m * 2 ^ 53) 4503599627370496) as [q r].
      change (2 ^ 53) with 9007199254740992 in Hq.
      f_equal; lia. }
    rewrite Q. cbn [new_location Z.even new_location_even Z.eqb].
    unfold binary_round_aux, shr_fexp.
    cbn [Zdigits2 digits2_pos shr_record_of_loc].
    rewrite Pos2Z.inj_succ. fold d.
    unfold fexp, SpecFloat.emin, Num.prec, Num.emax.
    replace (Z.max (Z.succ d + (e - 1) - 53) (3 - 1024 - 53) - (e - 1)) with 1 by lia.
    cbn [shr iter_pos shr_1 orb shr_m loc_of_shr_record round_nearest_even].
    cbn [Zdigits2 shr_record_of_loc]. fold d.
    replace (Z.max (d + (e - 1 + 1) - 53) (3 - 1024 - 53) - (e - 1 + 1)) with 0 by lia.
    cbn [shr shr_m].
    replace (e - 1 + 1) with e by lia.
    apply Z.leb_le in B. now rewrite B.
Qed.

(** A finite number minus a number that is [===] to it is a zero. *)
Lemma sub_eqb_zero (b mu : number) :
  Num.isFinite b = true -> Num.eqb b mu = true ->
  exists s, Num.sub b mu = S754_zero s.
Proof.
  intros Fb E. apply eqb_iff in E. destruct E as (Nb & Nm & K).
  destruct b as [sb|sb| |sb mb eb]; try discriminate.
  - destruct mu as [sm|sm| |sm mm em]; try discriminate; cbn in K.
    + unfold Num.sub. cbn [SFsub]. destruct sb, sm; eauto.
    + destruct sm; discriminate.
    + destruct sm; discriminate.
  - assert (mu = S754_finite sb mb eb) as ->.
    { symmetry. apply key_inj; auto.
      destruct mu as [sm|sm| |sm mm em]; try discriminate; try reflexivity.
      cbn in K. destruct sb; discriminate. }
    exists false. unfold Num.sub. cbn [SFsub]. now rewrite Z.sub_diag.
Qed.

Lemma pow2_zero (s : bool) : Num.pow2 (S754_zero s) = Num.zero.
Proof. now destruct s. Qed.

(** ** How large a rounded result can be *)

Section Magnitude.

Let prec := Num.prec.
Let emax := Num.emax.

Lemma digits2_pos_size (p : positive) : digits2_pos p = Pos.size p.
Proof. induction p; cbn; congruence. Qed.

Lemma Zdigits2_log2 (m : Z) : 0 < m -> Zdigits2 m = Z.log2 m + 1.
Proof.
  destruct m as [|p|p]; try lia. intros _. cbn [Zdigits2].
  rewrite digits2_pos_size. destruct p; cbn; lia.
Qed.

Lemma Zdigits2_nonneg (m : Z) : 0 <= Zdigits2 m.
Proof. destruct m; cbn; lia. Qed.

Lemma Zdigits2_shiftr (m n : Z) :
  0 <= m -> 0 <= n -> Zdigits2 (Z.shiftr m n) <= Z.max 0 (Zdigits2 m - n).
Proof.
  intros Hm Hn.
  assert (Hs : 0 <= Z.shiftr m n) by now apply Z.shiftr_nonneg.
  destruct (Z.eq_dec (Z.shiftr m n) 0) as [E|E]; [rewrite E; cbn; lia|].
  assert (Hm' : 0 < m).
  { destruct (Z.eq_dec m 0) as [->|]; [|lia]. now rewrite Z.shiftr_0_l in E. }
  rewrite !Zdigits2_log2 by lia.
  rewrite Z.log2_shiftr by lia.
  assert (n <= Z.log2 m).
  { destruct (Z_le_gt_dec n (Z.log2 m)); auto.
    exfalso. apply E. apply Z.shiftr_eq_0; lia. }
  lia.
Qed.

Lemma Zdigits2_succ (m : Z) : 0 <= m -> Zdigits2 (m + 1) <= Zdigits2 m + 1.
Proof.
  intros H. destruct (Z.eq_dec m 0) as [->|N]; [cbn; lia|].
  rewrite !Zdigits2_log2 by lia.
  pose proof (Z.log2_succ_le m) as L.
  replace (m + 1) with (Z.succ m) by lia. lia.
Qed.


Lemma Zdigits2_upper (a : Z) : 0 <= a -> a < 2 ^ Zdigits2 a.
Proof.
  intros Ha. destruct (Z.eq_dec a 0) as [->|N]; [cbn; lia|].
  rewrite Zdigits2_log2 by lia.
  pose proof (Z.log2_spec a ltac:(lia)) as S.
  replace (Z.log2 a + 1) with (Z.succ (Z.log2 a)) by lia. lia.
Qed.

Lemma shr_1_m (r : shr_record) : 0 <= shr_m r -> shr_m (shr_1 r) = Z.shiftr (shr_m r) 1.
Proof.
  destruct r as [m rb sb]. cbn [shr_m]. intros H.
  rewrite <- Z.div2_spec. destruct m as [|[p|p|]|p]; cbn; try reflexivity; lia.
Qed.

Lemma iter_shr_1_m (n : positive) : forall r : shr_record,
  0 <= shr_m r -> shr_m (iter_pos shr_1 n r) = Z.shiftr (shr_m r) (Zpos n).
Proof.
  induction n as [n IH|n IH|]; intros r H; cbn [iter_pos].
  - rewrite IH by (apply iter_shr_1_nonneg; now apply shr_1_nonneg).
    rewrite IH by now apply shr_1_nonneg.
    rewrite shr_1_m by assumption.
    rewrite !Z.shiftr_shiftr by lia. f_equal. lia.
  - rewrite IH by now apply iter_shr_1_nonneg.
    rewrite IH by assumption.
    rewrite Z.shiftr_shiftr by lia. f_equal. lia.
  - now apply shr_1_m.
Qed.

(** One shift to the canonical exponent. *)
Lemma shr_fexp_spec (m e : Z) (l : location) :
  0 <= m ->
  let r := shr_fexp prec emax m e l in
  0 <= shr_m (fst r)
  /\ snd r = Z.max e (fexp prec emax (Zdigits2 m + e))
  /\ Zdigits2 (shr_m (fst r)) + snd r <= Z.max (snd r) (Zdigits2 m + e).
Proof.
  intros Hm r. subst r. unfold shr_fexp, shr.
  set (n := fexp prec emax (Zdigits2 m + e) - e).
  assert (R : shr_m (shr_record_of_loc m l) = m) by apply shr_record_of_loc_m.
  destruct n as [|p|p] eqn:En; cbn [fst snd].
  - rewrite R. split; [lia|]. split; lia.
  - rewrite iter_shr_1_m by (rewrite R; lia). rewrite R.
    split; [apply Z.shiftr_nonneg; lia|]. split; [lia|].
    pose proof (Zdigits2_shiftr m (Zpos p) Hm ltac:(lia)). lia.
  - rewrite R. split; [lia|]. split; lia.
Qed.

(** The result of a rounding: its sign, the size of its mantissa, and a
    bound on its exponent. *)
Lemma round_aux_shape (s : bool) (m e : Z) (l : location) :
  0 <= m ->
  let bound := Z.max (Z.max e (Zdigits2 m + e - 52)) (-1074) in
  match binary_round_aux prec emax s m e l with
  | S754_zero s' => s' = s
  | S754_infinity s' => s' = s /\ 971 < bound
  | S754_finite s' m' e' => s' = s /\ Zpos (digits2_pos m') <= 53 /\ e' <= bound
  | S754_nan => False
  end.
Proof.
  intros Hm bound. unfold binary_round_aux.
  destruct (shr_fexp_spec m e l Hm) as (P1 & E1 & D1).
  destruct (shr_fexp prec emax m e l) as [r1 e1]. cbn [fst snd] in P1, E1, D1.
  set (m2 := round_nearest_even (shr_m r1) (loc_of_shr_record r1)).
  assert (P2 : 0 <= m2) by now apply round_nearest_even_nonneg.
  assert (D2 : Zdigits2 m2 <= Zdigits2 (shr_m r1) + 1).
  { subst m2. unfold round_nearest_even.
    destruct (loc_of_shr_record r1) as [|[]]; try lia.
    - destruct (Z.even (shr_m r1)); [lia|now apply Zdigits2_succ].
    - now apply Zdigits2_succ. }
  destruct (shr_fexp_spec m2 e1 loc_Exact P2) as (P3 & E3 & D3).
  destruct (shr_fexp prec emax m2 e1 loc_Exact) as [r2 e2]. cbn [fst snd] in P3, E3, D3.
  unfold fexp, SpecFloat.emin in E1, E3.
  change prec with 53 in *. change emax with 1024 in *.
  destruct (shr_m r2) as [|p|p] eqn:Er; try lia.
  - reflexivity.
  - cbn [Zdigits2] in D3.
    destruct (e2 <=? 1024 - 53) eqn:L.
    + split; [reflexivity|]. subst bound. split; lia.
    + apply Z.leb_gt in L. split; [reflexivity|]. subst bound. lia.
Qed.

End Magnitude.

(** An integer between 1 and 2^53 - 1, as a number: a full mantissa and an
    exponent between -52 and 0. *)
Lemma of_Z_shape (p : positive) :
  Zpos p < 2 ^ 53 ->
  exists m e, Num.of_Z (Zpos p) = S754_finite false m e
              /\ Zpos (digits2_pos m) = 53 /\ -52 <= e <= 0.
Proof.
  intros H. pose proof (digits2_pos_small p H) as D.
  unfold Num.of_Z. cbn [binary_normalize]. unfold binary_round.
  set (d := digits2_pos p) in *.
  assert (F : fexp Num.prec Num.emax (Zpos d + 0) = Zpos d - 53).
  { unfold fexp, SpecFloat.emin, Num.prec, Num.emax. lia. }
  rewrite F. unfold shl_align.
  destruct (Zpos d - 53 - 0) as [|k|k] eqn:K; try lia.
  - exists p, 0. split; [|fold d; lia]. apply round_aux_canonical.
    + unfold canonical_mantissa. fold d. rewrite F. apply Z.eqb_eq. lia.
    + unfold Num.prec, Num.emax. lia.
  - exists (Pos.iter xO p k), (Zpos d - 53).
    assert (Dk : Zpos (digits2_pos (Pos.iter xO p k)) = 53).
    { rewrite digits2_pos_iter. fold d. lia. }
    split; [|lia]. apply round_aux_canonical.
    + unfold canonical_mantissa. rewrite Dk.
      apply Z.eqb_eq. unfold fexp, SpecFloat.emin, Num.prec, Num.emax. lia.
    + unfold Num.prec, Num.emax. lia.
Qed.





(** ** How small a rounded result can be *)

Lemma Zdigits2_shiftr_exact (m n : Z) :
  0 < m -> 0 <= n < Zdigits2 m ->
  0 < Z.shiftr m n /\ Zdigits2 (Z.shiftr m n) = Zdigits2 m - n.
Proof.
  intros Hm Hn. rewrite (Zdigits2_log2 m) in Hn by lia.
  assert (P : 0 < Z.shiftr m n).
  { assert (0 <= Z.shiftr m n) by (apply Z.shiftr_nonneg; lia).
    destruct (Z.eq_dec (Z.shiftr m n) 0) as [E|]; [|lia].
    apply Z.shiftr_eq_0_iff in E. destruct E as [E|[_ E]]; lia. }
  split; [exact P|].
  rewrite !Zdigits2_log2 by lia. rewrite Z.log2_shiftr by lia. lia.
Qed.

Lemma Zdigits2_mono (a b : Z) : 0 < a <= b -> Zdigits2 a <= Zdigits2 b.
Proof.
  intros H. rewrite !Zdigits2_log2 by lia.
  pose proof (Z.log2_le_mono a b ltac:(lia)). lia.
Qed.

Lemma Zdigits2_mul_pow2_Z (m j : Z) :
  0 < m -> 0 <= j -> Zdigits2 (m * 2 ^ j) = Zdigits2 m + j.
Proof.
  intros Hm Hj.
  rewrite Zdigits2_log2 by (apply Z.mul_pos_pos; [lia|apply Z.pow_pos_nonneg; lia]).
  rewrite Z.log2_mul_pow2 by lia. rewrite (Zdigits2_log2 m) by lia. lia.
Qed.

Lemma Zdigits2_lower (a : Z) : 0 < a -> 2 ^ (Zdigits2 a - 1) <= a.
Proof.
  intros H. rewrite Zdigits2_log2 by lia.
  replace (Z.log2 a + 1 - 1) with (Z.log2 a) by lia.
  apply Z.log2_spec. lia.
Qed.

Lemma Zdigits2_ge_pow2 (a k : Z) : 0 <= k -> 2 ^ k <= a -> k + 1 <= Zdigits2 a.
Proof.
  intros Hk H.
  assert (0 < a) by (pose proof (Z.pow_pos_nonneg 2 k); lia).
  rewrite Zdigits2_log2 by lia.
  assert (k <= Z.log2 a) by (apply Z.log2_le_pow2; lia). lia.
Qed.

Lemma shr_fexp_lower (m e : Z) (l : location) :
  0 < m -> -1073 <= Zdigits2 m + e ->
  let r := shr_fexp Num.prec Num.emax m e l in
  0 < shr_m (fst r)
  /\ snd r = Z.max e (fexp Num.prec Num.emax (Zdigits2 m + e))
  /\ Zdigits2 (shr_m (fst r)) + snd r = Zdigits2 m + e.
Proof.
  intros Hm HE r. subst r. unfold shr_fexp, shr.
  assert (R : shr_m (shr_record_of_loc m l) = m) by apply shr_record_of_loc_m.
  assert (F : fexp Num.prec Num.emax (Zdigits2 m + e)
              = Z.max (Zdigits2 m + e - 53) (-1074)) by reflexivity.
  destruct (fexp Num.prec Num.emax (Zdigits2 m + e) - e) as [|p|p] eqn:En;
    cbn [fst snd].
  - rewrite R. repeat split; lia.
  - rewrite iter_shr_1_m by (rewrite R; lia). rewrite R.
    destruct (Zdigits2_shiftr_exact m (Zpos p) Hm) as [P D]; [lia|].
    repeat split; lia.
  - rewrite R. repeat split; lia.
Qed.

Lemma large_weaken (B B' : Z) (x : number) : B' <= B -> large B x -> large B' x.
Proof. destruct x; cbn; auto. lia. Qed.

(** Rounding a quantity of at least half the smallest positive number of
    the format gives a non-zero result that is not smaller in scale. *)
Lemma round_aux_lower (s : bool) (m e : Z) (l : location) :
  0 < m -> -1073 <= Zdigits2 m + e ->
  signed s (binary_round_aux Num.prec Num.emax s m e l)
  /\ large (Zdigits2 m + e) (binary_round_aux Num.prec Num.emax s m e l).
Proof.
  intros Hm HE. split; [apply round_aux_signed; lia|].
  unfold binary_round_aux.
  destruct (shr_fexp_lower m e l Hm HE) as (P1 & E1 & D1).
  destruct (shr_fexp Num.prec Num.emax m e l) as [r1 e1]. cbn [fst snd] in P1, E1, D1.
  set (m2 := round_nearest_even (shr_m r1) (loc_of_shr_record r1)).
  assert (P2 : shr_m r1 <= m2).
  { subst m2. unfold round_nearest_even.
    destruct (loc_of_shr_record r1) as [|[]]; try lia.
    destruct (Z.even (shr_m r1)); lia. }
  pose proof (Zdigits2_mono (shr_m r1) m2 ltac:(lia)) as D2.
  destruct (shr_fexp_lower m2 e1 loc_Exact ltac:(lia) ltac:(lia)) as (P3 & E3 & D3).
  destruct (shr_fexp Num.prec Num.emax m2 e1 loc_Exact) as [r2 e2].
  cbn [fst snd] in P3, E3, D3.
  assert (F : fexp Num.prec Num.emax (Zdigits2 m2 + e1)
              = Z.max (Zdigits2 m2 + e1 - 53) (-1074)) by reflexivity.
  destruct (shr_m r2) as [|p|p] eqn:Er; try lia.
  cbn [Zdigits2] in D3.
  destruct (e2 <=? Num.emax - Num.prec); cbn [large]; [lia|exact I].
Qed.

(** Every finite result of a rounding has an exponent of the format and at
    most 53 bits. *)
Lemma round_aux_well_formed (s : bool) (m e : Z) (l : location) :
  0 <= m -> well_formed (binary_round_aux Num.prec Num.emax s m e l).
Proof.
  intros Hm.
  pose proof (round_aux_shape s m e l Hm) as S. cbv zeta in S.
  unfold binary_round_aux in *.
  destruct (shr_fexp_spec m e l Hm) as (P1 & E1 & D1).
  destruct (shr_fexp Num.prec Num.emax m e l) as [r1 e1]. cbn [fst snd] in P1, E1, D1.
  set (m2 := round_nearest_even (shr_m r1) (loc_of_shr_record r1)) in *.
  assert (P2 : 0 <= m2) by now apply round_nearest_even_nonneg.
  destruct (shr_fexp_spec m2 e1 loc_Exact P2) as (P3 & E3 & D3).
  destruct (shr_fexp Num.prec Num.emax m2 e1 loc_Exact) as [r2 e2].
  cbn [fst snd] in P3, E3, D3.
  assert (F : fexp Num.prec Num.emax (Zdigits2 m2 + e1)
              = Z.max (Zdigits2 m2 + e1 - 53) (-1074)) by reflexivity.
  destruct (shr_m r2) as [|p|p]; cbn [well_formed]; auto.
  destruct (e2 <=? Num.emax - Num.prec); cbn [well_formed]; auto.
  destruct S as (_ & S & _). split; [exact S|lia].
Qed.

Lemma iter_xO_value (p k : positive) : Zpos (Pos.iter xO p k) = Zpos p * 2 ^ Zpos k.
Proof.
  induction k as [|k IH] using Pos.peano_ind.
  - cbn. lia.
  - rewrite Pos.iter_succ, Pos2Z.inj_xO, IH, Pos2Z.inj_succ, Z.pow_succ_r by lia. ring.
Qed.

Lemma shl_align_value (m : positive) (e e' : Z) :
  e' <= e ->
  Zpos (fst (shl_align m e e')) = Zpos m * 2 ^ (e - e')
  /\ snd (shl_align m e e') = e'.
Proof.
  intros H. unfold shl_align.
  destruct (e' - e) as [|d|d] eqn:E; cbn [fst snd]; try lia.
  - replace (e - e') with 0 by lia. split; lia.
  - rewrite iter_xO_value. replace (e - e') with (Zpos d) by lia. split; reflexivity.
Qed.

(** [binary_round] on a quantity of at least half the smallest positive
    number of the format. *)
Lemma round_lower (s : bool) (p : positive) (e : Z) :
  -1073 <= Zpos (digits2_pos p) + e ->
  signed s (binary_round Num.prec Num.emax s p e)
  /\ large (Zpos (digits2_pos p) + e) (binary_round Num.prec Num.emax s p e).
Proof.
  intros HE. unfold binary_round.
  set (f := fexp Num.prec Num.emax (Zpos (digits2_pos p) + e)).
  destruct (Z_le_gt_dec f e) as [L|G].
  - destruct (shl_align_value p e f L) as [V1 V2].
    destruct (shl_align p e f) as [mz ez]. cbn [fst snd] in V1, V2. subst ez.
    assert (D : Zdigits2 (Zpos mz) + f = Zpos (digits2_pos p) + e).
    { rewrite V1, Zdigits2_mul_pow2_Z by lia. cbn [Zdigits2]. lia. }
    rewrite <- D. apply round_aux_lower; lia.
  - unfold shl_align. destruct (f - e) as [|d|d] eqn:E; try lia.
    apply (round_aux_lower s (Zpos p) e loc_Exact); [lia|exact HE].
Qed.

(** ** The operations of [sd] on numbers that are not too small *)

Lemma eqb_zero_iff (x : number) : Num.eqb x Num.zero = true <-> is_zero x = true.
Proof.
  destruct x as [s|s| |s m e]; cbn; split; intros H; try discriminate; auto;
    destruct s; discriminate.
Qed.

Lemma large_not_zero (B : Z) (x : number) : large B x -> is_zero x = false.
Proof. destruct x; cbn; tauto. Qed.

Lemma large_eqb_zero (B : Z) (x : number) : large B x -> Num.eqb x Num.zero = false.
Proof.
  intros H. destruct (Num.eqb x Num.zero) eqn:E; [|reflexivity].
  apply eqb_zero_iff in E. rewrite (large_not_zero B x H) in E. discriminate.
Qed.

Lemma valid_well_formed (x : number) : Num.valid x = true -> well_formed x.
Proof.
  destruct x as [s|s| |s m e]; cbn [well_formed]; auto.
  unfold Num.valid, valid_binary, bounded, canonical_mantissa. intros H.
  apply andb_true_iff in H. destruct H as [C _]. apply Z.eqb_eq in C.
  unfold fexp, SpecFloat.emin, Num.prec, Num.emax in C. lia.
Qed.

(** The difference of two finite numbers is zero only if they have the same
    sign and the same value; otherwise it is at least one unit of the smaller
    exponent. *)
Lemma sub_finite (sx sy : bool) (mx my : positive) (ex ey : Z) :
  -1074 <= ex -> -1074 <= ey ->
  let d := Num.sub (S754_finite sx mx ex) (S754_finite sy my ey) in
  (is_zero d = true
   /\ same_value (S754_finite sx mx ex) (S754_finite sy my ey))
  \/ large (Z.min ex ey + 1) d.
Proof.
  intros Hx Hy d. subst d. unfold Num.sub. cbn [SFsub].
  set (ez := Z.min ex ey).
  destruct (shl_align_value mx ex ez ltac:(lia)) as [Vx _].
  destruct (shl_align_value my ey ez ltac:(lia)) as [Vy _].
  set (a := fst (shl_align mx ex ez)) in *. set (b := fst (shl_align my ey ez)) in *.
  destruct (cond_Zopp sx (Zpos a) - cond_Zopp sy (Zpos b)) as [|p|p] eqn:E;
    cbn [binary_normalize].
  - left. split; [reflexivity|]. cbn [same_value].
    assert (S : sx = sy /\ Zpos a = Zpos b).
    { destruct sx, sy; cbn [cond_Zopp] in E;
        [split; [reflexivity|lia]|exfalso; lia|exfalso; lia|split; [reflexivity|lia]]. }
    destruct S as [-> S]. split; [reflexivity|].
    rewrite Vx, Vy in S.
    replace (ex + 1074) with ((ex - ez) + (ez + 1074)) by lia.
    replace (ey + 1074) with ((ey - ez) + (ez + 1074)) by lia.
    assert (0 <= ex - ez /\ 0 <= ey - ez /\ 0 <= ez + 1074) as (B1 & B2 & B3)
      by (subst ez; lia).
    rewrite (Z.pow_add_r 2 (ex - ez)), (Z.pow_add_r 2 (ey - ez)) by assumption.
    rewrite !Z.mul_assoc, S. reflexivity.
  - right. eapply large_weaken; [|apply round_lower]; lia.
  - right. eapply large_weaken; [|apply round_lower]; lia.
Qed.

(** The product of two finite numbers. *)
Lemma mul_finite (sx sy : bool) (mx my : positive) (ex ey : Z) :
  -1072 <= (Zpos (digits2_pos mx) + ex) + (Zpos (digits2_pos my) + ey) ->
  large ((Zpos (digits2_pos mx) + ex) + (Zpos (digits2_pos my) + ey) - 1)
        (Num.mul (S754_finite sx mx ex) (S754_finite sy my ey)).
Proof.
  intros H. unfold Num.mul. cbn [SFmul].
  assert (D : Zpos (digits2_pos mx) + Zpos (digits2_pos my) - 1
              <= Zdigits2 (Zpos (mx * my))).
  { change (Zpos (digits2_pos mx)) with (Zdigits2 (Zpos mx)).
    change (Zpos (digits2_pos my)) with (Zdigits2 (Zpos my)).
    rewrite !Zdigits2_log2 by lia. rewrite Pos2Z.inj_mul.
    pose proof (Z.log2_mul_below (Zpos mx) (Zpos my) ltac:(lia) ltac:(lia)). lia. }
  eapply large_weaken; [|apply round_aux_lower]; lia.
Qed.

(** The sum of two positive finite numbers. *)
Lemma add_finite (mx my : positive) (ex ey : Z) :
  -1074 <= ex -> -1074 <= ey ->
  let r := Num.add (S754_finite false mx ex) (S754_finite false my ey) in
  signed false r
  /\ large (Z.max (Zpos (digits2_pos mx) + ex) (Zpos (digits2_pos my) + ey)) r.
Proof.
  intros Hx Hy r. subst r. unfold Num.add. cbn [SFadd cond_Zopp].
  set (ez := Z.min ex ey).
  destruct (shl_align_value mx ex ez ltac:(lia)) as [Vx _].
  destruct (shl_align_value my ey ez ltac:(lia)) as [Vy _].
  set (a := fst (shl_align mx ex ez)) in *. set (b := fst (shl_align my ey ez)) in *.
  change (Zpos a + Zpos b) with (Zpos (a + b)). cbn [binary_normalize].
  assert (Da : Zdigits2 (Zpos a) = Zpos (digits2_pos mx) + (ex - ez)).
  { rewrite Vx, Zdigits2_mul_pow2_Z by lia. reflexivity. }
  assert (Db : Zdigits2 (Zpos b) = Zpos (digits2_pos my) + (ey - ez)).
  { rewrite Vy, Zdigits2_mul_pow2_Z by lia. reflexivity. }
  pose proof (Zdigits2_mono (Zpos a) (Zpos (a + b)) ltac:(lia)) as Ma.
  pose proof (Zdigits2_mono (Zpos b) (Zpos (a + b)) ltac:(lia)) as Mb.
  cbn [Zdigits2] in *.
  destruct (round_lower false (a + b) ez) as [S L]; [lia|].
  split; [exact S|]. eapply large_weaken; [|exact L]. lia.
Qed.

Lemma zero_or_large_not_nan (B : Z) (x : number) :
  zero_or_large B x -> Num.isNaN x = false.
Proof. destruct x; cbn; auto. intros [H|[[] _]]. discriminate H. Qed.

(** Sums of zeros and of positive numbers that are not small: the sum is
    of that kind, and it is zero only if both terms are. *)
Lemma add_zero_or_large (B : Z) (a b : number) :
  -1073 <= B -> zero_or_large B a -> zero_or_large B b ->
  zero_or_large B (Num.add a b)
  /\ (is_zero (Num.add a b) = true -> is_zero a = true /\ is_zero b = true).
Proof.
  intros HB Ha Hb. unfold zero_or_large in *.
  destruct a as [sa|sa| |sa ma ea], b as [sb|sb| |sb mb eb];
    cbn [is_zero signed large] in Ha, Hb;
    try (destruct Ha as [Ha|[Ha _]]; [discriminate Ha|contradiction]);
    try (destruct Hb as [Hb|[Hb _]]; [discriminate Hb|contradiction]).
  - (* zero, zero *)
    split; [left; destruct sa, sb; reflexivity|auto].
  - (* zero, infinity *)
    destruct Hb as [Hb|[Hb _]]; [discriminate|]. subst sb.
    split; [right; cbn; auto|discriminate].
  - (* zero, finite *)
    destruct Hb as [Hb|[Hb1 Hb2]]; [discriminate|]. subst sb.
    split; [right; cbn; auto|discriminate].
  - (* infinity, zero *)
    destruct Ha as [Ha|[Ha _]]; [discriminate|]. subst sa.
    split; [right; cbn; auto|discriminate].
  - (* infinity, infinity *)
    destruct Ha as [Ha|[Ha _]]; [discriminate|]. subst sa.
    destruct Hb as [Hb|[Hb _]]; [discriminate|]. subst sb.
    split; [right; cbn; auto|discriminate].
  - (* infinity, finite *)
    destruct Ha as [Ha|[Ha _]]; [discriminate|]. subst sa.
    split; [right; cbn; auto|discriminate].
  - (* finite, zero *)
    destruct Ha as [Ha|[Ha1 Ha2]]; [discriminate|]. subst sa.
    split; [right; cbn; auto|discriminate].
  - (* finite, infinity *)
    destruct Hb as [Hb|[Hb _]]; [discriminate|]. subst sb.
    split; [right; cbn; auto|discriminate].
  - (* finite, finite *)
    destruct Ha as [Ha|[Ha1 [Ha2 Ha3]]]; [discriminate|]. subst sa.
    destruct Hb as [Hb|[Hb1 [Hb2 Hb3]]]; [discriminate|]. subst sb.
    destruct (add_finite ma mb ea eb Ha3 Hb3) as [S L].
    assert (L' : large B (Num.add (S754_finite false ma ea) (S754_finite false mb eb)))
      by (eapply large_weaken; [|exact L]; lia).
    split; [right; split; assumption|].
    intros Z. rewrite (large_not_zero _ _ L') in Z. discriminate Z.
Qed.

Lemma sum_zero_or_large (B : Z) (ts : list number) : forall acc,
  -1073 <= B -> zero_or_large B acc -> Forall (zero_or_large B) ts ->
  zero_or_large B (fold_left Num.add ts acc)
  /\ (is_zero (fold_left Num.add ts acc) = true ->
      is_zero acc = true /\ Forall (fun t => is_zero t = true) ts).
Proof.
  induction ts as [|t ts IH]; intros acc HB Ha Ht; cbn [fold_left].
  - split; auto.
  - inversion Ht as [|? ? H1 H2]; subst.
    destruct (add_zero_or_large B acc t HB Ha H1) as [Z1 Z2].
    destruct (IH (Num.add acc t) HB Z1 H2) as [Z3 Z4].
    split; [exact Z3|].
    intros Z. destruct (Z4 Z) as [Z5 Z6]. destruct (Z2 Z5) as [Z7 Z8].
    split; [exact Z7|]. constructor; assumption.
Qed.

(** The quotient of two finite numbers, the divisor positive. *)
Lemma div_finite (sx : bool) (mx my : positive) (ex ey : Z) :
  let D := (Zpos (digits2_pos mx) + ex) - (Zpos (digits2_pos my) + ey) in
  -1073 <= D ->
  large D (Num.div (S754_finite sx mx ex) (S754_finite false my ey)).
Proof.
  intros D HD. unfold Num.div. cbn [SFdiv]. unfold SFdiv_core_binary.
  cbn [Zdigits2]. fold D.
  set (dx := Zpos (digits2_pos mx)) in *. set (dy := Zpos (digits2_pos my)) in *.
  assert (F : fexp Num.prec Num.emax D = Z.max (D - 53) (-1074)) by reflexivity.
  set (e' := Z.min (fexp Num.prec Num.emax D) (ex - ey)).
  assert (He' : e' <= ex - ey /\ e' <= Z.max (D - 53) (-1074)) by (subst e'; lia).
  set (k := dx - 1 + (ex - ey - e') - dy).
  assert (Hk : 0 <= k) by (subst k D; lia).
  assert (M : Zpos mx * 2 ^ (ex - ey - e')
              = match ex - ey - e' with
                | 0 => Zpos mx
                | Zpos _ => Z.shiftl (Zpos mx) (ex - ey - e')
                | Zneg _ => 0
                end).
  { destruct (ex - ey - e') as [|s|s] eqn:Es; try lia.
    rewrite Z.shiftl_mul_pow2 by lia. reflexivity. }
  rewrite <- M.
  pose proof (Z_div_mod (Zpos mx * 2 ^ (ex - ey - e')) (Zpos my) eq_refl) as Hq.
  destruct (Z.div_eucl (Zpos mx * 2 ^ (ex - ey - e')) (Zpos my)) as [q r].
  destruct Hq as [Hq Hr].
  assert (Q : 2 ^ k <= q).
  { pose proof (Zdigits2_lower (Zpos mx) ltac:(lia)) as Lx. cbn [Zdigits2] in Lx. fold dx in Lx.
    pose proof (Zdigits2_upper (Zpos my) ltac:(lia)) as Uy. cbn [Zdigits2] in Uy. fold dy in Uy.
    assert (P1 : 2 ^ (dx - 1) * 2 ^ (ex - ey - e') = 2 ^ k * 2 ^ dy).
    { rewrite <- !Z.pow_add_r by (subst dx dy; lia). f_equal. subst k. lia. }
    assert (P2 : 0 < 2 ^ (ex - ey - e')) by (apply Z.pow_pos_nonneg; lia).
    assert (P3 : 0 < 2 ^ k) by (apply Z.pow_pos_nonneg; lia).
    assert (P4 : 2 ^ k * Zpos my < Zpos mx * 2 ^ (ex - ey - e')) by nia.
    destruct (Z_le_gt_dec (2 ^ k) q) as [|G]; [assumption|]. exfalso. nia. }
  pose proof (Zdigits2_ge_pow2 q k Hk Q) as Dq.
  assert (Q0 : 0 < q) by (pose proof (Z.pow_pos_nonneg 2 k); lia).
  replace (xorb sx false) with sx by now destruct sx.
  eapply large_weaken; [|apply round_aux_lower]; [|exact Q0|]; subst k D; lia.
Qed.

(** The square root of a positive finite number is not zero. *)
Lemma sqrt_finite (m : positive) (e : Z) :
  -1074 <= e -> large (-1073) (Num.sqrt (S754_finite false m e)).
Proof.
  intros He. unfold Num.sqrt. cbn [SFsqrt]. unfold SFsqrt_core_binary.
  set (f := fexp Num.prec Num.emax (Z.div2 (Zdigits2 (Zpos m) + e + 1))).
  assert (F : -1074 <= f) by (subst f; unfold fexp, SpecFloat.emin, Num.prec, Num.emax; lia).
  set (e' := Z.min f (Z.div2 e)).
  assert (D2 : 2 * Z.div2 e <= e /\ -537 <= Z.div2 e).
  { rewrite Z.div2_div. pose proof (Z.div_mod e 2 ltac:(lia)).
    pose proof (Z.mod_pos_bound e 2 ltac:(lia)). lia. }
  assert (He' : -1074 <= e' /\ 2 * e' <= e) by (subst e'; lia).
  assert (M : Zpos m * 2 ^ (e - 2 * e')
              = match e - 2 * e' with
                | 0 => Zpos m
                | Zpos _ => Z.shiftl (Zpos m) (e - 2 * e')
                | Zneg _ => 0
                end).
  { destruct (e - 2 * e') as [|s|s] eqn:Es; try lia.
    rewrite Z.shiftl_mul_pow2 by lia. reflexivity. }
  rewrite <- M.
  assert (P : 0 < Zpos m * 2 ^ (e - 2 * e'))
    by (apply Z.mul_pos_pos; [lia|apply Z.pow_pos_nonneg; lia]).
  pose proof (Z.sqrtrem_spec (Zpos m * 2 ^ (e - 2 * e')) ltac:(lia)) as Hs.
  destruct (Z.sqrtrem (Zpos m * 2 ^ (e - 2 * e'))) as [q r].
  assert (Q0 : 0 < q) by nia.
  assert (Dq : 1 <= Zdigits2 q) by (rewrite Zdigits2_log2 by lia; pose proof (Z.log2_nonneg q); lia).
  eapply large_weaken; [|apply round_aux_lower]; [|exact Q0|]; lia.
Qed.

(** The square root is zero only at zero. *)
Lemma sqrt_zero (x : number) :
  signed false x -> well_formed x -> is_zero (Num.sqrt x) = true -> is_zero x = true.
Proof.
  destruct x as [s|s| |s m e]; cbn [signed well_formed]; try tauto.
  - intros -> _ H. discriminate H.
  - intros -> [_ He] H. rewrite (large_not_zero _ _ (sqrt_finite m e He)) in H.
    discriminate H.
Qed.

(** A quotient by a positive finite number is well formed. *)
Lemma div_well_formed (x : number) (m : positive) (e : Z) :
  well_formed (Num.div x (S754_finite false m e)).
Proof.
  unfold Num.div. destruct x as [sx|sx| |sx mx ex]; cbn [SFdiv well_formed]; auto.
  unfold SFdiv_core_binary.
  set (e' := Z.min _ _).
  set (m' := match _ - e' with Z0 => _ | Zpos _ => _ | Zneg _ => _ end).
  assert (Hm : 0 <= m').
  { subst m'. destruct (ex - e - e'); try lia. apply Z.shiftl_nonneg. lia. }
  pose proof (Z_div_mod m' (Zpos m) eq_refl) as Hd.
  destruct (Z.div_eucl m' (Zpos m)) as [q r].
  apply round_aux_well_formed. nia.
Qed.

(** The length of a list, as a number. *)
Lemma of_nat_shape (n : nat) :
  (0 < n)%nat -> Z.of_nat n < 2 ^ 53 ->
  exists m e, Num.of_nat n = S754_finite false m e
              /\ Zpos (digits2_pos m) = 53 /\ -52 <= e <= 0.
Proof.
  intros H0 H. unfold Num.of_nat.
  destruct (Z.of_nat n) as [|p|p] eqn:E; try lia.
  now apply of_Z_shape.
Qed.

(** Quotients by a length keep what is zero and what is not small. *)
Lemma div_zero_or_large (B : Z) (x : number) (m : positive) (e : Z) :
  Zpos (digits2_pos m) = 53 -> -52 <= e <= 0 -> -1020 <= B ->
  zero_or_large B x ->
  zero_or_large (B - 53) (Num.div x (S754_finite false m e)).
Proof.
  intros Dm He HB [Z|[S L]].
  - left. destruct x; try discriminate Z. reflexivity.
  - right. split; [now apply div_signed|].
    destruct x as [sx|sx| |sx mx ex]; cbn [large] in L; try contradiction.
    + exact I.
    + destruct L as [L1 L2].
      eapply large_weaken; [|apply div_finite]; cbv zeta; lia.
Qed.

(** ** The standard deviation *)

Lemma leb_zero_signed (x : number) : signed false x -> Num.leb Num.zero x = true.
Proof.
  destruct x as [s|s| |s m e]; cbn [signed]; try tauto; intros ->; reflexivity.
Qed.

Lemma mean_not_nan (xs : list number) :
  xs <> [] -> Z.of_nat (List.length xs) < 2 ^ 53 ->
  Forall (fun x => Num.isFinite x = true) xs ->
  Num.isNaN (mean xs) = false.
Proof.
  intros Hne Hl Hf. unfold mean.
  destruct (of_nat_finite (List.length xs)) as (m & e & E); auto.
  { destruct xs; [congruence|cbn; lia]. }
  rewrite E. apply div_not_nan. now apply sum_finite_not_nan.
Qed.

Lemma squares_signed (mu : number) (xs : list number) : forall acc,
  Num.isNaN mu = false -> signed false acc ->
  Forall (fun x => Num.isFinite x = true) xs ->
  signed false (fold_left (fun a b => Num.add a (Num.pow2 (Num.sub b mu))) xs acc).
Proof.
  induction xs as [|x xs IH]; intros acc Hm Ha Hx; cbn [fold_left]; auto.
  inversion Hx; subst. apply IH; auto.
  apply add_signed; auto. apply pow2_signed. now apply sub_finite_not_nan.
Qed.

Lemma squares_zero (mu : number) (xs : list number) :
  Forall (fun x => Num.isFinite x = true) xs ->
  Forall (fun x => Num.eqb x mu = true) xs ->
  fold_left (fun a b => Num.add a (Num.pow2 (Num.sub b mu))) xs Num.zero = Num.zero.
Proof.
  induction xs as [|x xs IH]; intros Hf He; cbn [fold_left]; auto.
  inversion Hf; subst. inversion He; subst.
  destruct (sub_eqb_zero x mu) as [s ->]; auto.
  rewrite pow2_zero. change (Num.add Num.zero Num.zero) with Num.zero. auto.
Qed.

(** The mean of a single grade is that grade. *)
Lemma mean_single (g : number) :
  Num.isFinite g = true -> Num.valid g = true -> Num.eqb g (mean [g]) = true.
Proof.
  intros F V. unfold mean. cbn [fold_left List.length].
  destruct g as [s|s| |s m e]; try discriminate.
  - now destruct s.
  - change (Num.add Num.zero (S754_finite s m e)) with (S754_finite s m e).
    rewrite div_one by exact V.
    apply eqb_iff. repeat split; reflexivity.
Qed.

(** C6, as stated, fails in both directions: three grades 0.1 are all equal
    but their computed mean is 0.10000000000000002 and sd is about 1.4e-17,
    not 0; the grades 0 and 1e-200 differ but the squared deviations
    underflow and sd is 0. *)
Lemma sd_zero_iff_all_equal_fails :
  ~ (Num.eqb (sd tenths) Num.zero = true <-> all_equal tenths = true)
  /\ ~ (Num.eqb (sd tiny_pair) Num.zero = true <-> all_equal tiny_pair = true).
Proof.
  split.
  - intros [_ H].
    assert (E : all_equal tenths = true) by (vm_compute; reflexivity).
    specialize (H E). vm_compute in H. discriminate H.
  - intros [H _].
    assert (E : Num.eqb (sd tiny_pair) Num.zero = true) by (vm_compute; reflexivity).
    specialize (H E). vm_compute in H. discriminate H.
Qed.

(** ** When the standard deviation is zero *)

Lemma fold_left_terms {A B C} (f : A -> C -> A) (g : B -> C) (xs : list B) : forall acc,
  fold_left (fun a b => f a (g b)) xs acc = fold_left f (map g xs) acc.
Proof. induction xs as [|x xs IH]; intros acc; cbn [fold_left map]; auto. Qed.

Lemma squares_terms (xs : list number) :
  squares xs = fold_left Num.add (map (fun g => Num.pow2 (Num.sub g (mean xs))) xs) Num.zero.
Proof. unfold squares. apply fold_left_terms. Qed.

Lemma sd_squares (xs : list number) :
  sd xs = Num.sqrt (Num.div (squares xs) (Num.of_nat (List.length xs))).
Proof. reflexivity. Qed.

Lemma signed_zero_or_large (x : number) :
  signed false x -> well_formed x -> zero_or_large (-1073) x.
Proof.
  destruct x as [s|s| |s m e]; cbn [signed well_formed]; try tauto.
  - intros _ _. left. reflexivity.
  - intros -> _. right. cbn [signed large]. auto.
  - intros -> [D E]. right. cbn [signed large].
    split; [reflexivity|]. split; lia.
Qed.

Lemma pow2_well_formed (d : number) : well_formed (Num.pow2 d).
Proof.
  unfold Num.pow2, Num.mul. destruct d as [s|s| |s m e]; cbn [SFmul well_formed]; auto.
  apply round_aux_well_formed. lia.
Qed.

Lemma mean_well_formed (xs : list number) :
  xs <> [] -> Z.of_nat (List.length xs) < 2 ^ 53 -> well_formed (mean xs).
Proof.
  intros Hne Hl. unfold mean.
  destruct (of_nat_shape (List.length xs)) as (m & e & -> & _); auto.
  { destruct xs; [congruence|cbn; lia]. }
  apply div_well_formed.
Qed.

(** A deviation is zero only between a grade and a mean of the same sign
    and value. *)
Lemma sub_zero_same_value (g mu : number) :
  well_formed g -> well_formed mu ->
  is_zero (Num.sub g mu) = true -> same_value g mu.
Proof.
  unfold Num.sub.
  destruct g as [sg|sg| |sg mg eg], mu as [sm|sm| |sm mm em];
    cbn [SFsub well_formed same_value is_zero]; intros Wg Wm H; auto;
    try discriminate H; try (destruct sg, sm; discriminate H).
  destruct Wg as [_ Wg], Wm as [_ Wm].
  destruct (sub_finite sg sm mg mm eg em Wg Wm) as [[_ S]|L]; [exact S|].
  apply large_not_zero in L. unfold Num.sub in L. cbn [SFsub] in L.
  rewrite L in H. discriminate H.
Qed.

(** Two numbers of the format with the same sign and value are the same. *)
Lemma canonical_unique (m1 m2 : positive) (e1 e2 : Z) :
  canonical_mantissa Num.prec Num.emax m1 e1 = true ->
  canonical_mantissa Num.prec Num.emax m2 e2 = true ->
  Zpos m1 * 2 ^ (e1 + 1074) = Zpos m2 * 2 ^ (e2 + 1074) ->
  m1 = m2 /\ e1 = e2.
Proof.
  unfold canonical_mantissa, fexp, SpecFloat.emin, Num.prec, Num.emax.
  intros C1 C2 V. apply Z.eqb_eq in C1, C2.
  assert (D : Zdigits2 (Zpos m1 * 2 ^ (e1 + 1074)) = Zdigits2 (Zpos m2 * 2 ^ (e2 + 1074)))
    by now rewrite V.
  rewrite !Zdigits2_mul_pow2_Z in D by lia. cbn [Zdigits2] in D.
  assert (E : e1 = e2) by lia. subst e2. split; [|reflexivity].
  assert (P : 0 < 2 ^ (e1 + 1074)) by (apply Z.pow_pos_nonneg; lia).
  assert (Zpos m1 = Zpos m2) by nia. congruence.
Qed.

Lemma same_value_eqb (g1 g2 mu : number) :
  Num.valid g1 = true -> Num.valid g2 = true ->
  same_value g1 mu -> same_value g2 mu -> Num.eqb g1 g2 = true.
Proof.
  destruct g1 as [s1|s1| |s1 m1 e1], mu as [sm|sm| |sm mm em];
    cbn [same_value]; try tauto;
    destruct g2 as [s2|s2| |s2 m2 e2]; cbn [same_value]; try tauto.
  all: try (intros _ _ _ _; reflexivity).
  unfold Num.valid, valid_binary, bounded. intros V1 V2 [-> E1] [-> E2].
  apply andb_true_iff in V1, V2. destruct V1 as [C1 _], V2 as [C2 _].
  destruct (canonical_unique m1 m2 e1 e2 C1 C2) as [-> ->]; [congruence|].
  apply eqb_iff. repeat split; reflexivity.
Qed.

(** The deviations as [sd] sees them. *)
Lemma squares_zero_or_large (xs : list number) :
  xs <> [] -> Z.of_nat (List.length xs) < 2 ^ 53 ->
  Forall (fun x => Num.isFinite x = true) xs ->
  Forall (zero_or_large (-1073))
         (map (fun g => Num.pow2 (Num.sub g (mean xs))) xs).
Proof.
  intros Hne Hl Hf. apply Forall_forall. intros t Ht.
  apply in_map_iff in Ht. destruct Ht as (g & <- & Hg).
  rewrite Forall_forall in Hf.
  apply signed_zero_or_large; [|apply pow2_well_formed].
  apply pow2_signed. apply sub_finite_not_nan; [now apply Hf|].
  now apply mean_not_nan; [| |apply Forall_forall].
Qed.

Lemma sd_zero_all_equal (xs : list number) :
  xs <> [] -> Z.of_nat (List.length xs) < 2 ^ 53 ->
  Forall (fun x => Num.isFinite x = true) xs ->
  Forall (fun x => Num.valid x = true) xs ->
  no_underflow xs = true -> Num.eqb (sd xs) Num.zero = true ->
  all_equal xs = true.
Proof.
  intros Hne Hl Hf Hv Hn Hz.
  unfold no_underflow in Hn. cbv zeta in Hn.
  apply andb_true_iff in Hn. destruct Hn as [Hn1 Hn2].
  rewrite forallb_forall in Hn1.
  pose proof (mean_well_formed xs Hne Hl) as Wm.
  destruct (of_nat_shape (List.length xs)) as (mn & en & En & Dn & Rn); auto.
  { destruct xs; [congruence|cbn; lia]. }
  (* the sum of the squares *)
  pose proof (squares_zero_or_large xs Hne Hl Hf) as Ht.
  destruct (sum_zero_or_large (-1073) _ Num.zero ltac:(lia)
              (or_introl eq_refl) Ht) as [Q1 Q2].
  rewrite <- squares_terms in Q1, Q2.
  (* the quotient is zero *)
  assert (R0 : is_zero (Num.div (squares xs) (Num.of_nat (List.length xs))) = true).
  { apply eqb_zero_iff in Hz. rewrite sd_squares in Hz. rewrite En in *.
    destruct Q1 as [Z|[S _]].
    - destruct (squares xs); try discriminate Z. reflexivity.
    - apply sqrt_zero; [now apply div_signed|apply div_well_formed|exact Hz]. }
  (* so the sum is *)
  apply eqb_zero_iff in R0. rewrite R0 in Hn2. cbn [implb] in Hn2.
  apply eqb_zero_iff in Hn2.
  destruct (Q2 Hn2) as [_ Hq]. rewrite Forall_forall in Hq.
  (* so every deviation is *)
  assert (Hs : forall g, In g xs -> same_value g (mean xs)).
  { intros g Hg.
    assert (Zq : is_zero (Num.pow2 (Num.sub g (mean xs))) = true)
      by (apply Hq; apply in_map_iff; eauto).
    specialize (Hn1 g Hg). apply eqb_zero_iff in Zq. rewrite Zq in Hn1.
    cbn [implb] in Hn1. apply eqb_zero_iff in Hn1.
    apply sub_zero_same_value; auto.
    apply valid_well_formed. rewrite Forall_forall in Hv. now apply Hv. }
  rewrite Forall_forall in Hv.
  destruct xs as [|x r]; [reflexivity|]. cbn [all_equal].
  apply forallb_forall. intros y Hy.
  apply (same_value_eqb x y (mean (x :: r))); auto;
    try apply Hv; try apply Hs; cbn [In]; auto.
Qed.

(** ** Grades of ordinary size do not underflow *)

Lemma at_least_weaken (b b' : Z) (x : number) :
  b' <= b -> at_least b x = true -> at_least b' x = true.
Proof.
  destruct x as [s|s| |s m e]; cbn [at_least]; auto.
  intros H L. apply Z.ltb_lt in L. apply Z.ltb_lt. lia.
Qed.

(** A deviation is zero or not small. *)
Lemma deviation_kind (b : Z) (g mu : number) :
  -1020 <= b -> Num.isFinite g = true ->
  well_formed g -> well_formed mu ->
  at_least b g = true -> at_least b mu = true ->
  is_zero (Num.sub g mu) = true \/ large (b - 51) (Num.sub g mu).
Proof.
  intros Hb Fg Wg Wm Ag Am. unfold Num.sub.
  destruct g as [sg|sg| |sg mg eg], mu as [sm|sm| |sm mm em];
    try discriminate Fg; try discriminate Am;
    cbn [SFsub well_formed at_least] in *.
  - left. destruct sg, sm; reflexivity.
  - right. exact I.
  - right. apply Z.ltb_lt in Am. cbn [large]. destruct Wm. split; lia.
  - right. apply Z.ltb_lt in Ag. cbn [large]. destruct Wg. split; lia.
  - right. exact I.
  - apply Z.ltb_lt in Ag, Am. destruct Wg as [Dg Eg], Wm as [Dm Em].
    destruct (sub_finite sg sm mg mm eg em Eg Em) as [[Z _]|L].
    + left. exact Z.
    + right. eapply large_weaken; [|exact L]. lia.
Qed.

(** The square of a deviation that is zero or not small. *)
Lemma pow2_kind (B : Z) (d : number) :
  -536 <= B -> Num.isNaN d = false ->
  is_zero d = true \/ large B d ->
  zero_or_large (2 * B - 1) (Num.pow2 d)
  /\ (is_zero (Num.pow2 d) = true -> is_zero d = true).
Proof.
  intros HB Hn H.
  destruct d as [s|s| |s m e]; try discriminate Hn.
  - split; [left; reflexivity|auto].
  - split; [|discriminate]. right. unfold Num.pow2, Num.mul. cbn [SFmul].
    replace (xorb s s) with false by now destruct s. cbn. auto.
  - destruct H as [H|[L1 L2]]; [discriminate H|].
    assert (L : large (2 * B - 1) (Num.pow2 (S754_finite s m e))).
    { eapply large_weaken; [|apply mul_finite]; lia. }
    split.
    + right. split; [now apply pow2_signed|exact L].
    + intros Z. rewrite (large_not_zero _ _ L) in Z. discriminate Z.
Qed.

Lemma div_large (B : Z) (x : number) (m : positive) (e : Z) :
  Zpos (digits2_pos m) = 53 -> -52 <= e <= 0 -> -1020 <= B ->
  large B x -> large (B - 53) (Num.div x (S754_finite false m e)).
Proof.
  intros Dm He HB L.
  destruct x as [sx|sx| |sx mx ex]; cbn [large] in L; try contradiction.
  - exact I.
  - destruct L as [L1 L2].
    eapply large_weaken; [|apply div_finite]; cbv zeta; lia.
Qed.

Lemma ordinary_no_underflow (xs : list number) :
  xs <> [] -> Z.of_nat (List.length xs) < 2 ^ 53 ->
  Forall (fun x => Num.isFinite x = true) xs ->
  Forall (fun x => Num.valid x = true) xs ->
  Forall (fun x => at_least (-400) x = true) xs ->
  at_least (-400) (mean xs) = true ->
  no_underflow xs = true.
Proof.
  intros Hne Hl Hf Hv Ha Am.
  pose proof (mean_well_formed xs Hne Hl) as Wm.
  pose proof (mean_not_nan xs Hne Hl Hf) as Nm.
  destruct (of_nat_shape (List.length xs)) as (mn & en & En & Dn & Rn); auto.
  { destruct xs; [congruence|cbn; lia]. }
  rewrite Forall_forall in Hf, Hv, Ha.
  assert (K : forall g, In g xs ->
                zero_or_large (-903) (Num.pow2 (Num.sub g (mean xs)))
                /\ (is_zero (Num.pow2 (Num.sub g (mean xs))) = true ->
                    is_zero (Num.sub g (mean xs)) = true)).
  { intros g Hg.
    apply (pow2_kind (-451)); [lia| |].
    - apply sub_finite_not_nan; auto.
    - apply (deviation_kind (-400)); auto; try lia.
      apply valid_well_formed; auto. }
  unfold no_underflow. cbv zeta. apply andb_true_iff. split.
  - apply forallb_forall. intros g Hg. destruct (K g Hg) as [_ K2].
    destruct (Num.eqb (Num.pow2 (Num.sub g (mean xs))) Num.zero) eqn:E;
      [|reflexivity].
    apply eqb_zero_iff in E. apply K2 in E. apply eqb_zero_iff in E.
    now rewrite E.
  - assert (Ht : Forall (zero_or_large (-903))
                        (map (fun g => Num.pow2 (Num.sub g (mean xs))) xs)).
    { apply Forall_forall. intros t Ht. apply in_map_iff in Ht.
      destruct Ht as (g & <- & Hg). now apply K. }
    destruct (sum_zero_or_large (-903) _ Num.zero ltac:(lia)
                (or_introl eq_refl) Ht) as [[Z|[S L]] _];
      rewrite <- squares_terms in *.
    + apply eqb_zero_iff in Z. rewrite Z. apply Bool.implb_true_r.
    + rewrite En.
      rewrite (large_eqb_zero _ _ (div_large (-903) _ mn en Dn Rn ltac:(lia) L)).
      reflexivity.
Qed.

Lemma leb_zero_sign (x : number) :
  Num.leb Num.zero x = true -> is_zero x = true \/ signed false x.
Proof.
  destruct x as [s|s| |s m e]; cbn; auto; destruct s; auto; discriminate.
Qed.

Lemma nonneg_mean_at_least (xs : list number) :
  xs <> [] -> Z.of_nat (List.length xs) < 2 ^ 53 ->
  Forall (fun x => Num.isFinite x = true) xs ->
  Forall (fun x => Num.valid x = true) xs ->
  Forall (fun x => Num.leb Num.zero x = true) xs ->
  Forall (fun x => at_least (-340) x = true) xs ->
  at_least (-400) (mean xs) = true.
Proof.
  intros Hne Hl Hf Hv Hp Ha.
  destruct (of_nat_shape (List.length xs)) as (mn & en & En & Dn & Rn); auto.
  { destruct xs; [congruence|cbn; lia]. }
  rewrite Forall_forall in Hf, Hv, Hp, Ha.
  assert (Ht : Forall (zero_or_large (-339)) xs).
  { apply Forall_forall. intros g Hg.
    pose proof (valid_well_formed g (Hv g Hg)) as W.
    specialize (Hf g Hg). specialize (Ha g Hg).
    destruct (leb_zero_sign g (Hp g Hg)) as [Z|S]; [now left|].
    destruct g as [s|s| |s m e]; try discriminate Hf; [now left|].
    right. split; [exact S|]. cbn [at_least well_formed large] in *.
    apply Z.ltb_lt in Ha. destruct W. split; lia. }
  destruct (sum_zero_or_large (-339) xs Num.zero ltac:(lia)
              (or_introl eq_refl) Ht) as [Q _].
  unfold mean. rewrite En.
  destruct (div_zero_or_large (-339) _ mn en Dn Rn ltac:(lia) Q) as [Z|[_ L]].
  - destruct (Num.div _ _); try discriminate Z. reflexivity.
  - destruct (Num.div _ _) as [s|s| |s m e]; cbn [large at_least] in *;
      try reflexivity; try contradiction.
    apply Z.ltb_lt. lia.
Qed.

(** The grades 0 and 1e-200 are left out by [no_underflow]: the square of
    their deviation from the mean underflows. *)
Lemma tiny_pair_underflows : no_underflow tiny_pair = false.
Proof. vm_compute. reflexivity. Qed.

(** C6, amended: for every non-empty list of fewer than 2^53 finite grades,
    the computed population standard deviation is a number with [sd >= 0]
    (never NaN, never negative); [sd] is exactly 0 whenever every grade is
    equal to the computed mean, and in particular for a single grade; and,
    when nothing underflows in the computation (no squared deviation is zero
    unless the deviation is, and the quotient of their sum by the length is
    not zero unless the sum is), [sd == 0] only if all the grades are equal.
    Nothing underflows whenever every grade and the computed mean are zero
    or at least 2^-400 in absolute value, and in particular whenever no
    grade is negative and every grade is zero or at least 2^-340. *)
Theorem sd_nonneg (xs : list number) :
  xs <> [] -> Z.of_nat (List.length xs) < 2 ^ 53 ->
  Forall (fun x => Num.isFinite x = true) xs ->
  Forall (fun x => Num.valid x = true) xs ->
  Num.leb Num.zero (sd xs) = true
  /\ (Forall (fun x => Num.eqb x (mean xs) = true) xs -> sd xs = Num.zero)
  /\ (List.length xs = 1%nat -> sd xs = Num.zero)
  /\ (no_underflow xs = true -> Num.eqb (sd xs) Num.zero = true ->
      all_equal xs = true)
  /\ (Forall (fun x => at_least (-400) x = true) xs ->
      at_least (-400) (mean xs) = true -> no_underflow xs = true)
  /\ (Forall (fun x => Num.leb Num.zero x = true) xs ->
      Forall (fun x => at_least (-340) x = true) xs -> no_underflow xs = true).
Proof.
  intros Hne Hl Hf Hv.
  destruct (of_nat_finite (List.length xs)) as (m & e & E); auto.
  { destruct xs; [congruence|cbn; lia]. }
  assert (Z : Forall (fun x => Num.eqb x (mean xs) = true) xs -> sd xs = Num.zero).
  { intros He. unfold sd. rewrite squares_zero by assumption. now rewrite E. }
  split; [|split; [exact Z|split; [|split; [|split]]]].
  - apply leb_zero_signed. unfold sd. rewrite E.
    apply sqrt_signed, div_signed, squares_signed; auto.
    + now apply mean_not_nan.
    + reflexivity.
  - intros H1. apply Z.
    destruct xs as [|g [|g' xs]]; try discriminate H1.
    inversion Hf; subst. inversion Hv; subst.
    constructor; [|constructor]. now apply mean_single.
  - now apply sd_zero_all_equal.
  - now apply ordinary_no_underflow.
  - intros Hp Ha. apply ordinary_no_underflow; auto.
    + apply Forall_forall. intros x Hx. rewrite Forall_forall in Ha.
      apply (at_least_weaken (-340)); [lia|now apply Ha].
    + now apply nonneg_mean_at_least.
Qed.

Lemma sd_nonneg_witness :
  Num.leb Num.zero (sd example_grades) = true
  /\ sd [Num.of_Z 50] = Num.zero
  /\ no_underflow example_grades = true
  /\ all_equal [Num.of_Z 50; Num.of_Z 50] = true.
Proof.
  assert (F4 : Forall (fun x => Num.isFinite x = true) example_grades)
    by (repeat constructor).
  assert (V4 : Forall (fun x => Num.valid x = true) example_grades)
    by (repeat constructor).
  destruct (sd_nonneg example_grades ltac:(discriminate) eq_refl F4 V4)
    as (A1 & _ & _ & _ & _ & A6).
  assert (F1 : Forall (fun x => Num.isFinite x = true) [Num.of_Z 50])
    by (repeat constructor).
  assert (V1 : Forall (fun x => Num.valid x = true) [Num.of_Z 50])
    by (repeat constructor).
  destruct (sd_nonneg [Num.of_Z 50] ltac:(discriminate) eq_refl F1 V1)
    as (_ & _ & B3 & _).
  assert (F2 : Forall (fun x => Num.isFinite x = true) [Num.of_Z 50; Num.of_Z 50])
    by (repeat constructor).
  assert (V2 : Forall (fun x => Num.valid x = true) [Num.of_Z 50; Num.of_Z 50])
    by (repeat constructor).
  destruct (sd_nonneg [Num.of_Z 50; Num.of_Z 50] ltac:(discriminate) eq_refl F2 V2)
    as (_ & _ & _ & C4 & _).
  split; [exact A1|split; [exact (B3 eq_refl)|split]].
  - apply A6; repeat constructor.
  - apply C4; reflexivity.
Defined.

(** ** Rates *)






Lemma count_rows_le (f : Row -> bool) (rows : list Row) :
  (App.count_rows f rows <= List.length rows)%nat.
Proof. apply filter_length_le. Qed.





(** ** Extremes of a list of grades *)

Lemma max_in (a b : number) :
  Num.isNaN a = false -> Num.isNaN b = false ->
  (Num.max a b = a \/ Num.max a b = b)
  /\ le3 (key a) (key (Num.max a b)) /\ le3 (key b) (key (Num.max a b)).
Proof.
  intros Ha Hb.
  destruct (max_cases a b Ha Hb) as [[E H]|[E H]]; rewrite E;
    repeat split; auto; right; reflexivity.
Qed.

Lemma min_in (a b : number) :
  Num.isNaN a = false -> Num.isNaN b = false ->
  (Num.min a b = a \/ Num.min a b = b)
  /\ le3 (key (Num.min a b)) (key a) /\ le3 (key (Num.min a b)) (key b).
Proof.
  intros Ha Hb.
  destruct (min_cases a b Ha Hb) as [[E H]|[E H]]; rewrite E;
    repeat split; auto; right; reflexivity.
Qed.

Lemma fold_max_spec (xs : list number) : forall acc,
  Num.isNaN acc = false -> Forall (fun x => Num.isNaN x = false) xs ->
  let r := fold_left Num.max xs acc in
  Num.isNaN r = false /\ (r = acc \/ In r xs)
  /\ le3 (key acc) (key r) /\ Forall (fun x => le3 (key x) (key r)) xs.
Proof.
  induction xs as [|x xs IH]; intros acc Ha Hx; cbn [fold_left].
  - repeat split; auto. right; reflexivity.
  - inversion Hx as [|? ? Nx Hx']; subst.
    destruct (max_in acc x Ha Nx) as (Hin & L1 & L2).
    assert (Nm : Num.isNaN (Num.max acc x) = false)
      by (destruct Hin as [-> | ->]; assumption).
    destruct (IH (Num.max acc x) Nm Hx') as (Nr & Hr & L3 & F).
    repeat split; auto.
    + destruct Hr as [Hr|Hr]; [|right; now right].
      rewrite Hr. destruct Hin as [-> | ->]; [now left|right; now left].
    + eapply le3_trans; eauto.
    + constructor; auto. eapply le3_trans; eauto.
Qed.

Lemma fold_min_spec (xs : list number) : forall acc,
  Num.isNaN acc = false -> Forall (fun x => Num.isNaN x = false) xs ->
  let r := fold_left Num.min xs acc in
  Num.isNaN r = false /\ (r = acc \/ In r xs)
  /\ le3 (key r) (key acc) /\ Forall (fun x => le3 (key r) (key x)) xs.
Proof.
  induction xs as [|x xs IH]; intros acc Ha Hx; cbn [fold_left].
  - repeat split; auto. right; reflexivity.
  - inversion Hx as [|? ? Nx Hx']; subst.
    destruct (min_in acc x Ha Nx) as (Hin & L1 & L2).
    assert (Nm : Num.isNaN (Num.min acc x) = false)
      by (destruct Hin as [-> | ->]; assumption).
    destruct (IH (Num.min acc x) Nm Hx') as (Nr & Hr & L3 & F).
    repeat split; auto.
    + destruct Hr as [Hr|Hr]; [|right; now right].
      rewrite Hr. destruct Hin as [-> | ->]; [now left|right; now left].
    + eapply le3_trans; eauto.
    + constructor; auto. eapply le3_trans; eauto.
Qed.

(** [Math.max(...xs)] of a non-empty list without NaN is one of its
    elements. *)
Lemma max_list_in (xs : list number) :
  xs <> [] -> Forall (fun x => Num.isNaN x = false) xs -> In (Num.max_list xs) xs.
Proof.
  intros Hne Hx. destruct xs as [|x xs]; [congruence|].
  unfold Num.max_list. cbn [fold_left].
  inversion Hx as [|? ? Nx Hx']; subst.
  assert (E : Num.max Num.NegInfinity x = x).
  { destruct x as [?|[]| |[]]; try discriminate; reflexivity. }
  rewrite E.
  destruct (fold_max_spec xs x Nx Hx') as (_ & [-> | Hr] & _); [now left|now right].
Qed.

Lemma min_list_in (xs : list number) :
  xs <> [] -> Forall (fun x => Num.isNaN x = false) xs -> In (Num.min_list xs) xs.
Proof.
  intros Hne Hx. destruct xs as [|x xs]; [congruence|].
  unfold Num.min_list. cbn [fold_left].
  inversion Hx as [|? ? Nx Hx']; subst.
  assert (E : Num.min Num.Infinity x = x).
  { destruct x as [?|[]| |[]]; try discriminate; reflexivity. }
  rewrite E.
  destruct (fold_min_spec xs x Nx Hx') as (_ & [-> | Hr] & _); [now left|now right].
Qed.

Lemma max_list_upper (xs : list number) :
  Forall (fun x => Num.isNaN x = false) xs ->
  Forall (fun x => Num.geb (Num.max_list xs) x = true) xs.
Proof.
  intros Hx. unfold Num.max_list.
  destruct (fold_max_spec xs Num.NegInfinity eq_refl Hx) as (Nr & _ & _ & F).
  rewrite Forall_forall in *. intros x Hin.
  unfold Num.geb. change (Num.leb x (fold_left Num.max xs Num.NegInfinity) = true).
  apply leb_iff. repeat split; auto.
Qed.

Lemma min_list_lower (xs : list number) :
  Forall (fun x => Num.isNaN x = false) xs ->
  Forall (fun x => Num.leb (Num.min_list xs) x = true) xs.
Proof.
  intros Hx. unfold Num.min_list.
  destruct (fold_min_spec xs Num.Infinity eq_refl Hx) as (Nr & _ & _ & F).
  rewrite Forall_forall in *. intros x Hin.
  apply leb_iff. repeat split; auto.
Qed.

(** X7: for every non-empty list of rows without NaN grades, as
    [generateReport] prepares them, the Max field of the overall summary is
    the grade of one of the rows and is [>=] every grade, the Min field is the
    grade of one of the rows and is [<=] every grade, and [Min <= Max]. *)
Theorem overall_extremes (t : App.Thresholds) (rows : list Row) :
  rows <> [] -> Forall (fun r => Num.isNaN (grade r) = false) rows ->
  let o := App.overall t rows in
  In (App.Max o) (map grade rows)
  /\ In (App.Min o) (map grade rows)
  /\ Forall (fun r => Num.geb (App.Max o) (grade r) = true) rows
  /\ Forall (fun r => Num.leb (App.Min o) (grade r) = true) rows
  /\ Num.leb (App.Min o) (App.Max o) = true.
Proof.
  intros Hne Hn o. subst o. cbn [App.overall App.Max App.Min].
  assert (Hg : Forall (fun x => Num.isNaN x = false) (map grade rows)).
  { apply Forall_forall. intros x Hx. apply in_map_iff in Hx.
    destruct Hx as (r & <- & Hr). rewrite Forall_forall in Hn. now apply Hn. }
  assert (Hm : map grade rows <> []) by (destruct rows; [congruence|discriminate]).
  pose proof (max_list_in _ Hm Hg) as I1.
  pose proof (min_list_in _ Hm Hg) as I2.
  pose proof (max_list_upper _ Hg) as U.
  pose proof (min_list_lower _ Hg) as L.
  repeat split; auto.
  - apply Forall_forall. intros r Hr. rewrite Forall_forall in U.
    apply U. now apply in_map.
  - apply Forall_forall. intros r Hr. rewrite Forall_forall in L.
    apply L. now apply in_map.
  - rewrite Forall_forall in L. now apply L.
Qed.

Lemma overall_extremes_witness :
  let o := App.overall example_thresholds example_rows in
  In (App.Max o) (map grade example_rows) /\ Num.leb (App.Min o) (App.Max o) = true.
Proof.
  intros o.
  destruct (overall_extremes example_thresholds example_rows) as (H1 & _ & _ & _ & H5).
  - discriminate.
  - repeat constructor.
  - split; assumption.
Defined.

(** ** How the counts fit together *)

Lemma count_rows_split (f g h : Row -> bool) (rows : list Row) :
  (forall r, (if f r then 1 else 0) + (if g r then 1 else 0) = (if h r then 1 else 0))%nat ->
  (App.count_rows f rows + App.count_rows g rows = App.count_rows h rows)%nat.
Proof.
  intros H. unfold App.count_rows.
  induction rows as [|r rows IH]; cbn [filter]; [reflexivity|].
  specialize (H r).
  destruct (f r), (g r), (h r); cbn [List.length] in *; lia.
Qed.

Lemma count_rows_mono (f g : Row -> bool) (rows : list Row) :
  (forall r, f r = true -> g r = true) ->
  (App.count_rows f rows <= App.count_rows g rows)%nat.
Proof.
  intros H. unfold App.count_rows.
  induction rows as [|r rows IH]; cbn [filter]; [lia|].
  pose proof (H r) as Hr.
  destruct (f r); [rewrite Hr by reflexivity|destruct (g r)];
    cbn [List.length]; lia.
Qed.

(** Above a threshold [lo], a grade is either below a larger threshold [hi]
    or at least [hi], never both. *)
Lemma band_split (lo hi g : number) :
  Num.leb lo hi = true ->
  ((if Num.geb g lo && Num.ltb g hi then 1 else 0)
   + (if Num.geb g hi then 1 else 0)
   = (if Num.geb g lo then 1 else 0))%nat.
Proof.
  intros H. apply leb_iff in H. destruct H as (Nlo & Nhi & H).
  destruct (Num.isNaN g) eqn:Ng.
  - destruct g; try discriminate. unfold Num.geb, Num.ltb, SFleb, SFltb.
    rewrite !compare_nan_r. reflexivity.
  - unfold Num.geb, Num.ltb, SFleb, SFltb.
    destruct (compare_key lo g Nlo Ng) as [[E1 K1]|[[E1 K1]|[E1 K1]]];
      destruct (compare_key hi g Nhi Ng) as [[E2 K2]|[[E2 K2]|[E2 K2]]];
      destruct (compare_key g hi Ng Nhi) as [[E3 K3]|[[E3 K3]|[E3 K3]]];
      rewrite E1, E2, E3; cbn [andb]; try reflexivity; exfalso; order3.
Qed.

Lemma geb_mono (lo hi g : number) :
  Num.leb lo hi = true -> Num.geb g hi = true -> Num.geb g lo = true.
Proof.
  intros H G. unfold Num.geb in *.
  change (Num.leb hi g = true) in G. change (Num.leb lo g = true).
  apply leb_iff in H, G. apply leb_iff.
  destruct H as (? & ? & ?), G as (? & ? & ?). repeat split; auto.
  eapply le3_trans; eauto.
Qed.

(** X8: whatever thresholds the user typed and whatever the rows, the
    counts of [App.js] fit together: the failed and passing counts add up to
    N; the rows counted for the merit rate and those counted for the
    distinction rate are disjoint and all passing; the three fixed bands are
    disjoint and add up to the count behind the fixed passing rate, hence to
    at most N. *)
Theorem counts_fit_together (a b c : number) (rows : list Row) :
  let t := App.coerceThresholds a b c in
  let o := App.overall t rows in
  let meritCount :=
    App.count_rows (fun r => Num.geb (grade r) (App.m t) && Num.ltb (grade r) (App.d t)) rows in
  let distCount := App.count_rows (fun r => Num.geb (grade r) (App.d t)) rows in
  let fixedCount := App.count_rows (fun r => Num.geb (grade r) (Num.of_Z 40)) rows in
  (App.FailedCount o + App.PassingCount o = App.N o)%nat
  /\ (meritCount + distCount
      = App.count_rows (fun r => Num.geb (grade r) (App.m t)) rows)%nat
  /\ (meritCount + distCount <= App.PassingCount o)%nat
  /\ (App.PassBandCount o + App.MeritBandCount o + App.DistinctionBandCount o
      = fixedCount)%nat
  /\ (fixedCount <= App.N o)%nat.
Proof.
  intros t o meritCount distCount fixedCount.
  destruct (coerceThresholds_clamps a b c) as (_ & _ & _ & (O0 & O1 & O2 & O3) & _).
  fold t in O0, O1, O2, O3.
  assert (S1 : (meritCount + distCount
                = App.count_rows (fun r => Num.geb (grade r) (App.m t)) rows)%nat).
  { apply count_rows_split. intros r. now apply band_split. }
  subst o. cbn [App.overall App.FailedCount App.PassingCount App.N
                  App.PassBandCount App.MeritBandCount App.DistinctionBandCount].
  split; [|split; [exact S1|split; [|split]]].
  - pose proof (count_rows_le (fun r => Num.geb (grade r) (App.p t)) rows). lia.
  - rewrite S1. apply count_rows_mono. intros r. now apply geb_mono.
  - subst fixedCount.
    rewrite <- (count_rows_split
                  (fun r => Num.geb (grade r) (Num.of_Z 40) && Num.ltb (grade r) (Num.of_Z 60))
                  (fun r => Num.geb (grade r) (Num.of_Z 60))
                  (fun r => Num.geb (grade r) (Num.of_Z 40)) rows)
      by (intros r; now apply band_split).
    rewrite <- (count_rows_split
                  (fun r => Num.geb (grade r) (Num.of_Z 60) && Num.ltb (grade r) (Num.of_Z 70))
                  (fun r => Num.geb (grade r) (Num.of_Z 70))
                  (fun r => Num.geb (grade r) (Num.of_Z 60)) rows)
      by (intros r; now apply band_split).
    lia.
  - apply count_rows_le.
Qed.

(** ** The chart data and the other handlers *)

Lemma filter_finite_prepared (gradeCol groupCol : string) (data : list RawRow) :
  filter Num.isFinite (map (fun r => parseNumber (get r gradeCol)) data)
  = filter Num.isFinite (map grade (prepare_rows gradeCol groupCol data)).
Proof.
  unfold prepare_rows.
  induction data as [|row data IH]; [reflexivity|].
  cbn [map filter].
  change (grade (coerce_row gradeCol groupCol row)) with (parseNumber (get row gradeCol)).
  destruct (Num.isNaN (parseNumber (get row gradeCol))) eqn:En; cbn [negb].
  - destruct (parseNumber (get row gradeCol)); try discriminate.
    cbn [Num.isFinite]. exact IH.
  - cbn [map filter].
    change (grade (coerce_row gradeCol groupCol row)) with (parseNumber (get row gradeCol)).
    destruct (Num.isFinite (parseNumber (get row gradeCol))); [f_equal|]; exact IH.
Qed.

Lemma filter_all {A} (f : A -> bool) (l : list A) :
  Forall (fun x => f x = true) l -> filter f l = l.
Proof.
  induction 1 as [|x l Hx _ IH]; [reflexivity|].
  cbn [filter]. rewrite Hx, IH. reflexivity.
Qed.

Lemma filter_Forall {A} (f : A -> bool) (l : list A) :
  Forall (fun x => f x = true) (filter f l).
Proof.
  apply Forall_forall. intros x Hx. apply filter_In in Hx. tauto.
Qed.

(** X4: once a report is generated, the histogram shows exactly the finite
    grades among the rows that [generateReport] prepares from the current
    data and columns, in the same order: all its values are finite, there are
    at most as many as prepared rows, and none is missing when every prepared
    grade is finite.  Before a report is generated the histogram is empty. *)
Theorem histogram_is_finite_part (st : App.State) :
  let rows := prepare_rows (App.gradeCol st) (App.groupCol st) (App.data st) in
  (App.reportGenerated st = false -> View.gradesForHistogram st = [])
  /\ (App.reportGenerated st = true ->
      View.gradesForHistogram st = filter Num.isFinite (map grade rows)
      /\ Forall (fun x => Num.isFinite x = true) (View.gradesForHistogram st)
      /\ (List.length (View.gradesForHistogram st) <= List.length rows)%nat
      /\ (Forall (fun r => Num.isFinite (grade r) = true) rows ->
          View.gradesForHistogram st = map grade rows)).
Proof.
  intros rows. unfold View.gradesForHistogram. split; intros ->; [reflexivity|].
  rewrite (filter_finite_prepared _ (App.groupCol st)). fold rows.
  repeat split.
  - apply filter_Forall.
  - rewrite <- (length_map grade rows). apply filter_length_le.
  - intros H. apply filter_all. apply Forall_forall. intros x Hx.
    apply in_map_iff in Hx. destruct Hx as (r & <- & Hr).
    rewrite Forall_forall in H. now apply H.
Qed.

(** *** Column detection *)

Lemma find_first {A} (f : A -> bool) (l : list A) (x : A) :
  find f l = Some x ->
  exists pre post, l = (pre ++ x :: post)%list /\ f x = true
                   /\ Forall (fun y => f y = false) pre.
Proof.
  induction l as [|a l IH]; [discriminate|]. cbn [find].
  destruct (f a) eqn:E.
  - intros [= ->]. exists [], l. repeat split; auto.
  - intros H. destruct (IH H) as (pre & post & -> & Hx & Hp).
    exists (a :: pre), post. repeat split; auto.
Qed.








(** *** What the header patterns accept *)

Lemma matches_at_spec (pat : string) : forall s,
  View.matches_at pat s = true <->
  exists mid post, s = (mid ++ post)%string /\ uppercase mid = uppercase pat.
Proof.
  induction pat as [|p pat IH]; intros s; cbn [View.matches_at].
  - split; [|reflexivity]. intros _. exists ""%string, s. split; reflexivity.
  - destruct s as [|c s].
    + split; [discriminate|]. intros (mid & post & E & U).
      destruct mid; [discriminate U|discriminate E].
    + rewrite Bool.andb_true_iff, Ascii.eqb_eq, IH. split.
      * intros (Hc & mid & post & -> & U).
        exists (String c mid), post. split; [reflexivity|].
        cbn [uppercase]. now rewrite U, Hc.
      * intros (mid & post & E & U).
        destruct mid as [|c' mid]; [discriminate U|].
        cbn [uppercase append] in *. injection E as -> ->. injection U as Hc U.
        split; [now symmetry|]. now exists mid, post.
Qed.

Lemma test_spec (alternatives : list string) : forall s,
  View.test alternatives s = true <->
  exists pat, In pat alternatives /\ contains_ignoring_case pat s.
Proof.
  induction s as [|c s IH]; cbn [View.test].
  - rewrite Bool.orb_false_r, existsb_exists. split.
    + intros (pat & Hin & H). exists pat. split; [exact Hin|].
      apply matches_at_spec in H. destruct H as (mid & post & E & U).
      exists ""%string, mid, post. now split.
    + intros (pat & Hin & pre & mid & post & E & U).
      exists pat. split; [exact Hin|]. apply matches_at_spec.
      destruct pre; [|discriminate E]. now exists mid, post.
  - rewrite Bool.orb_true_iff, existsb_exists, IH. split.
    + intros [(pat & Hin & H)|(pat & Hin & pre & mid & post & E & U)].
      * exists pat. split; [exact Hin|].
        apply matches_at_spec in H. destruct H as (mid & post & E & U).
        exists ""%string, mid, post. now split.
      * exists pat. split; [exact Hin|].
        exists (String c pre), mid, post. split; [|exact U].
        cbn [append]. now rewrite E.
    + intros (pat & Hin & pre & mid & post & E & U).
      destruct pre as [|c' pre].
      * left. exists pat. split; [exact Hin|]. apply matches_at_spec.
        now exists mid, post.
      * right. cbn [append] in E. injection E as _ E.
        exists pat. split; [exact Hin|]. now exists pre, mid, post.
Qed.

Lemma marks_contains_mark (s : string) :
  contains_ignoring_case "marks" s -> contains_ignoring_case "mark" s.
Proof.
  intros (pre & mid & post & E & U).
  destruct mid as [|c1 [|c2 [|c3 [|c4 [|c5 [|c6 mid]]]]]]; try discriminate U.
  cbn [uppercase] in U. injection U as U1 U2 U3 U4 U5.
  exists pre, (String c1 (String c2 (String c3 (String c4 ""))))%string,
         (String c5 post).
  split.
  - rewrite E. reflexivity.
  - cbn [uppercase]. now rewrite U1, U2, U3, U4.
Qed.

(** X5: the two header patterns of [onload] are substring searches that
    ignore the case of ASCII letters.  A header is taken for a grade column
    exactly when it contains [grade], [score] or [mark] (the optional [s] of
    [marks?] adds nothing), and for a group column exactly when it contains
    [group], [section], [class] or [cohort]. *)
Theorem header_patterns_spec (s : string) :
  (View.test View.grade_pattern s = true <->
   contains_ignoring_case "grade" s \/ contains_ignoring_case "score" s
   \/ contains_ignoring_case "mark" s)
  /\ (View.test View.group_pattern s = true <->
      contains_ignoring_case "group" s \/ contains_ignoring_case "section" s
      \/ contains_ignoring_case "class" s \/ contains_ignoring_case "cohort" s).
Proof.
  split; rewrite test_spec; unfold View.grade_pattern, View.group_pattern; split.
  - intros (pat & Hin & H). cbn [In] in Hin.
    destruct Hin as [<-|[<-|[<-|[<-|[]]]]]; auto using marks_contains_mark.
  - intros [H|[H|H]].
    + exists "grade"%string. split; [cbn; tauto|exact H].
    + exists "score"%string. split; [cbn; tauto|exact H].
    + exists "mark"%string. split; [cbn; tauto|exact H].
  - intros (pat & Hin & H). cbn [In] in Hin.
    destruct Hin as [<-|[<-|[<-|[<-|[]]]]]; auto.
  - intros [H|[H|[H|H]]].
    + exists "group"%string. split; [cbn; tauto|exact H].
    + exists "section"%string. split; [cbn; tauto|exact H].
    + exists "class"%string. split; [cbn; tauto|exact H].
    + exists "cohort"%string. split; [cbn; tauto|exact H].
Qed.

(** *** The file name of the exported document *)

Lemma rev_append_app (s : string) : forall a b,
  Str.rev_append (Str.rev_append s a) b = Str.rev_append a (s ++ b)%string.
Proof.
  induction s as [|c s IH]; intros a b; cbn [Str.rev_append append]; [reflexivity|].
  rewrite IH. reflexivity.
Qed.

Lemma string_app_nil (s : string) : (s ++ "")%string = s.
Proof. induction s as [|c s IH]; cbn [append]; [reflexivity|now rewrite IH]. Qed.

Lemma rev_involutive (s : string) : Str.rev (Str.rev s) = s.
Proof. unfold Str.rev. rewrite rev_append_app. cbn. apply string_app_nil. Qed.

Lemma all_space_rev_append (s : string) : forall a,
  all_space (Str.rev_append s a) = all_space s && all_space a.
Proof.
  induction s as [|c s IH]; intros a; cbn [Str.rev_append all_space]; [reflexivity|].
  rewrite IH. cbn [all_space].
  destruct (Str.is_whitespace c), (all_space s), (all_space a); reflexivity.
Qed.

Lemma all_space_rev (s : string) : all_space (Str.rev s) = all_space s.
Proof. unfold Str.rev. rewrite all_space_rev_append. cbn. apply Bool.andb_true_r. Qed.

Lemma all_space_trim_start (s : string) : all_space (Str.trim_start s) = all_space s.
Proof.
  induction s as [|c s IH]; [reflexivity|]. cbn [Str.trim_start].
  destruct (Str.is_whitespace c) eqn:E.
  - rewrite IH. cbn [all_space]. now rewrite E.
  - reflexivity.
Qed.

Lemma trim_start_nil_iff (s : string) : Str.trim_start s = "" <-> all_space s = true.
Proof.
  induction s as [|c s IH]; cbn [Str.trim_start all_space]; [tauto|].
  destruct (Str.is_whitespace c); cbn [andb]; [exact IH|].
  split; discriminate.
Qed.

Lemma all_space_trim (s : string) : all_space (Str.trim s) = all_space s.
Proof.
  unfold Str.trim, Str.trim_end.
  now rewrite all_space_rev, all_space_trim_start, all_space_rev, all_space_trim_start.
Qed.

(** [s.trim()] is empty exactly when [s] is blank. *)
Lemma trim_nil_iff (s : string) : Str.trim s = "" <-> all_space s = true.
Proof.
  split.
  - intros H. rewrite <- all_space_trim, H. reflexivity.
  - intros H. unfold Str.trim, Str.trim_end.
    apply trim_start_nil_iff in H. rewrite H. reflexivity.
Qed.

(** A string without white space is left alone by [trim]. *)
Lemma trim_no_space (s : string) : has_space s = false -> Str.trim s = s.
Proof.
  assert (T : forall x, has_space x = false -> Str.trim_start x = x).
  { intros [|c x]; [reflexivity|]. cbn [has_space Str.trim_start].
    destruct (Str.is_whitespace c); [discriminate|reflexivity]. }
  assert (R : forall x a, has_space (Str.rev_append x a) = has_space x || has_space a).
  { induction x as [|c x IH]; intros a; cbn [Str.rev_append has_space]; [reflexivity|].
    rewrite IH. cbn [has_space].
    destruct (Str.is_whitespace c), (has_space x), (has_space a); reflexivity. }
  intros H. unfold Str.trim, Str.trim_end. rewrite (T s H).
  rewrite T.
  - apply rev_involutive.
  - unfold Str.rev. rewrite R, H. reflexivity.
Qed.

Lemma replace_spaces_no_space (s : string) : forall b,
  has_space (View.replace_spaces b s) = false.
Proof.
  induction s as [|c s IH]; intros b; cbn [View.replace_spaces]; [reflexivity|].
  destruct (Str.is_whitespace c) eqn:E.
  - destruct b; [apply IH|]. cbn [has_space]. rewrite IH. reflexivity.
  - cbn [has_space]. rewrite E, IH. reflexivity.
Qed.

Lemma replace_spaces_id (s : string) : forall b,
  has_space s = false -> View.replace_spaces b s = s.
Proof.
  induction s as [|c s IH]; intros b; cbn [View.replace_spaces has_space]; [reflexivity|].
  destruct (Str.is_whitespace c); [discriminate|].
  cbn [orb]. intros H. now rewrite IH.
Qed.

Lemma safeTitle_cases (title : string) :
  View.safeTitle title
  = if all_space title then "Mid-Term_Politics_Grades_Report"%string
    else View.replace_spaces false title.
Proof.
  unfold View.safeTitle. destruct title as [|c r]; [reflexivity|].
  destruct (all_space (String c r)) eqn:E.
  - apply trim_nil_iff in E. now rewrite E.
  - destruct (Str.trim (String c r)) eqn:T; [|reflexivity].
    apply trim_nil_iff in T. congruence.
Qed.

(** X3: the stem of the exported file name.  For a blank title (empty or
    white space only) it is the fixed default; otherwise it is the title
    with every run of white space replaced by one underscore.  In all cases
    it is not empty and holds no white space, and a non-empty title without
    white space is used as it is. *)
Theorem safeTitle_spec (title : string) :
  View.safeTitle title
  = (if all_space title then "Mid-Term_Politics_Grades_Report"%string
     else View.replace_spaces false title)
  /\ has_space (View.safeTitle title) = false
  /\ View.safeTitle title <> ""%string
  /\ (title <> ""%string -> has_space title = false -> View.safeTitle title = title).
Proof.
  split; [apply safeTitle_cases|]. rewrite safeTitle_cases.
  split; [|split].
  - destruct (all_space title); [reflexivity|apply replace_spaces_no_space].
  - destruct (all_space title) eqn:E; [discriminate|].
    destruct title as [|c r]; [discriminate E|].
    cbn [View.replace_spaces]. destruct (Str.is_whitespace c); discriminate.
  - intros Hne Hs. destruct title as [|c r]; [congruence|].
    assert (E : all_space (String c r) = false).
    { cbn [has_space all_space] in *.
      destruct (Str.is_whitespace c); [discriminate Hs|reflexivity]. }
    rewrite E. now apply replace_spaces_id.
Qed.

(** ** What one run of [generateReport] changes *)

Lemma trim_eqb_all_space (s : string) :
  String.eqb (Str.trim s) "" = all_space s.
Proof.
  destruct (all_space s) eqn:E.
  - apply trim_nil_iff in E. now rewrite E.
  - apply String.eqb_neq. intros H. apply trim_nil_iff in H. congruence.
Qed.

Lemma generateReport_cases (answer : bool) (st st' : App.State)
      (evs : list event) (cmp : completion) :
  App.generateReport answer st = (st', evs, cmp) ->
  let rows := prepare_rows (App.gradeCol st) (App.groupCol st) (App.data st) in
  let t := App.coerceThresholds (App.passing st) (App.merit st) (App.distinction st) in
  (App.data st' = App.data st
   /\ App.gradeCol st' = App.gradeCol st /\ App.groupCol st' = App.groupCol st
   /\ App.passing st' = App.passing st /\ App.merit st' = App.merit st
   /\ App.distinction st' = App.distinction st)
  /\ (App.title st' = App.title st
      \/ (all_space (App.title st) = true /\ answer = true
          /\ App.title st' = App.default_title))
  /\ match cmp with
     | Aborted =>
         App.overallSummary st' = App.overallSummary st
         /\ App.groupSummary st' = App.groupSummary st
         /\ App.reportGenerated st' = App.reportGenerated st
     | TypeError =>
         (App.data st <> [] /\ App.gradeCol st <> "" /\ App.groupCol st <> ""
          /\ all_space (App.title st') = false /\ rows <> [])
         /\ add_rows [] rows = None
         /\ App.overallSummary st' = [App.overall t rows]
         /\ App.groupSummary st' = App.groupSummary st
         /\ App.reportGenerated st' = App.reportGenerated st
     | Completed =>
         (App.data st <> [] /\ App.gradeCol st <> "" /\ App.groupCol st <> ""
          /\ all_space (App.title st') = false /\ rows <> [])
         /\ exists g, add_rows [] rows = Some g
            /\ App.overallSummary st' = [App.overall t rows]
            /\ App.groupSummary st' = App.group_summaries t g
            /\ App.reportGenerated st' = true
     end.
Proof.
  unfold App.generateReport. rewrite trim_eqb_all_space.
  destruct (App.data st) as [|r0 data0] eqn:D.
  { intros [= <- <- <-]. repeat split; auto. }
  destruct (String.eqb (App.gradeCol st) "") eqn:G.
  { intros [= <- <- <-]. repeat split; auto. }
  destruct (String.eqb (App.groupCol st) "") eqn:Gr.
  { intros [= <- <- <-]. repeat split; auto. }
  apply String.eqb_neq in G, Gr.
  destruct (all_space (App.title st)) eqn:A; destruct answer; cbn [andb negb].
  2:{ intros [= <- <- <-]. repeat split; auto. }
  all: destruct (prepare_rows (App.gradeCol st) (App.groupCol st) (r0 :: data0))
         as [|r rows] eqn:R;
       [intros [= <- <- <-];
        cbn [App.data App.gradeCol App.groupCol App.title App.passing App.merit
             App.distinction App.overallSummary App.groupSummary
             App.reportGenerated App.setTitle];
        repeat split; auto|].
  all: destruct (add_rows [] (r :: rows)) as [g|] eqn:E;
       intros [= <- <- <-];
       cbn [App.data App.gradeCol App.groupCol App.title App.passing App.merit
            App.distinction App.overallSummary App.groupSummary
            App.reportGenerated App.setTitle App.setOverallSummary
            App.setGroupSummary App.setReportGenerated];
       (split; [repeat split; auto|]);
       (split; [auto|]).
  all: try (split; [repeat split; auto; discriminate|]).
  all: try (exists g; repeat split; auto).
  all: repeat split; auto.
Qed.

(** [generateReport] once the guards and the title check are passed. *)
Lemma generateReport_ready (answer : bool) (st : App.State) :
  App.data st <> [] -> App.gradeCol st <> "" -> App.groupCol st <> "" ->
  all_space (App.title st) = false ->
  let rows := prepare_rows (App.gradeCol st) (App.groupCol st) (App.data st) in
  let t := App.coerceThresholds (App.passing st) (App.merit st) (App.distinction st) in
  App.generateReport answer st =
  match rows with
  | [] => (st, [Alert "No numeric grades found in selected Grade column."], Aborted)
  | _ =>
      match add_rows [] rows with
      | None => (App.setOverallSummary [App.overall t rows] st, [], TypeError)
      | Some g =>
          (App.setReportGenerated true
             (App.setGroupSummary (App.group_summaries t g)
                (App.setOverallSummary [App.overall t rows] st)), [], Completed)
      end
  end.
Proof.
  intros D G Gr A rows t. subst rows t.
  unfold App.generateReport. rewrite trim_eqb_all_space, A.
  destruct (App.data st) as [|r0 data0] eqn:E; [congruence|].
  apply String.eqb_neq in G, Gr. rewrite G, Gr. cbn [andb].
  destruct (prepare_rows _ _ _); [reflexivity|].
  destruct (add_rows _ _); reflexivity.
Qed.

Lemma group_summaries_nonempty (t : App.Thresholds) (rows : list Row) (g : Groups) :
  rows <> [] -> add_rows [] rows = Some g -> App.group_summaries t g <> [].
Proof.
  intros Hne H E.
  pose proof (group_summaries_labels t g) as L. rewrite E in L. cbn [map] in L.
  destruct rows as [|r rows]; [congruence|].
  destruct (add_rows_labels _ _ H) as [_ Hk].
  assert (Hin : In (group r) (map fst g)) by (apply Hk; now left).
  eapply Permutation_in in Hin; [|symmetry; apply Object_keys_perm].
  eapply Permutation_in in Hin; [|symmetry; apply sort_perm].
  rewrite <- L in Hin. exact Hin.
Qed.

Lemma prepare_rows_data_nonempty gradeCol groupCol data :
  prepare_rows gradeCol groupCol data <> [] -> data <> [].
Proof. intros H ->. now apply H. Qed.

Lemma generateReport_report_present (answer : bool) (st : App.State) :
  report_present st -> report_present (fst (fst (App.generateReport answer st))).
Proof.
  intros Inv.
  destruct (App.generateReport answer st) as [[st' evs] cmp] eqn:E.
  cbn [fst]. apply generateReport_cases in E.
  destruct E as ((Hd & _) & _ & Hc). unfold report_present in *.
  rewrite Hd. destruct cmp.
  - destruct Hc as (-> & -> & ->). exact Inv.
  - destruct Hc as ((D & _ & _ & _ & R) & g & Hg & -> & -> & _). intros _.
    repeat split; auto.
    + eexists. split; [reflexivity|]. cbn [App.overall App.N].
      destruct (prepare_rows _ _ _); [congruence|cbn; lia].
    + eapply group_summaries_nonempty; eauto.
  - destruct Hc as ((D & _ & _ & _ & R) & _ & -> & -> & ->). intros F.
    destruct (Inv F) as (_ & Hg & _). repeat split; auto.
    eexists. split; [reflexivity|]. cbn [App.overall App.N].
    destruct (prepare_rows _ _ _); [congruence|cbn; lia].
Qed.

Lemma step_report_present (c : View.Component) (a : View.action) :
  report_present (View.app c) -> report_present (View.app (View.step c a)).
Proof.
  intros Inv. destruct a; cbn [View.step View.with_app View.app].
  - destruct file; exact Inv.
  - intros F. discriminate F.
  - exact Inv.
  - exact Inv.
  - exact Inv.
  - exact Inv.
  - now apply generateReport_report_present.
  - intros F. discriminate F.
Qed.

Lemma run_report_present (actions : list View.action) :
  report_present (View.app (View.run actions)).
Proof.
  unfold View.run.
  assert (H : forall c, report_present (View.app c) ->
                        report_present (View.app (fold_left View.step actions c))).
  { induction actions as [|a actions IH]; intros c Hc; [exact Hc|].
    cbn [fold_left]. apply IH. now apply step_report_present. }
  apply H. intros F. discriminate F.
Qed.

(** X2: in every state that the component can reach from its initial state
    (by choosing and loading files, typing a title or thresholds, selecting
    columns, generating and resetting, in any order), [downloadPDF] either
    shows the alert, exactly when no report is generated, or saves a document
    whose first table has exactly one row, whose second table has at least
    one row and whose cover title is not empty; reading the header of a
    missing first record never happens.  The guard alone does not give
    this: on a state with the flag set and empty summaries the function
    fails. *)
Theorem downloadPDF_on_reachable_states (actions : list View.action) (day : string) :
  let st := View.app (View.run actions) in
  match View.downloadPDF day st with
  | View.Refused msg =>
      App.reportGenerated st = false /\ msg = "Generate report first."%string
  | View.Failed => False
  | View.Saved cover overall groups filename =>
      App.reportGenerated st = true
      /\ (exists o, overall = [o] /\ App.overallSummary st = [o])
      /\ groups <> [] /\ groups = App.groupSummary st
      /\ cover <> ""%string
      /\ filename = (View.safeTitle (App.title st) ++ "_" ++ day ++ ".pdf")%string
  end
  /\ View.downloadPDF day (App.setReportGenerated true (View.app View.initial))
     = View.Failed.
Proof.
  intros st. split; [|reflexivity].
  pose proof (run_report_present actions) as Inv. fold st in Inv.
  unfold View.downloadPDF, report_present in *.
  destruct (App.reportGenerated st); cbn [negb]; [|now split].
  destruct (Inv eq_refl) as ((o & Ho & _) & Hg & _).
  rewrite Ho. destruct (App.groupSummary st) as [|g gs] eqn:G; [congruence|].
  repeat split; eauto; try discriminate.
  destruct (App.title st); discriminate.
Qed.

Lemma generateReport0_cases (answer : bool) (st st' : Part000.State)
      (evs : list event) (cmp : completion) :
  Part000.generateReport answer st = (st', evs, cmp) ->
  (Part000.data st' = Part000.data st
   /\ Part000.gradeCol st' = Part000.gradeCol st
   /\ Part000.groupCol st' = Part000.groupCol st
   /\ Part000.passing st' = Part000.passing st
   /\ Part000.merit st' = Part000.merit st
   /\ Part000.distinction st' = Part000.distinction st)
  /\ (Part000.title st' = Part000.title st
      \/ (all_space (Part000.title st) = true /\ answer = true
          /\ Part000.title st' = Part000.default_title))
  /\ (cmp = Aborted ->
      Part000.overallSummary st' = Part000.overallSummary st
      /\ Part000.groupSummary st' = Part000.groupSummary st
      /\ Part000.reportGenerated st' = Part000.reportGenerated st).
Proof.
  unfold Part000.generateReport. rewrite trim_eqb_all_space.
  destruct (Part000.data st) as [|r0 data0] eqn:D.
  { intros [= <- <- <-]. repeat split; auto. }
  destruct (String.eqb (Part000.gradeCol st) "") eqn:G.
  { intros [= <- <- <-]. repeat split; auto. }
  destruct (String.eqb (Part000.groupCol st) "") eqn:Gr.
  { intros [= <- <- <-]. repeat split; auto. }
  destruct (all_space (Part000.title st)) eqn:A; destruct answer; cbn [andb negb].
  2:{ intros [= <- <- <-]. repeat split; auto. }
  all: destruct (prepare_rows (Part000.gradeCol st) (Part000.groupCol st) (r0 :: data0))
         as [|r rows] eqn:R;
       [intros [= <- <- <-];
        cbn [Part000.data Part000.gradeCol Part000.groupCol Part000.title
             Part000.passing Part000.merit Part000.distinction
             Part000.overallSummary Part000.groupSummary
             Part000.reportGenerated Part000.setTitle];
        repeat split; auto|].
  all: destruct (add_rows [] (r :: rows)) as [g|] eqn:E;
       intros [= <- <- <-];
       cbn [Part000.data Part000.gradeCol Part000.groupCol Part000.title
            Part000.passing Part000.merit Part000.distinction
            Part000.overallSummary Part000.groupSummary
            Part000.reportGenerated Part000.setTitle Part000.setOverallSummary
            Part000.setGroupSummary Part000.setReportGenerated];
       (split; [repeat split; auto|]);
       (split; [auto|]); discriminate.
Qed.

(** X6: what [generateReport] leaves alone, in both variants.  However it
    ends, the data, the two selected columns and the three thresholds are the
    ones it started with; the title is unchanged, or it was blank, the user
    accepted the default and it is now the default title; and when the
    handler stops at a guard, at a declined confirmation or at the
    no-numeric-grades alert, the two summaries and the report flag are
    unchanged too. *)
Theorem generateReport_frame (answer : bool) :
  (forall st,
     let r := App.generateReport answer st in
     let st' := fst (fst r) in
     (App.data st', App.gradeCol st', App.groupCol st')
     = (App.data st, App.gradeCol st, App.groupCol st)
     /\ (App.passing st', App.merit st', App.distinction st')
        = (App.passing st, App.merit st, App.distinction st)
     /\ (App.title st' = App.title st
         \/ (all_space (App.title st) = true /\ answer = true
             /\ App.title st' = "Mid-Term Politics Grades Report"%string))
     /\ (snd r = Aborted ->
         (App.overallSummary st', App.groupSummary st', App.reportGenerated st')
         = (App.overallSummary st, App.groupSummary st, App.reportGenerated st)))
  /\ (forall st,
     let r := Part000.generateReport answer st in
     let st' := fst (fst r) in
     (Part000.data st', Part000.gradeCol st', Part000.groupCol st')
     = (Part000.data st, Part000.gradeCol st, Part000.groupCol st)
     /\ (Part000.passing st', Part000.merit st', Part000.distinction st')
        = (Part000.passing st, Part000.merit st, Part000.distinction st)
     /\ (Part000.title st' = Part000.title st
         \/ (all_space (Part000.title st) = true /\ answer = true
             /\ Part000.title st' = "Mid-Term Politics Grades Report"%string))
     /\ (snd r = Aborted ->
         (Part000.overallSummary st', Part000.groupSummary st',
          Part000.reportGenerated st')
         = (Part000.overallSummary st, Part000.groupSummary st,
            Part000.reportGenerated st))).
Proof.
  split; intros st r st'; subst st'.
  - destruct r as [[st' evs] cmp] eqn:E. subst r. cbn [fst snd].
    apply generateReport_cases in E.
    destruct E as ((-> & -> & -> & -> & -> & ->) & Ht & Hc).
    repeat split; auto.
    intros ->. destruct Hc as (-> & -> & ->). reflexivity.
  - destruct r as [[st' evs] cmp] eqn:E. subst r. cbn [fst snd].
    apply generateReport0_cases in E.
    destruct E as ((-> & -> & -> & -> & -> & ->) & Ht & Hc).
    repeat split; auto.
    intros H. destruct (Hc H) as (-> & -> & ->). reflexivity.
Qed.

Lemma state_stored (st : App.State) o g :
  App.overallSummary st = o -> App.groupSummary st = g ->
  App.reportGenerated st = true ->
  App.setReportGenerated true (App.setGroupSummary g (App.setOverallSummary o st)) = st.
Proof. destruct st; cbn. intros -> -> ->. reflexivity. Qed.

Lemma state_stored_overall (st : App.State) o :
  App.overallSummary st = o -> App.setOverallSummary o st = st.
Proof. destruct st; cbn. intros ->. reflexivity. Qed.

Lemma generateReport_again (answer answer' : bool) (st st' : App.State)
      (evs : list event) (cmp : completion) :
  App.generateReport answer st = (st', evs, cmp) -> cmp <> Aborted ->
  App.generateReport answer' st' = (st', [], cmp).
Proof.
  intros E Hc. apply generateReport_cases in E.
  destruct E as ((Hd & Hg & Hgr & Hp & Hm & Hdi) & _ & H).
  destruct cmp; [congruence| |].
  - destruct H as ((D & G & Gr & A & R) & g & Ha & Ho & Hs & Hf).
    rewrite generateReport_ready; rewrite ?Hd, ?Hg, ?Hgr, ?Hp, ?Hm, ?Hdi; auto.
    destruct (prepare_rows _ _ _) as [|r rows]; [congruence|].
    rewrite Ha. now rewrite state_stored.
  - destruct H as ((D & G & Gr & A & R) & Ha & Ho & Hs & Hf).
    rewrite generateReport_ready; rewrite ?Hd, ?Hg, ?Hgr, ?Hp, ?Hm, ?Hdi; auto.
    destruct (prepare_rows _ _ _) as [|r rows]; [congruence|].
    rewrite Ha. now rewrite state_stored_overall.
Qed.

(** X9: generating again changes nothing.  When a run of [generateReport]
    got past its guards (it completed, or it raised while grouping), a
    second run from the state it left, whatever the user would answer, shows
    no dialog, ends the same way and leaves exactly that state: the same
    title, the same overall record and the same group records. *)
Theorem generateReport_twice (answer answer' : bool) (st : App.State) :
  let r := App.generateReport answer st in
  snd r <> Aborted ->
  App.generateReport answer' (fst (fst r)) = (fst (fst r), [], snd r).
Proof.
  intros r H. destruct r as [[st' evs] cmp] eqn:E. subst r. cbn [fst snd] in *.
  eapply generateReport_again; eauto.
Qed.

Lemma generateReport_twice_witness :
  let r := App.generateReport true (loaded example_data) in
  snd r = Completed
  /\ App.generateReport false (fst (fst r)) = (fst (fst r), [], snd r).
Proof.
  intros r.
  assert (H : snd r = Completed) by (vm_compute; reflexivity).
  split; [exact H|].
  apply (generateReport_twice true false (loaded example_data)).
  fold r. rewrite H. discriminate.
Defined.

(** ** The box plot *)

Lemma prepare_rows_cons gradeCol groupCol row data :
  prepare_rows gradeCol groupCol (row :: data)
  = if Num.isNaN (grade (coerce_row gradeCol groupCol row))
    then prepare_rows gradeCol groupCol data
    else coerce_row gradeCol groupCol row :: prepare_rows gradeCol groupCol data.
Proof.
  unfold prepare_rows. cbn [map filter].
  now destruct (Num.isNaN (grade (coerce_row gradeCol groupCol row))).
Qed.

Lemma label_of_group gradeCol groupCol row :
  View.label_of (get row groupCol) = group (coerce_row gradeCol groupCol row).
Proof. cbn [coerce_row group]. now destruct (get row groupCol). Qed.

Lemma box_step_coerced gradeCol groupCol a row :
  View.box_step gradeCol groupCol (Some a) row
  = let r := coerce_row gradeCol groupCol row in
    let a1 := match own a (group r) with
              | Some _ => a
              | None => if inherited (group r) then a else (a ++ [(group r, [])])%list
              end in
    if Num.isNaN (grade r) then Some a1
    else match own a1 (group r) with
         | Some _ => Some (push a1 (group r) (grade r))
         | None => None
         end.
Proof.
  unfold View.box_step. cbv zeta.
  rewrite (label_of_group gradeCol groupCol row). reflexivity.
Qed.

(** One step of the reduction, seen through [own]. *)
Lemma Some_eq {A} (x y : A) : Some x = Some y -> x = y.
Proof. now intros [= ->]. Qed.

Lemma box_step_own gradeCol groupCol a row a1 :
  View.box_step gradeCol groupCol (Some a) row = Some a1 ->
  let r := coerce_row gradeCol groupCol row in
  (forall k,
      own a1 k =
      match own a k with
      | Some arr =>
          Some (if String.eqb (group r) k && negb (Num.isNaN (grade r))
                then (arr ++ [grade r])%list else arr)
      | None =>
          if String.eqb (group r) k && negb (inherited k)
          then Some (if Num.isNaN (grade r) then [] else [grade r])
          else None
      end)
  /\ (forall k, In k (map fst a1) <->
                In k (map fst a) \/ (k = group r /\ inherited k = false))
  /\ (NoDup (map fst a) -> NoDup (map fst a1))
  /\ (Num.isNaN (grade r) = false -> own a (group r) = None ->
      inherited (group r) = false).
Proof.
  rewrite box_step_coerced. cbv zeta.
  set (r := coerce_row gradeCol groupCol row).
  destruct (own a (group r)) as [arr0|] eqn:Eo.
  - (* the property exists *)
    assert (Hin : In (group r) (map fst a)).
    { destruct (in_dec string_dec (group r) (map fst a)) as [I|I]; auto.
      apply own_None in I. congruence. }
    destruct (Num.isNaN (grade r)) eqn:En.
    + intros H; apply Some_eq in H; subst a1. repeat split; auto; try discriminate.
      * intros k. rewrite Bool.andb_false_r. destruct (own a k) eqn:Ek; auto.
        destruct (String.eqb_spec (group r) k) as [<-|N]; [congruence|reflexivity].
      * intros [H|[-> _]]; auto.
    + rewrite Eo. intros H; apply Some_eq in H; subst a1. repeat split; try discriminate.
      * intros k. rewrite own_push, Bool.andb_true_r.
        destruct (String.eqb_spec (group r) k) as [<-|N].
        -- rewrite Eo. reflexivity.
        -- destruct (own a k); reflexivity.
      * rewrite keys_push. auto.
      * rewrite keys_push. intros [H|[-> _]]; auto.
      * now rewrite keys_push.
  - destruct (inherited (group r)) eqn:Ei.
    + (* only inherited: nothing is created *)
      destruct (Num.isNaN (grade r)) eqn:En; [|rewrite Eo; discriminate].
      intros H; apply Some_eq in H; subst a1. repeat split; auto; try discriminate.
      * intros k. rewrite Bool.andb_false_r. destruct (own a k) eqn:Ek; auto.
        destruct (String.eqb_spec (group r) k) as [<-|N]; [|reflexivity].
        now rewrite Ei.
      * intros [H|[-> H]]; auto. congruence.
    + (* a new property *)
      assert (Hnin : ~ In (group r) (map fst a)) by now apply own_None.
      assert (Hk : forall k, In k (map fst (a ++ [(group r, [])])%list) <->
                             In k (map fst a) \/ (k = group r /\ inherited k = false)).
      { intros k. rewrite map_app, in_app_iff. cbn [map fst In]. split.
        - intros [H|[<-|[]]]; auto.
        - intros [H|[-> _]]; auto. }
      assert (Hnd : NoDup (map fst a) -> NoDup (map fst (a ++ [(group r, [])])%list)).
      { intros H. rewrite map_app. cbn [map fst].
        apply NoDup_app; [exact H|repeat constructor; intros []|].
        intros k Hk1 [<-|[]]. contradiction. }
      destruct (Num.isNaN (grade r)) eqn:En.
      * intros H; apply Some_eq in H; subst a1. repeat split; auto; try apply Hk.
        intros k. rewrite own_app, Bool.andb_false_r.
        destruct (own a k) eqn:Ek; auto.
        destruct (String.eqb_spec (group r) k) as [<-|N]; [|reflexivity].
        now rewrite Ei.
      * rewrite own_app, Eo, String.eqb_refl. intros H; apply Some_eq in H; subst a1.
        repeat split; auto; rewrite ?keys_push; try apply Hk; auto.
        intros k. rewrite own_push, own_app, Bool.andb_true_r.
        destruct (String.eqb_spec (group r) k) as [<-|N].
        -- rewrite Eo, Ei. reflexivity.
        -- destruct (own a k); reflexivity.
Qed.

Lemma box_fold_None gradeCol groupCol data :
  fold_left (View.box_step gradeCol groupCol) data None = None.
Proof. induction data as [|row data IH]; [reflexivity|exact IH]. Qed.

(** The whole reduction, seen through [own]. *)
Lemma box_fold_own gradeCol groupCol data : forall a a',
  fold_left (View.box_step gradeCol groupCol) data (Some a) = Some a' ->
  let rows := prepare_rows gradeCol groupCol data in
  (forall k,
      own a' k =
      match own a k with
      | Some arr => Some (arr ++ grades_of k rows)%list
      | None =>
          if existsb (fun row => String.eqb (group (coerce_row gradeCol groupCol row)) k) data
             && negb (inherited k)
          then Some (grades_of k rows) else None
      end)
  /\ (NoDup (map fst a) -> NoDup (map fst a')).
Proof.
  induction data as [|row data IH]; intros a a' H.
  - cbn in H. injection H as <-. cbn [prepare_rows map filter grades_of existsb andb].
    split; auto. intros k. destruct (own a k); [now rewrite app_nil_r|reflexivity].
  - cbn [fold_left] in H.
    destruct (View.box_step gradeCol groupCol (Some a) row) as [a1|] eqn:E1;
      [|rewrite box_fold_None in H; discriminate].
    destruct (IH _ _ H) as (Ho & Hn).
    destruct (box_step_own _ _ _ _ _ E1) as (So & _ & Sn & _).
    split; [|auto].
    intros k. rewrite (Ho k), (So k). cbv zeta.
    rewrite prepare_rows_cons. cbn [existsb].
    set (r := coerce_row gradeCol groupCol row).
    destruct (own a k) as [arr|] eqn:Ek.
    + destruct (Num.isNaN (grade r)); cbn [negb];
        rewrite ?Bool.andb_false_r, ?Bool.andb_true_r; [reflexivity|].
      rewrite grades_of_cons.
      destruct (String.eqb (group r) k); [now rewrite <- app_assoc|reflexivity].
    + destruct (String.eqb (group r) k) eqn:Eg; cbn [orb andb].
      * destruct (inherited k) eqn:Ei; cbn [negb andb].
        -- now rewrite Bool.andb_false_r.
        -- destruct (Num.isNaN (grade r)); [reflexivity|].
           rewrite grades_of_cons, Eg. reflexivity.
      * destruct (Num.isNaN (grade r)); [reflexivity|].
        rewrite grades_of_cons, Eg. reflexivity.
Qed.

(** The reduction raises exactly when a row with a numeric grade carries a
    label that the accumulator inherits. *)
Lemma box_fold_fails gradeCol groupCol data : forall a,
  (forall k, In k (map fst a) -> inherited k = false) ->
  fold_left (View.box_step gradeCol groupCol) data (Some a) = None <->
  exists r, In r (prepare_rows gradeCol groupCol data) /\ inherited (group r) = true.
Proof.
  induction data as [|row data IH]; intros a Ha.
  - cbn. split; [discriminate|]. intros (r & [] & _).
  - cbn [fold_left]. rewrite prepare_rows_cons.
    set (r := coerce_row gradeCol groupCol row).
    destruct (View.box_step gradeCol groupCol (Some a) row) as [a1|] eqn:E1.
    + destruct (box_step_own _ _ _ _ _ E1) as (_ & Sk & _ & Si). fold r in Sk, Si.
      rewrite IH.
      * destruct (Num.isNaN (grade r)) eqn:En; [reflexivity|].
        split; intros (r' & Hin & Hi); exists r'; cbn [In]; auto.
        destruct Hin as [<-|Hin]; auto. exfalso.
        destruct (own a (group r)) eqn:Eo.
        -- assert (In (group r) (map fst a)).
           { destruct (in_dec string_dec (group r) (map fst a)) as [I|I]; auto.
             apply own_None in I. congruence. }
           rewrite (Ha _ H) in Hi. discriminate.
        -- rewrite (Si eq_refl eq_refl) in Hi. discriminate.
      * intros k Hk. apply Sk in Hk. destruct Hk as [Hk|[_ Hk]]; auto.
    + rewrite box_fold_None. split; [intros _|reflexivity].
      rewrite box_step_coerced in E1. cbv zeta in E1. fold r in E1.
      destruct (Num.isNaN (grade r)) eqn:En; [discriminate|].
      exists r. split; [now left|].
      destruct (own a (group r)) eqn:Eo; [rewrite Eo in E1; discriminate|].
      destruct (inherited (group r)) eqn:Ei; [reflexivity|].
      rewrite own_app, Eo, String.eqb_refl in E1. discriminate.
Qed.

Lemma own_In (acc : Groups) k : In k (map fst acc) <-> own acc k <> None.
Proof.
  pose proof (own_None acc k) as H.
  destruct (in_dec string_dec k (map fst acc)) as [I|I]; split; intros H1; auto.
  - intros E. apply H in E. contradiction.
  - exfalso. apply H1. now apply H.
Qed.

Lemma label_exists gradeCol groupCol data k :
  existsb (fun row => String.eqb (group (coerce_row gradeCol groupCol row)) k) data = true
  <-> In k (map (fun row => View.label_of (get row groupCol)) data).
Proof.
  rewrite existsb_exists, in_map_iff. split; intros (row & H1 & H2); exists row.
  - apply String.eqb_eq in H2. rewrite (label_of_group gradeCol). auto.
  - rewrite (label_of_group gradeCol) in H1. split; auto. now apply String.eqb_eq.
Qed.

Lemma prepared_label gradeCol groupCol data r :
  In r (prepare_rows gradeCol groupCol data) ->
  In (group r) (map (fun row => View.label_of (get row groupCol)) data).
Proof.
  unfold prepare_rows. intros H. apply filter_In in H. destruct H as [H _].
  apply in_map_iff in H. destruct H as (row & <- & Hrow).
  apply in_map_iff. exists row. split; auto. apply label_of_group.
Qed.

(** X10: the traces of the box plot.  Once a report is generated, computing
    them raises a TypeError exactly when some row with a numeric grade
    carries a group label that every object inherits; this is also exactly
    when the grouping of [generateReport] raises on the same data.
    Otherwise there is one trace per distinct label found in the group
    column, rows without a numeric grade included; the values of a trace are
    the prepared grades of that group in row order, so every group of the
    summary table has its trace, and a label whose rows all lack a numeric
    grade has an empty one. *)
Theorem boxplot_traces (st : App.State) :
  App.reportGenerated st = true ->
  let rows := prepare_rows (App.gradeCol st) (App.groupCol st) (App.data st) in
  let labels :=
    map (fun row => View.label_of (get row (App.groupCol st))) (App.data st) in
  (View.boxplotDataByGroup st = None <->
   exists r, In r rows /\ inherited (group r) = true)
  /\ (View.boxplotDataByGroup st = None <-> add_rows [] rows = None)
  /\ (forall traces,
       View.boxplotDataByGroup st = Some traces ->
       NoDup (map View.name traces)
       /\ (forall tr, In tr traces -> View.y tr = grades_of (View.name tr) rows)
       /\ (forall k, In k (map View.name traces) <->
                     In k labels /\ inherited k = false)
       /\ (forall r, In r rows -> In (group r) (map View.name traces))).
Proof.
  intros F rows labels. unfold View.boxplotDataByGroup. rewrite F.
  assert (Hnil : forall k, In k (map fst (@nil (string * list number))) ->
                           inherited k = false) by (intros k []).
  pose proof (box_fold_fails (App.gradeCol st) (App.groupCol st) (App.data st) [] Hnil)
    as Hfail.
  fold rows in Hfail.
  destruct (fold_left (View.box_step (App.gradeCol st) (App.groupCol st))
                      (App.data st) (Some [])) as [acc|] eqn:E.
  - split; [|split].
    + rewrite <- Hfail. split; discriminate.
    + rewrite (add_rows_None rows [] Hnil), <- Hfail. split; discriminate.
    + intros traces H. apply Some_eq in H. subst traces.
      destruct (box_fold_own _ _ _ _ _ E) as (Ho & Hn). fold rows in Ho.
      cbn [own] in Ho.
      assert (Hnames : map View.name
                         (map (fun k => {| View.y := lookup acc k; View.name := k |})
                              (Object_keys acc)) = Object_keys acc).
      { rewrite map_map. cbn [View.name]. apply map_id. }
      rewrite Hnames.
      assert (Hkeys : forall k, In k (Object_keys acc) <->
                                In k labels /\ inherited k = false).
      { intros k. transitivity (In k (map fst acc)).
        - split; apply Permutation_in;
            [apply Object_keys_perm|symmetry; apply Object_keys_perm].
        - rewrite own_In, Ho. subst labels.
          rewrite <- (label_exists (App.gradeCol st)).
          destruct (existsb _ (App.data st)), (inherited k); cbn [andb negb];
            split; intros H1; try discriminate; try tauto; try (destruct H1; discriminate). }
      split; [|split; [|split]].
      * eapply Permutation_NoDup; [symmetry; apply Object_keys_perm|].
        apply Hn. constructor.
      * intros tr Htr. apply in_map_iff in Htr. destruct Htr as (k & <- & Hk).
        cbn [View.y View.name]. unfold lookup. rewrite Ho.
        apply Hkeys in Hk. destruct Hk as [Hl Hi].
        subst labels. apply (label_exists (App.gradeCol st)) in Hl.
        rewrite Hl, Hi. reflexivity.
      * exact Hkeys.
      * intros r Hr. apply Hkeys. split.
        -- subst rows labels. eapply prepared_label; eauto.
        -- destruct (inherited (group r)) eqn:Hi; [|reflexivity].
           exfalso. assert (H1 : exists r, In r rows /\ inherited (group r) = true)
             by (exists r; auto).
           apply Hfail in H1. discriminate.
  - split; [|split].
    + rewrite <- Hfail. tauto.
    + rewrite (add_rows_None rows [] Hnil), <- Hfail. tauto.
    + intros traces H. discriminate H.
Qed.

Lemma boxplot_traces_witness :
  exists traces,
    View.boxplotDataByGroup (App.setReportGenerated true (loaded example_data))
    = Some traces
    /\ NoDup (map View.name traces).
Proof.
  eexists. split; [vm_compute; reflexivity|].
  apply (boxplot_traces (App.setReportGenerated true (loaded example_data)) eq_refl).
  vm_compute. reflexivity.
Defined.

(** ** The bar chart of the rates per group *)

Lemma finite_rows_prepared gradeCol groupCol data :
  View.finite_rows gradeCol groupCol data
  = filter (fun r => Num.isFinite (grade r)) (prepare_rows gradeCol groupCol data).
Proof.
  unfold View.finite_rows, prepare_rows.
  induction data as [|row data IH]; [reflexivity|].
  cbn [map filter]. rewrite (label_of_group gradeCol).
  change (grade {| grade := parseNumber (get row gradeCol);
                   group := group (coerce_row gradeCol groupCol row) |})
    with (grade (coerce_row gradeCol groupCol row)).
  change {| grade := parseNumber (get row gradeCol);
            group := group (coerce_row gradeCol groupCol row) |}
    with (coerce_row gradeCol groupCol row).
  destruct (grade (coerce_row gradeCol groupCol row)) eqn:Eg;
    cbn [Num.isFinite Num.isNaN negb filter]; rewrite ?Eg; cbn [Num.isFinite];
    rewrite IH; reflexivity.
Qed.

Lemma chart_rate_nonempty (c len : nat) :
  len <> 0%nat ->
  View.chart_rate c len
  = Num.div (Num.mul (Num.of_Z 100) (Num.of_nat c)) (Num.of_nat len).
Proof. unfold View.chart_rate. destruct len; [congruence|reflexivity]. Qed.

(** X11: the bar chart of the rates.  Once a report is generated the chart
    is never [null].  Computing it raises a TypeError exactly when a row
    with a finite grade carries an inherited label.  Otherwise its groups
    are the labels of the prepared rows with a finite grade, each once, in
    strictly increasing order of code units; no group is empty, so the
    fallback divisor [|| 1] is never used and each rate is
    [(100 * count) / n] over the finite grades of its group, with the
    normalized thresholds; and when all prepared grades are finite the
    groups of the chart are those of the summary table that
    [generateReport] computes from the same state, in the same order. *)
Theorem groupRatesChart_spec (st : App.State) :
  App.reportGenerated st = true ->
  let rows := prepare_rows (App.gradeCol st) (App.groupCol st) (App.data st) in
  let shown := filter (fun r => Num.isFinite (grade r)) rows in
  let t := App.coerceThresholds (App.passing st) (App.merit st) (App.distinction st) in
  let rate_of (pred : number -> bool) (k : string) :=
    Num.div (Num.mul (Num.of_Z 100) (Num.of_nat (count pred (grades_of k shown))))
            (Num.of_nat (List.length (grades_of k shown))) in
  View.groupRatesChart st <> Some None
  /\ (View.groupRatesChart st = None <->
      exists r, In r shown /\ inherited (group r) = true)
  /\ (forall ch,
       View.groupRatesChart st = Some (Some ch) ->
       StronglySorted str_lt (View.x ch)
       /\ (forall k, In k (View.x ch) <-> In k (map group shown))
       /\ (forall k, In k (View.x ch) -> grades_of k shown <> [])
       /\ View.passRates ch
          = map (rate_of (fun v => Num.geb v (App.p t))) (View.x ch)
       /\ View.meritRates ch
          = map (rate_of (fun v => Num.geb v (App.m t) && Num.ltb v (App.d t)))
                (View.x ch)
       /\ View.distRates ch
          = map (rate_of (fun v => Num.geb v (App.d t))) (View.x ch)
       /\ (Forall (fun r => Num.isFinite (grade r) = true) rows ->
           forall g, add_rows [] rows = Some g ->
                     View.x ch = map App.Group (App.group_summaries t g))).
Proof.
  intros F rows shown t rate_of. unfold View.groupRatesChart. rewrite F.
  rewrite finite_rows_prepared. fold rows. fold shown. fold t.
  assert (Hnil : forall k, In k (map fst (@nil (string * list number))) ->
                           inherited k = false) by (intros k []).
  pose proof (add_rows_None shown [] Hnil) as Hfail.
  destruct (add_rows [] shown) as [gm|] eqn:E.
  - split; [discriminate|]. split; [rewrite <- Hfail; split; discriminate|].
    intros ch H. apply Some_eq in H. apply Some_eq in H. subst ch.
    cbn [View.x View.passRates View.meritRates View.distRates].
    destruct (add_rows_labels _ _ E) as (Hnd & Hk).
    assert (Hx : forall k, In k (sort (Object_keys gm)) <-> In k (map group shown)).
    { intros k. rewrite <- Hk. split; intros H.
      - eapply Permutation_in; [apply Object_keys_perm|].
        eapply Permutation_in; [apply sort_perm|exact H].
      - eapply Permutation_in; [symmetry; apply sort_perm|].
        eapply Permutation_in; [symmetry; apply Object_keys_perm|exact H]. }
    assert (Hne : forall k, In k (sort (Object_keys gm)) -> grades_of k shown <> []).
    { intros k H1 H2. apply Hx in H1. apply grades_of_nil_iff in H2. contradiction. }
    assert (Hr : forall pred,
               map (fun g => View.chart_rate (count pred (lookup gm g))
                                             (List.length (lookup gm g)))
                   (sort (Object_keys gm))
               = map (rate_of pred) (sort (Object_keys gm))).
    { intros pred. apply map_ext_in. intros k Hin.
      rewrite (add_rows_lookup _ _ k E). apply chart_rate_nonempty.
      specialize (Hne k Hin). destruct (grades_of k shown); [congruence|discriminate]. }
    split; [|split; [exact Hx|split; [exact Hne|]]].
    + apply sorted_strict; [|apply sort_sorted].
      eapply Permutation_NoDup; [symmetry; apply sort_perm|].
      eapply Permutation_NoDup; [symmetry; apply Object_keys_perm|exact Hnd].
    + rewrite !Hr. repeat split.
      intros Hfin g Hg. rewrite group_summaries_labels.
      assert (shown = rows) as Hs by (apply filter_all; exact Hfin).
      rewrite Hs in E. congruence.
  - split; [discriminate|]. split; [rewrite <- Hfail; tauto|].
    intros ch H. discriminate H.
Qed.

Lemma groupRatesChart_spec_witness :
  exists ch,
    View.groupRatesChart (App.setReportGenerated true (loaded example_data))
    = Some (Some ch)
    /\ StronglySorted str_lt (View.x ch).
Proof.
  eexists. split; [vm_compute; reflexivity|].
  apply (groupRatesChart_spec (App.setReportGenerated true (loaded example_data)) eq_refl).
  vm_compute. reflexivity.
Defined.

(** ** Separators and white space in a grade cell *)

Lemma rev_append_app_l (a : string) : forall b acc,
  Str.rev_append (a ++ b) acc = Str.rev_append b (Str.rev_append a acc).
Proof.
  induction a as [|c a IH]; intros b acc; cbn [append Str.rev_append]; [reflexivity|].
  apply IH.
Qed.

Lemma string_app_assoc (a b c : string) :
  ((a ++ b) ++ c)%string = (a ++ (b ++ c))%string.
Proof. induction a as [|x a IH]; cbn [append]; [reflexivity|now rewrite IH]. Qed.

Lemma rev_append_acc (a : string) : forall acc,
  Str.rev_append a acc = (Str.rev a ++ acc)%string.
Proof.
  unfold Str.rev.
  induction a as [|c a IH]; intros acc; cbn [Str.rev_append append]; [reflexivity|].
  rewrite IH, (IH (String c "")). rewrite string_app_assoc. reflexivity.
Qed.

Lemma rev_app (a b : string) : Str.rev (a ++ b) = (Str.rev b ++ Str.rev a)%string.
Proof.
  unfold Str.rev at 1. rewrite rev_append_app_l, rev_append_acc. reflexivity.
Qed.

Lemma trim_start_split (s : string) :
  exists w, all_space w = true /\ s = (w ++ Str.trim_start s)%string.
Proof.
  induction s as [|c s (w & Hw & E)]; [exists ""; split; reflexivity|].
  cbn [Str.trim_start]. destruct (Str.is_whitespace c) eqn:Ec.
  - exists (String c w). cbn [all_space append]. rewrite Ec, Hw. split; [reflexivity|].
    now rewrite <- E.
  - exists "". split; reflexivity.
Qed.

Lemma trim_end_split (s : string) :
  exists w, all_space w = true /\ s = (Str.trim_end s ++ w)%string.
Proof.
  destruct (trim_start_split (Str.rev s)) as (w & Hw & E).
  exists (Str.rev w). split; [now rewrite all_space_rev|].
  unfold Str.trim_end. rewrite <- rev_app, <- E. symmetry. apply rev_involutive.
Qed.

(** [s] is [s.trim()] between two blank strings. *)
Lemma trim_split (s : string) :
  exists w1 w2, all_space w1 = true /\ all_space w2 = true
                /\ s = (w1 ++ Str.trim s ++ w2)%string.
Proof.
  destruct (trim_start_split s) as (w1 & H1 & E1).
  destruct (trim_end_split (Str.trim_start s)) as (w2 & H2 & E2).
  exists w1, w2. repeat split; auto. unfold Str.trim. now rewrite <- E2.
Qed.

Lemma remove_all_app (c : ascii) (a b : string) :
  Str.remove_all c (a ++ b) = (Str.remove_all c a ++ Str.remove_all c b)%string.
Proof.
  induction a as [|x a IH]; cbn [append Str.remove_all]; [reflexivity|].
  destruct (Ascii.eqb x c); cbn [append]; now rewrite IH.
Qed.

Lemma remove_all_space (c : ascii) (w : string) :
  Str.is_whitespace c = false -> all_space w = true -> Str.remove_all c w = w.
Proof.
  intros Hc. induction w as [|x w IH]; cbn [all_space Str.remove_all]; [reflexivity|].
  intros H. apply Bool.andb_true_iff in H. destruct H as [Hx Hw].
  destruct (Ascii.eqb_spec x c) as [->|N]; [congruence|]. now rewrite IH.
Qed.

Lemma trim_start_app_space (w s : string) :
  all_space w = true -> Str.trim_start (w ++ s) = Str.trim_start s.
Proof.
  induction w as [|c w IH]; cbn [all_space append Str.trim_start]; [reflexivity|].
  intros H. apply Bool.andb_true_iff in H. destruct H as [Hc Hw]. rewrite Hc. auto.
Qed.

(** After skipping leading white space, a trailing blank string stays a
    trailing blank string. *)
Lemma trim_start_app_r (s w : string) :
  all_space w = true ->
  exists w', all_space w' = true
             /\ Str.trim_start (s ++ w) = (Str.trim_start s ++ w')%string.
Proof.
  intros Hw. induction s as [|c s (w' & H' & E)]; cbn [append].
  - exists "". split; [reflexivity|]. cbn. now apply trim_start_nil_iff.
  - cbn [Str.trim_start]. destruct (Str.is_whitespace c).
    + exists w'. auto.
    + exists w. auto.
Qed.

Lemma all_space_head (w : string) : all_space w = true -> blank_head w.
Proof.
  destruct w as [|c w]; cbn; [auto|]. intros H.
  apply Bool.andb_true_iff in H. tauto.
Qed.

Lemma span_digits_blank (w : string) :
  blank_head w -> Str.span_digits w = ([], w).
Proof.
  destruct w as [|c w]; cbn [blank_head Str.span_digits]; [reflexivity|].
  intros H. replace (Str.is_digit c) with false; [reflexivity|].
  revert H. unfold Str.is_whitespace, Str.is_digit.
  generalize (Str.code c). intros n H. lia.
Qed.

Lemma span_digits_app (u w : string) :
  blank_head w ->
  Str.span_digits (u ++ w)
  = (fst (Str.span_digits u), (snd (Str.span_digits u) ++ w)%string).
Proof.
  intros Hw. induction u as [|c u IH]; cbn [append].
  - now rewrite span_digits_blank.
  - cbn [Str.span_digits]. destruct (Str.is_digit c); [|reflexivity].
    rewrite IH. destruct (Str.span_digits u). reflexivity.
Qed.

Lemma sign_match (t : string) :
  match t with
  | String "-" r => (true, r)
  | String "+" r => (false, r)
  | _ => (false, t)
  end = sign_split t.
Proof. destruct t as [|[[] [] [] [] [] [] [] []] r]; reflexivity. Qed.

Lemma fraction_match (r1 : string) :
  match r1 with
  | String "." r => Str.span_digits r
  | _ => ([], r1)
  end = fraction_split r1.
Proof. destruct r1 as [|[[] [] [] [] [] [] [] []] r]; reflexivity. Qed.

Lemma blank_not (c x : ascii) :
  Str.is_whitespace c = true -> Str.is_whitespace x = false -> Ascii.eqb c x = false.
Proof. intros Hc Hx. destruct (Ascii.eqb_spec c x) as [->|]; congruence. Qed.

Lemma sign_split_app (t w : string) :
  blank_head w ->
  sign_split (t ++ w) = (fst (sign_split t), (snd (sign_split t) ++ w)%string).
Proof.
  intros Hw. destruct t as [|c r]; cbn [append].
  - destruct w as [|c w]; [reflexivity|]. cbn [blank_head] in Hw.
    unfold sign_split. now rewrite !(blank_not c) by (exact Hw || reflexivity).
  - unfold sign_split. destruct (Ascii.eqb c "-"); [reflexivity|].
    destruct (Ascii.eqb c "+"); reflexivity.
Qed.

Lemma fraction_split_app (t w : string) :
  blank_head w ->
  fraction_split (t ++ w)
  = (fst (fraction_split t), (snd (fraction_split t) ++ w)%string).
Proof.
  intros Hw. destruct t as [|c r]; cbn [append].
  - destruct w as [|c w]; [reflexivity|]. cbn [blank_head] in Hw.
    unfold fraction_split. now rewrite (blank_not c) by (exact Hw || reflexivity).
  - unfold fraction_split. destruct (Ascii.eqb c "."); [|reflexivity].
    now apply span_digits_app.
Qed.

Lemma prefix_app_blank (p : string) : forall u w,
  has_space p = false -> blank_head w ->
  String.prefix p (u ++ w) = String.prefix p u.
Proof.
  induction p as [|a p IH]; intros u w Hp Hw;
    [now destruct (u ++ w)%string, u|].
  cbn [has_space] in Hp. apply Bool.orb_false_iff in Hp. destruct Hp as [Ha Hp].
  destruct u as [|b u]; cbn [append].
  - destruct w as [|c w]; [reflexivity|]. cbn [blank_head] in Hw. simpl.
    destruct (ascii_dec a c) as [->|N]; [congruence|reflexivity].
  - simpl. destruct (ascii_dec a b); [now apply IH|reflexivity].
Qed.

Lemma exponent_part_app (r w : string) :
  blank_head w -> exponent_part (r ++ w) = exponent_part r.
Proof.
  intros Hw. unfold exponent_part. destruct r as [|c r]; cbn [append].
  - destruct w as [|c w]; [reflexivity|]. cbn [blank_head] in Hw.
    now rewrite !(blank_not c) by (exact Hw || reflexivity).
  - destruct (Ascii.eqb c "e" || Ascii.eqb c "E"); [|reflexivity].
    rewrite !sign_match, sign_split_app by exact Hw.
    destruct (sign_split r) as [neg u]. cbn [fst snd].
    rewrite span_digits_app by exact Hw. reflexivity.
Qed.

(** [parseFloat] ignores a trailing blank string. *)
Lemma parseFloat_app_blank (s w : string) :
  all_space w = true -> parseFloat (s ++ w) = parseFloat s.
Proof.
  intros Hw. unfold parseFloat.
  destruct (trim_start_app_r s w Hw) as (w' & H' & ->).
  apply all_space_head in H'.
  rewrite !sign_match, sign_split_app by exact H'.
  destruct (sign_split (Str.trim_start s)) as [neg u]. cbn [fst snd].
  rewrite prefix_app_blank by (reflexivity || exact H').
  destruct (String.prefix "Infinity" u); [reflexivity|].
  rewrite span_digits_app by exact H'.
  destruct (Str.span_digits u) as [ip r1]. cbn [fst snd].
  rewrite !fraction_match, fraction_split_app by exact H'.
  destruct (fraction_split r1) as [fp r2]. cbn [fst snd].
  rewrite exponent_part_app by exact H'. reflexivity.
Qed.

(** [parseFloat] ignores a leading blank string. *)
Lemma parseFloat_blank_app (w s : string) :
  all_space w = true -> parseFloat (w ++ s) = parseFloat s.
Proof. intros Hw. unfold parseFloat. now rewrite trim_start_app_space. Qed.

Lemma strip_app (a b : string) : strip (a ++ b) = (strip a ++ strip b)%string.
Proof. unfold strip. now rewrite !remove_all_app. Qed.

Lemma strip_blank (w : string) : all_space w = true -> strip w = w.
Proof.
  intros H. unfold strip. rewrite (remove_all_space "," w), (remove_all_space "%" w); auto.
Qed.

Lemma parseFloat_strip_trim (s : string) :
  parseFloat (strip (Str.trim s)) = parseFloat (strip s).
Proof.
  destruct (trim_split s) as (w1 & w2 & H1 & H2 & E).
  rewrite E at 2. rewrite !strip_app, (strip_blank w1 H1), (strip_blank w2 H2).
  rewrite parseFloat_blank_app by assumption.
  now rewrite parseFloat_app_blank.
Qed.

(** X12: separators and white space in a text cell.  The call to [trim] in
    [parseNumber] changes no result: the value is the one [parseFloat] reads
    from the text with commas and percent signs removed, when that is finite,
    and NaN otherwise.  Hence blank text before or after the cell content is
    ignored, and so is a comma or a percent sign wherever it stands. *)
Theorem parseNumber_separators (s : string) :
  parseNumber (VString s)
  = (let v := parseFloat (strip s) in if Num.isFinite v then v else Num.NaN)
  /\ (forall w1 w2, all_space w1 = true -> all_space w2 = true ->
        parseNumber (VString (w1 ++ s ++ w2)) = parseNumber (VString s))
  /\ (forall a b, s = (a ++ b)%string ->
        parseNumber (VString (a ++ "," ++ b)) = parseNumber (VString s)
        /\ parseNumber (VString (a ++ "%" ++ b)) = parseNumber (VString s)).
Proof.
  assert (H : forall x, parseNumber (VString x)
                        = (let v := parseFloat (strip x) in
                           if Num.isFinite v then v else Num.NaN)).
  { intros x. cbn [parseNumber String_]. fold (strip (Str.trim x)).
    now rewrite parseFloat_strip_trim. }
  split; [apply H|split].
  - intros w1 w2 H1 H2. rewrite !H. cbv zeta.
    rewrite !strip_app, (strip_blank w1 H1), (strip_blank w2 H2).
    rewrite parseFloat_blank_app by assumption.
    now rewrite parseFloat_app_blank.
  - intros a b ->. rewrite !H. cbv zeta. rewrite !strip_app.
    change (strip ",") with ""%string. change (strip "%") with ""%string.
    split; reflexivity.
Qed.

Lemma parseNumber_separators_witness :
  parseNumber (VString (" " ++ "1234.5" ++ "  ")) = parseNumber (VString "1234.5")
  /\ parseNumber (VString ("1" ++ "," ++ "234.5")) = parseNumber (VString "1234.5").
Proof.
  destruct (parseNumber_separators "1234.5") as (_ & H1 & H2). split.
  - apply H1; reflexivity.
  - apply (H2 "1" "234.5"). reflexivity.
Defined.

(** ** Integers written in decimal are read exactly *)

Lemma shr_1_double (a : Z) :
  0 <= a ->
  shr_1 {| shr_m := a * 2; shr_r := false; shr_s := false |}
  = {| shr_m := a; shr_r := false; shr_s := false |}.
Proof.
  intros H. destruct a as [|p|p]; [reflexivity| |lia].
  replace (Zpos p * 2) with (Zpos p~0) by lia. reflexivity.
Qed.

Lemma iter_shr_1_exact (n : positive) : forall a,
  0 <= a ->
  iter_pos shr_1 n {| shr_m := a * 2 ^ Zpos n; shr_r := false; shr_s := false |}
  = {| shr_m := a; shr_r := false; shr_s := false |}.
Proof.
  induction n as [n IH|n IH|]; intros a H; cbn [iter_pos].
  - replace (a * 2 ^ Zpos n~1) with (a * 2 ^ Zpos n * 2 ^ Zpos n * 2).
    + rewrite shr_1_double by (apply Z.mul_nonneg_nonneg; [apply Z.mul_nonneg_nonneg|]; lia).
      rewrite IH by (apply Z.mul_nonneg_nonneg; lia). now apply IH.
    + replace (Zpos n~1) with (Zpos n + Zpos n + 1) by lia.
      rewrite !Z.pow_add_r by lia. change (2 ^ 1) with 2. ring.
  - replace (a * 2 ^ Zpos n~0) with (a * 2 ^ Zpos n * 2 ^ Zpos n).
    + rewrite IH by (apply Z.mul_nonneg_nonneg; lia). now apply IH.
    + replace (Zpos n~0) with (Zpos n + Zpos n) by lia.
      rewrite Z.pow_add_r by lia. ring.
  - change (2 ^ 1) with 2. now apply shr_1_double.
Qed.

Lemma Zdigits2_mul_pow2 (q j : positive) :
  Zdigits2 (Zpos q * 2 ^ Zpos j) = Zpos (digits2_pos q) + Zpos j.
Proof.
  rewrite Zdigits2_log2 by (apply Z.mul_pos_pos; [lia|apply Z.pow_pos_nonneg; lia]).
  rewrite Z.log2_mul_pow2 by lia.
  change (Zpos (digits2_pos q)) with (Zdigits2 (Zpos q)).
  rewrite (Zdigits2_log2 (Zpos q)) by lia. lia.
Qed.

(** Rounding a canonical mantissa followed by zero bits shifts them out. *)
Lemma round_aux_shifted (s : bool) (q j : positive) (e : Z) :
  canonical_mantissa Num.prec Num.emax q e = true -> e <= Num.emax - Num.prec ->
  binary_round_aux Num.prec Num.emax s (Zpos q * 2 ^ Zpos j) (e - Zpos j) loc_Exact
  = S754_finite s q e.
Proof.
  intros C B. rewrite <- (round_aux_canonical s q e C B).
  unfold canonical_mantissa in C. apply Z.eqb_eq in C.
  unfold binary_round_aux, shr_fexp.
  rewrite Zdigits2_mul_pow2.
  replace (Zpos (digits2_pos q) + Zpos j + (e - Zpos j)) with (Zpos (digits2_pos q) + e) by lia.
  rewrite C. replace (e - (e - Zpos j)) with (Zpos j) by lia.
  cbn [shr_record_of_loc shr]. rewrite iter_shr_1_exact by lia.
  replace (e - Zpos j + Zpos j) with e by lia.
  cbn [Zdigits2]. rewrite C, Z.sub_diag. cbn [shr]. reflexivity.
Qed.

Lemma iter_xO_Z (p k : positive) : Zpos (Pos.iter xO p k) = Zpos p * 2 ^ Zpos k.
Proof.
  induction k as [|k IH] using Pos.peano_ind.
  - cbn. lia.
  - rewrite Pos.iter_succ, Pos2Z.inj_xO, IH, Pos2Z.inj_succ, Z.pow_succ_r by lia. ring.
Qed.

(** The number denoted by an integer between 1 and 2^53 - 1, explicitly. *)
Lemma of_Z_explicit (p : positive) :
  Zpos p < 2 ^ 53 ->
  exists q, Zpos q = Zpos p * 2 ^ (53 - Zpos (digits2_pos p))
            /\ canonical_mantissa Num.prec Num.emax q (Zpos (digits2_pos p) - 53) = true
            /\ Num.of_Z (Zpos p) = S754_finite false q (Zpos (digits2_pos p) - 53).
Proof.
  intros H. pose proof (digits2_pos_small p H) as D.
  unfold Num.of_Z. cbn [binary_normalize]. unfold binary_round.
  set (d := digits2_pos p) in *.
  assert (F : fexp Num.prec Num.emax (Zpos d + 0) = Zpos d - 53).
  { unfold fexp, SpecFloat.emin, Num.prec, Num.emax. lia. }
  rewrite F. unfold shl_align.
  destruct (Zpos d - 53 - 0) as [|k|k] eqn:K; try lia.
  - assert (C : canonical_mantissa Num.prec Num.emax p 0 = true).
    { unfold canonical_mantissa. fold d. rewrite F. apply Z.eqb_eq. lia. }
    exists p. replace (Zpos d - 53) with 0 by lia. repeat split.
    + replace (53 - Zpos d) with 0 by lia. lia.
    + exact C.
    + apply round_aux_canonical; [exact C|unfold Num.prec, Num.emax; lia].
  - assert (C : canonical_mantissa Num.prec Num.emax (Pos.iter xO p k) (Zpos d - 53) = true).
    { unfold canonical_mantissa. rewrite digits2_pos_iter. fold d.
      apply Z.eqb_eq. unfold fexp, SpecFloat.emin, Num.prec, Num.emax. lia. }
    exists (Pos.iter xO p k). repeat split.
    + rewrite iter_xO_Z. f_equal. f_equal. lia.
    + exact C.
    + apply round_aux_canonical; [exact C|unfold Num.prec, Num.emax; lia].
Qed.

Lemma of_ratio_integer (p : positive) :
  Zpos p < 2 ^ 53 -> Num.of_ratio false (Zpos p) 1 = Num.of_Z (Zpos p).
Proof.
  intros H. pose proof (digits2_pos_small p H) as D.
  destruct (of_Z_explicit p H) as (q & Hq & C & ->).
  set (d := Zpos (digits2_pos p)) in *.
  assert (Hd : 0 < d) by (subst d; lia).
  unfold Num.of_ratio. change (1100 + Z.log2 1) with 1100.
  assert (Q : Z.div_eucl (Z.shiftl (Zpos p) 1100) 1 = (Zpos p * 2 ^ 1100, 0)).
  { rewrite Z.shiftl_mul_pow2 by lia.
    pose proof (Z_div_mod (Zpos p * 2 ^ 1100) 1 eq_refl) as Hq'.
    destruct (Z.div_eucl (Zpos p * 2 ^ 1100) 1) as [a b]. f_equal; lia. }
  rewrite Q. cbn [Z.eqb].
  set (j := Z.to_pos (d + 1048)).
  assert (Hj : Zpos j = d + 1048) by (subst j; apply Z2Pos.id; lia).
  assert (E : 2 * (Zpos p * 2 ^ 1100) + 0 = Zpos q * 2 ^ Zpos j).
  { rewrite Hq, Hj, <- Z.mul_assoc, <- Z.pow_add_r by lia.
    replace (53 - d + (d + 1048)) with (Z.succ 1100) by lia.
    rewrite Z.pow_succ_r by lia. ring. }
  rewrite E.
  destruct (Zpos q * 2 ^ Zpos j) as [|pm|pm] eqn:P;
    [pose proof (Z.pow_pos_nonneg 2 (Zpos j)); nia| |lia].
  unfold binary_round.
  assert (Dp : Zpos (digits2_pos pm) = 53 + Zpos j).
  { change (Zpos (digits2_pos pm)) with (Zdigits2 (Zpos pm)).
    rewrite <- P, Zdigits2_mul_pow2.
    unfold canonical_mantissa in C. apply Z.eqb_eq in C.
    unfold fexp, SpecFloat.emin, Num.prec, Num.emax in C. lia. }
  rewrite Dp.
  assert (F : fexp Num.prec Num.emax (53 + Zpos j + (- (1100) - 1)) = d - 53).
  { unfold fexp, SpecFloat.emin, Num.prec, Num.emax. lia. }
  rewrite F. unfold shl_align.
  destruct (d - 53 - (- (1100) - 1)) as [|k|k] eqn:K; try lia.
  rewrite <- P. replace (- (1100) - 1) with (d - 53 - Zpos j) by lia.
  apply round_aux_shifted; [exact C|unfold Num.prec, Num.emax; lia].
Qed.

Lemma uint_all_digits (d : Decimal.uint) :
  all_digits (NilEmpty.string_of_uint d) = true.
Proof. induction d; cbn [NilEmpty.string_of_uint all_digits]; auto. Qed.

Ltac digit_value_compute :=
  repeat match goal with
  | |- context [Str.digit_value ?c] =>
      let v := eval vm_compute in (Str.digit_value c) in
      change (Str.digit_value c) with v
  end.

Lemma uint_value_acc (d : Decimal.uint) : forall a,
  fold_left (fun acc c => 10 * acc + Str.digit_value c)
            (list_ascii_of_string (NilEmpty.string_of_uint d)) (Zpos a)
  = Zpos (Pos.of_uint_acc d a).
Proof.
  induction d; intros a;
    cbn [NilEmpty.string_of_uint list_ascii_of_string fold_left Pos.of_uint_acc];
    [reflexivity|rewrite <- IHd; f_equal; digit_value_compute; lia ..].
Qed.

Lemma uint_value (d : Decimal.uint) :
  Str.digits_value (list_ascii_of_string (NilEmpty.string_of_uint d))
  = Z.of_N (Pos.of_uint d).
Proof.
  unfold Str.digits_value.
  induction d;
    cbn [NilEmpty.string_of_uint list_ascii_of_string fold_left Pos.of_uint];
    [reflexivity|exact IHd|..];
    cbn [Z.of_N]; rewrite <- uint_value_acc;
    match goal with
    | |- fold_left _ _ ?a = _ =>
        let v := eval vm_compute in a in change a with v
    end; reflexivity.
Qed.

Lemma of_N_digits (n : N) :
  all_digits (Str.of_N n) = true /\ Str.of_N n <> ""
  /\ Str.digits_value (list_ascii_of_string (Str.of_N n)) = Z.of_N n.
Proof.
  unfold Str.of_N. rewrite <- (DecimalN.Unsigned.of_to n) at 4.
  unfold N.of_uint. generalize (N.to_uint n). intros d.
  destruct d; cbn [NilZero.string_of_uint];
    try (split; [apply uint_all_digits|split; [discriminate|apply uint_value]]).
  repeat split. discriminate.
Qed.

Lemma digit_properties (c : ascii) :
  Str.is_digit c = true ->
  Str.is_whitespace c = false /\ Ascii.eqb c "," = false /\ Ascii.eqb c "%" = false
  /\ Ascii.eqb c "-" = false /\ Ascii.eqb c "+" = false /\ c <> "I"%char.
Proof.
  intros H.
  assert (W : Str.is_whitespace c = false).
  { revert H. unfold Str.is_digit, Str.is_whitespace. generalize (Str.code c). lia. }
  repeat split; auto;
    try (destruct (Ascii.eqb_spec c ",") as [->|]; [discriminate H|reflexivity]);
    try (destruct (Ascii.eqb_spec c "%") as [->|]; [discriminate H|reflexivity]);
    try (destruct (Ascii.eqb_spec c "-") as [->|]; [discriminate H|reflexivity]);
    try (destruct (Ascii.eqb_spec c "+") as [->|]; [discriminate H|reflexivity]).
  intros ->. discriminate H.
Qed.

Lemma all_digits_plain (s : string) :
  all_digits s = true ->
  has_space s = false /\ strip s = s
  /\ Str.span_digits s = (list_ascii_of_string s, ""%string).
Proof.
  unfold strip.
  induction s as [|c s IH]; cbn [all_digits]; [repeat split|].
  intros H. apply Bool.andb_true_iff in H. destruct H as [Hc Hs].
  destruct (IH Hs) as (I1 & I2 & I3).
  destruct (digit_properties c Hc) as (W & C1 & C2 & _).
  cbn [has_space Str.remove_all Str.span_digits list_ascii_of_string].
  rewrite W, C1, Hc, I1, I3. cbn [Str.remove_all]. rewrite C2, I2. repeat split.
Qed.

(** A non-empty string of decimal digits is read as the integer it writes. *)
Lemma parseFloat_digits (s : string) :
  all_digits s = true -> s <> ""%string ->
  parseFloat s
  = Num.of_decimal false (Str.digits_value (list_ascii_of_string s)) 0.
Proof.
  intros H Hne. destruct (all_digits_plain s H) as (_ & _ & Sp).
  destruct s as [|c r]; [congruence|].
  cbn [all_digits] in H. apply Bool.andb_true_iff in H. destruct H as [Hc _].
  destruct (digit_properties c Hc) as (W & _ & _ & M & P & I).
  assert (Pf : String.prefix "Infinity" (String c r) = false).
  { cbn [String.prefix]. destruct (ascii_dec "I" c) as [E|]; [congruence|reflexivity]. }
  assert (T : Str.trim_start (String c r) = String c r)
    by (cbn [Str.trim_start]; now rewrite W).
  assert (Sg : sign_split (String c r) = (false, String c r))
    by (unfold sign_split; now rewrite M, P).
  unfold parseFloat. rewrite sign_match, T, Sg, Pf, Sp.
  cbn [list_ascii_of_string]. rewrite app_nil_r. reflexivity.
Qed.

Lemma parseNumber_strip (x : string) :
  parseNumber (VString x)
  = (let v := parseFloat (strip x) in if Num.isFinite v then v else Num.NaN).
Proof.
  cbn [parseNumber String_]. fold (strip (Str.trim x)).
  now rewrite parseFloat_strip_trim.
Qed.

Lemma of_decimal_integer (z : Z) :
  0 <= z < 2 ^ 53 ->
  Num.of_decimal false z 0 = Num.of_Z z /\ Num.isFinite (Num.of_Z z) = true.
Proof.
  intros H. unfold Num.of_decimal. cbn [Z.leb Z.compare].
  change (10 ^ 0) with 1. rewrite Z.mul_1_r.
  destruct z as [|p|p]; [split; reflexivity| |lia].
  rewrite of_ratio_integer by lia. split; [reflexivity|].
  destruct (of_Z_explicit p) as (q & _ & _ & ->); [lia|reflexivity].
Qed.

(** X13: integers in text cells.  A cell whose text is the decimal writing
    of a natural number below 2^53 is read by [parseNumber] as exactly that
    number, which is finite, and so is the same text followed by a percent
    sign. *)
Theorem parseNumber_integer (n : N) :
  Z.of_N n < 2 ^ 53 ->
  parseNumber (VString (Str.of_N n)) = Num.of_Z (Z.of_N n)
  /\ parseNumber (VString (Str.of_N n ++ "%")) = Num.of_Z (Z.of_N n)
  /\ Num.isFinite (parseNumber (VString (Str.of_N n))) = true.
Proof.
  intros H. destruct (of_N_digits n) as (D & Hne & V).
  destruct (all_digits_plain _ D) as (_ & S & _).
  destruct (of_decimal_integer (Z.of_N n)) as (E & F); [lia|].
  assert (P : parseNumber (VString (Str.of_N n)) = Num.of_Z (Z.of_N n)).
  { rewrite parseNumber_strip. cbv zeta. rewrite S, parseFloat_digits, V, E by assumption.
    now rewrite F. }
  split; [exact P|split; [|now rewrite P]].
  rewrite parseNumber_strip. cbv zeta. rewrite strip_app, S.
  change (strip "%") with ""%string. rewrite string_app_nil.
  rewrite parseFloat_digits, V, E by assumption. now rewrite F.
Qed.

Lemma parseNumber_integer_witness :
  parseNumber (VString "75") = Num.of_Z 75.
Proof.
  apply (parseNumber_integer 75). vm_compute. reflexivity.
Defined.
(** ** The group counts add up to the overall counts *)

Lemma count_grades_of (pred : number -> bool) (k : string) (rows : list Row) :
  count pred (grades_of k rows)
  = List.length (grades_of k (filter (fun r => pred (grade r)) rows)).
Proof.
  unfold count, grades_of.
  induction rows as [|r rows IH]; [reflexivity|]. cbn [filter].
  destruct (String.eqb (group r) k) eqn:Ek; cbn [map filter];
    destruct (pred (grade r)) eqn:Ep; cbn [filter map List.length];
    rewrite ?Ek; cbn [map List.length]; now rewrite IH.
Qed.

Lemma count_complement {A} (f : A -> bool) (l : list A) :
  (List.length l - List.length (filter f l))%nat
  = List.length (filter (fun x => negb (f x)) l).
Proof.
  induction l as [|x l IH]; [reflexivity|]. cbn [filter].
  pose proof (filter_length_le f l).
  destruct (f x); cbn [negb List.length]; lia.
Qed.

Lemma filter_true {A} (l : list A) : filter (fun _ => true) l = l.
Proof. induction l as [|x l IH]; cbn [filter]; [reflexivity|now rewrite IH]. Qed.

(** A count taken group by group adds up to the count over all rows. *)
Lemma sum_counts (t : App.Thresholds) (rows : list Row) (g : Groups)
      (pred : number -> bool) (f : App.OverallSummary -> nat) :
  add_rows [] rows = Some g ->
  (forall grades, f (App.summarize t grades) = count pred grades) ->
  sum_of f (App.group_summaries t g)
  = App.count_rows (fun r => pred (grade r)) rows.
Proof.
  intros Hg Hf. unfold sum_of, App.group_summaries. rewrite map_map.
  cbn [App.summary].
  destruct (add_rows_labels _ _ Hg) as [Nd In_g].
  assert (P : Permutation (sort (Object_keys g)) (map fst g)).
  { rewrite sort_perm. apply Object_keys_perm. }
  rewrite (list_sum_perm _ _ (Permutation_map _ P)).
  rewrite (map_ext _ (fun k => List.length
                                 (grades_of k (filter (fun r => pred (grade r)) rows)))).
  2:{ intros k. rewrite Hf, (add_rows_lookup _ _ k Hg). apply count_grades_of. }
  rewrite count_by_label by exact Nd.
  unfold App.count_rows. f_equal. apply forallb_filter_id. apply forallb_forall.
  intros r Hr. apply filter_In in Hr. destruct Hr as [Hr _].
  apply existsb_exists. exists (group r). split; [|apply String.eqb_refl].
  apply In_g. now apply in_map.
Qed.

(** X14: the two tables agree.  Whenever [generateReport] runs to its end,
    each count of the overall record is the sum of the same count over the
    group records: N, the passing and failed counts, and the three fixed
    band counts. *)
Theorem group_counts_add_up (answer : bool) (st st' : App.State) (evs : list event) :
  App.generateReport answer st = (st', evs, Completed) ->
  exists o,
    App.overallSummary st' = [o]
    /\ sum_of App.N (App.groupSummary st') = App.N o
    /\ sum_of App.PassingCount (App.groupSummary st') = App.PassingCount o
    /\ sum_of App.FailedCount (App.groupSummary st') = App.FailedCount o
    /\ sum_of App.PassBandCount (App.groupSummary st') = App.PassBandCount o
    /\ sum_of App.MeritBandCount (App.groupSummary st') = App.MeritBandCount o
    /\ sum_of App.DistinctionBandCount (App.groupSummary st')
       = App.DistinctionBandCount o.
Proof.
  intros H.
  destruct (generateReport_completed _ _ _ _ H) as (g & _ & Hg & Ho & Hs & _).
  eexists. split; [exact Ho|]. rewrite Hs.
  set (rows := prepare_rows _ _ _) in *.
  set (t := App.coerceThresholds _ _ _).
  cbn [App.overall App.N App.PassingCount App.FailedCount App.PassBandCount
       App.MeritBandCount App.DistinctionBandCount].
  repeat split.
  - rewrite (sum_counts t rows g (fun _ => true)); auto.
    + unfold App.count_rows. now rewrite filter_true.
    + intros grades. unfold count. now rewrite filter_true.
  - now apply (sum_counts t rows g (fun x => Num.geb x (App.p t))).
  - rewrite (sum_counts t rows g (fun x => negb (Num.geb x (App.p t)))); auto.
    + unfold App.count_rows. symmetry. apply count_complement.
    + intros grades. cbn [App.summarize App.FailedCount]. apply count_complement.
  - now apply (sum_counts t rows g
                 (fun x => Num.geb x (Num.of_Z 40) && Num.ltb x (Num.of_Z 60))).
  - now apply (sum_counts t rows g
                 (fun x => Num.geb x (Num.of_Z 60) && Num.ltb x (Num.of_Z 70))).
  - now apply (sum_counts t rows g (fun x => Num.geb x (Num.of_Z 70))).
Qed.

Lemma group_counts_add_up_witness :
  exists st' o,
    App.overallSummary st' = [o]
    /\ sum_of App.PassingCount (App.groupSummary st') = App.PassingCount o.
Proof.
  destruct (group_counts_add_up true (loaded example_data)
              (fst (fst (App.generateReport true (loaded example_data)))) [])
    as (o & Ho & _ & Hp & _).
  - vm_compute. reflexivity.
  - eexists. exists o. split; [exact Ho|exact Hp].
Defined.

(** ** Extremes per group *)

Lemma grades_of_subset k rows x : In x (grades_of k rows) -> In x (map grade rows).
Proof.
  unfold grades_of. intros H. apply in_map_iff in H. destruct H as (r & <- & Hr).
  apply filter_In in Hr. apply in_map. tauto.
Qed.

Lemma grades_of_not_nan k rows :
  Forall (fun r => Num.isNaN (grade r) = false) rows ->
  Forall (fun x => Num.isNaN x = false) (grades_of k rows).
Proof.
  intros H. apply Forall_forall. intros x Hx. apply grades_of_subset in Hx.
  apply in_map_iff in Hx. destruct Hx as (r & <- & Hr).
  rewrite Forall_forall in H. now apply H.
Qed.

Lemma group_records (t : App.Thresholds) (rows : list Row) (g : Groups) s :
  add_rows [] rows = Some g -> In s (App.group_summaries t g) ->
  In (App.Group s) (map group rows)
  /\ App.summary s = App.summarize t (grades_of (App.Group s) rows).
Proof.
  intros Hg Hs. unfold App.group_summaries in Hs. apply in_map_iff in Hs.
  destruct Hs as (k & <- & Hk). cbn [App.Group App.summary].
  rewrite (add_rows_lookup _ _ k Hg). split; [|reflexivity].
  apply (add_rows_labels _ _ Hg).
  eapply Permutation_in; [apply Object_keys_perm|].
  eapply Permutation_in; [apply sort_perm|exact Hk].
Qed.

Lemma leb_antisym_eqb (x y : number) :
  Num.leb x y = true -> Num.leb y x = true -> Num.eqb x y = true.
Proof.
  intros H1 H2. apply leb_iff in H1, H2. apply eqb_iff.
  destruct H1 as (Nx & Ny & L1), H2 as (_ & _ & L2).
  repeat split; auto. now apply le3_antisym.
Qed.

(** X15: extremes per group.  Whenever [generateReport] runs to its end,
    every group record has at least one grade, its Max and Min are grades of
    that group with [Min <= Max], and they lie between the overall Min and
    the overall Max; and the overall Max and the overall Min are attained
    (up to the sign of zero) by the Max, respectively the Min, of some
    group. *)
Theorem group_extremes (answer : bool) (st st' : App.State) (evs : list event) :
  App.generateReport answer st = (st', evs, Completed) ->
  let rows := prepare_rows (App.gradeCol st) (App.groupCol st) (App.data st) in
  exists o,
    App.overallSummary st' = [o]
    /\ Forall (fun s =>
                 let grades := grades_of (App.Group s) rows in
                 (1 <= App.N (App.summary s))%nat
                 /\ In (App.Max (App.summary s)) grades
                 /\ In (App.Min (App.summary s)) grades
                 /\ Num.leb (App.Min o) (App.Min (App.summary s)) = true
                 /\ Num.leb (App.Min (App.summary s)) (App.Max (App.summary s)) = true
                 /\ Num.leb (App.Max (App.summary s)) (App.Max o) = true)
              (App.groupSummary st')
    /\ Exists (fun s => Num.eqb (App.Max (App.summary s)) (App.Max o) = true)
              (App.groupSummary st')
    /\ Exists (fun s => Num.eqb (App.Min (App.summary s)) (App.Min o) = true)
              (App.groupSummary st').
Proof.
  intros H rows.
  destruct (generateReport_completed _ _ _ _ H) as (g & Hne & Hg & Ho & Hs & _).
  fold rows in Hne, Hg, Ho.
  set (t := App.coerceThresholds _ _ _) in *.
  eexists. split; [exact Ho|]. rewrite Hs.
  pose proof (prepare_rows_not_NaN (App.gradeCol st) (App.groupCol st) (App.data st))
    as Hn. fold rows in Hn.
  assert (Hall : Forall (fun x => Num.isNaN x = false) (map grade rows)).
  { apply Forall_forall. intros x Hx. apply in_map_iff in Hx.
    destruct Hx as (r & <- & Hr). rewrite Forall_forall in Hn. now apply Hn. }
  pose proof (max_list_upper _ Hall) as U. pose proof (min_list_lower _ Hall) as L.
  rewrite Forall_forall in U, L.
  assert (Hgrp : forall k, In k (map group rows) ->
            let grades := grades_of k rows in
            grades <> []
            /\ In (Num.max_list grades) grades /\ In (Num.min_list grades) grades
            /\ (forall x, In x grades -> Num.leb x (Num.max_list grades) = true)
            /\ (forall x, In x grades -> Num.leb (Num.min_list grades) x = true)).
  { intros k Hk grades.
    assert (G0 : grades <> []) by (intros E; apply grades_of_nil_iff in E; contradiction).
    pose proof (grades_of_not_nan k rows Hn) as Gn. fold grades in Gn.
    pose proof (max_list_upper _ Gn) as GU. pose proof (min_list_lower _ Gn) as GL.
    rewrite Forall_forall in GU, GL.
    repeat split; auto using max_list_in, min_list_in. }
  cbn [App.overall App.Max App.Min].
  split; [|split].
  - apply Forall_forall. intros s Hs'.
    destruct (group_records t rows g s Hg Hs') as (Hk & ->).
    destruct (Hgrp _ Hk) as (G0 & I1 & I2 & GU & GL).
    cbn [App.summarize App.N App.Max App.Min]. cbv zeta.
    repeat split; auto.
    + destruct (grades_of (App.Group s) rows); [congruence|cbn; lia].
    + apply L. eapply grades_of_subset; eauto.
    + apply U. eapply grades_of_subset; eauto.
  - assert (Hm : In (Num.max_list (map grade rows)) (map grade rows)).
    { apply max_list_in; auto. destruct rows; [congruence|discriminate]. }
    apply in_map_iff in Hm. destruct Hm as (r & Er & Hr).
    assert (Hk : In (group r) (map group rows)) by now apply in_map.
    assert (Hin : In (group r) (sort (Object_keys g))).
    { eapply Permutation_in; [symmetry; apply sort_perm|].
      eapply Permutation_in; [symmetry; apply Object_keys_perm|].
      now apply (add_rows_labels _ _ Hg). }
    apply Exists_exists.
    exists {| App.Group := group r; App.summary := App.summarize t (lookup g (group r)) |}.
    split; [unfold App.group_summaries; apply in_map_iff; eauto|].
    cbn [App.summary App.summarize App.Max]. rewrite (add_rows_lookup _ _ _ Hg).
    destruct (Hgrp _ Hk) as (G0 & I1 & I2 & GU & GL).
    apply leb_antisym_eqb.
    + apply U. eapply grades_of_subset; eauto.
    + rewrite <- Er. apply GU. unfold grades_of. apply in_map. apply filter_In.
      split; [exact Hr|apply String.eqb_refl].
  - assert (Hm : In (Num.min_list (map grade rows)) (map grade rows)).
    { apply min_list_in; auto. destruct rows; [congruence|discriminate]. }
    apply in_map_iff in Hm. destruct Hm as (r & Er & Hr).
    assert (Hk : In (group r) (map group rows)) by now apply in_map.
    assert (Hin : In (group r) (sort (Object_keys g))).
    { eapply Permutation_in; [symmetry; apply sort_perm|].
      eapply Permutation_in; [symmetry; apply Object_keys_perm|].
      now apply (add_rows_labels _ _ Hg). }
    apply Exists_exists.
    exists {| App.Group := group r; App.summary := App.summarize t (lookup g (group r)) |}.
    split; [unfold App.group_summaries; apply in_map_iff; eauto|].
    cbn [App.summary App.summarize App.Min]. rewrite (add_rows_lookup _ _ _ Hg).
    destruct (Hgrp _ Hk) as (G0 & I1 & I2 & GU & GL).
    apply leb_antisym_eqb.
    + rewrite <- Er. apply GL. unfold grades_of. apply in_map. apply filter_In.
      split; [exact Hr|apply String.eqb_refl].
    + apply L. eapply grades_of_subset; eauto.
Qed.

Lemma group_extremes_witness :
  exists st' o,
    App.overallSummary st' = [o]
    /\ Exists (fun s => Num.eqb (App.Max (App.summary s)) (App.Max o) = true)
              (App.groupSummary st').
Proof.
  destruct (group_extremes true (loaded example_data)
              (fst (fst (App.generateReport true (loaded example_data)))) [])
    as (o & Ho & _ & Hmax & _).
  - vm_compute. reflexivity.
  - eexists. exists o. split; [exact Ho|exact Hmax].
Defined.

(** ** From a loaded sheet to a report *)

Lemma keys_in_order_perm (ks : list string) : Permutation (View.keys_in_order ks) ks.
Proof.
  unfold View.keys_in_order. rewrite sort_by_perm. apply filter_split_perm.
Qed.

Lemma first_truthy_nonempty (a : option string) (cols : list string) (i : nat) :
  (i < List.length cols)%nat -> Forall (fun k => k <> "") cols ->
  (forall s, a = Some s -> In s cols) ->
  View.first_truthy a (nth_error cols i) <> ""
  /\ In (View.first_truthy a (nth_error cols i)) cols.
Proof.
  intros Hi Hc Ha. rewrite Forall_forall in Hc.
  destruct (nth_error cols i) as [s|] eqn:E;
    [|apply nth_error_None in E; lia].
  assert (Hs : In s cols) by (eapply nth_error_In; eauto).
  unfold View.first_truthy. destruct a as [[|c r]|]; auto.
Qed.

Lemma generateReport_events (answer : bool) (st : App.State) :
  App.data st <> [] -> App.gradeCol st <> "" -> App.groupCol st <> "" ->
  Forall guard_free (snd (fst (App.generateReport answer st))).
Proof.
  intros D G Gr. unfold App.generateReport.
  destruct (App.data st) as [|r0 data0]; [congruence|].
  apply String.eqb_neq in G, Gr. rewrite G, Gr.
  destruct (String.eqb (Str.trim (App.title st)) ""); cbn [andb negb].
  - destruct answer; cbn [negb fst snd]; [|repeat constructor].
    destruct (prepare_rows _ _ _); [repeat constructor|].
    destruct (add_rows _ _); repeat constructor.
  - destruct (prepare_rows _ _ _); [repeat constructor|].
    destruct (add_rows _ _); repeat constructor.
Qed.

(** X16: from a loaded sheet to a report.  When the first row of the
    loaded sheet has at least two columns and no column name is empty, the
    headers offered are the column names of that row, [onload] selects a
    non-empty grade column and a non-empty group column among them, and
    [generateReport] run on the resulting state shows none of its three
    guard alerts: the only dialogs it can show are the confirmation of the
    default title and the no-numeric-grades alert. *)
Theorem load_then_generate (row : RawRow) (rest : list RawRow)
        (c : View.Component) (answer : bool) :
  (2 <= List.length row)%nat -> Forall (fun kv => fst kv <> "") row ->
  let c' := View.onload (row :: rest) c in
  let st := View.app c' in
  Permutation (View.columns c') (map fst row)
  /\ App.gradeCol st <> "" /\ In (App.gradeCol st) (View.columns c')
  /\ App.groupCol st <> "" /\ In (App.groupCol st) (View.columns c')
  /\ Forall guard_free (snd (fst (App.generateReport answer st))).
Proof.
  intros Hlen Hne c' st.
  assert (P : Permutation (View.columns c') (map fst row)) by apply keys_in_order_perm.
  assert (Hc : Forall (fun k => k <> "") (View.columns c')).
  { apply Forall_forall. intros k Hk. eapply Permutation_in in Hk; [|exact P].
    apply in_map_iff in Hk. destruct Hk as (kv & <- & Hkv).
    rewrite Forall_forall in Hne. now apply Hne. }
  assert (L : List.length (View.columns c') = List.length row).
  { rewrite (Permutation_length P). apply length_map. }
  assert (G : App.gradeCol st <> "" /\ In (App.gradeCol st) (View.columns c')).
  { apply first_truthy_nonempty; [lia|exact Hc|].
    intros s Hs. apply find_some in Hs. tauto. }
  assert (Gr : App.groupCol st <> "" /\ In (App.groupCol st) (View.columns c')).
  { apply first_truthy_nonempty; [lia|exact Hc|].
    intros s Hs. apply find_some in Hs. tauto. }
  destruct G as [G1 G2], Gr as [Gr1 Gr2].
  repeat split; auto.
  apply generateReport_events; auto. discriminate.
Qed.

Lemma load_then_generate_witness :
  let st := View.app (View.onload example_data View.initial) in
  App.gradeCol st = "Grade"%string /\ App.groupCol st = "Group"%string
  /\ Forall guard_free (snd (fst (App.generateReport true st))).
Proof.
  intros st. split; [reflexivity|split; [reflexivity|]].
  apply (load_then_generate (cell_row (VNumber (Num.of_Z 35)) "A")
           (tl example_data) View.initial true).
  - cbn. lia.
  - repeat constructor; discriminate.
Defined.

(** ** The earlier variant: counts *)

Lemma sum_counts0 (a b c : number) (rows : list Row) (g : Groups)
      (pred : number -> bool) (f : Part000.OverallSummary -> nat) :
  add_rows [] rows = Some g ->
  (forall grades, f (Part000.summarize a b c grades) = count pred grades) ->
  sum_of0 f (Part000.group_summaries a b c g)
  = Part000.count_rows (fun r => pred (grade r)) rows.
Proof.
  intros Hg Hf. unfold sum_of0, Part000.group_summaries. rewrite map_map.
  cbn [Part000.summary].
  destruct (add_rows_labels _ _ Hg) as [Nd In_g].
  rewrite (list_sum_perm _ _ (Permutation_map _ (Object_keys_perm g))).
  rewrite (map_ext _ (fun k => List.length
                                 (grades_of k (filter (fun r => pred (grade r)) rows)))).
  2:{ intros k. rewrite Hf, (add_rows_lookup _ _ k Hg). apply count_grades_of. }
  rewrite count_by_label by exact Nd.
  unfold Part000.count_rows. f_equal. apply forallb_filter_id. apply forallb_forall.
  intros r Hr. apply filter_In in Hr. destruct Hr as [Hr _].
  apply existsb_exists. exists (group r). split; [|apply String.eqb_refl].
  apply In_g. now apply in_map.
Qed.

(** X17: the counts of the earlier variant.  Whenever its [generateReport]
    runs to its end, the overall record counts at least one row, its failed
    and passing counts add up to N whatever the thresholds are, and N, the
    passing count and the failed count are each the sum of the same count
    over the group records. *)
Theorem variant_counts_add_up
        (answer : bool) (st st' : Part000.State) (evs : list event) :
  Part000.generateReport answer st = (st', evs, Completed) ->
  exists o,
    Part000.overallSummary st' = [o]
    /\ (1 <= Part000.N o)%nat
    /\ (Part000.FailedCount o + Part000.PassingCount o = Part000.N o)%nat
    /\ sum_of0 Part000.N (Part000.groupSummary st') = Part000.N o
    /\ sum_of0 Part000.PassingCount (Part000.groupSummary st') = Part000.PassingCount o
    /\ sum_of0 Part000.FailedCount (Part000.groupSummary st') = Part000.FailedCount o.
Proof.
  intros H.
  destruct (generateReport0_completed _ _ _ _ H) as (g & Hne & Hg & Ho & Hs & _).
  eexists. split; [exact Ho|]. rewrite Hs.
  set (rows := prepare_rows _ _ _) in *.
  cbn [Part000.overall Part000.N Part000.PassingCount Part000.FailedCount].
  split; [destruct rows; [congruence|cbn; lia]|].
  split.
  { pose proof (filter_length_le (fun r => Num.geb (grade r) (Part000.passing st)) rows).
    unfold Part000.count_rows. lia. }
  repeat split.
  - rewrite (sum_counts0 _ _ _ rows g (fun _ => true)); auto.
    + unfold Part000.count_rows. now rewrite filter_true.
    + intros grades. unfold count. now rewrite filter_true.
  - now apply (sum_counts0 _ _ _ rows g (fun x => Num.geb x (Part000.passing st))).
  - rewrite (sum_counts0 _ _ _ rows g (fun x => negb (Num.geb x (Part000.passing st)))); auto.
    + unfold Part000.count_rows. symmetry. apply count_complement.
    + intros grades. cbn [Part000.summarize Part000.FailedCount]. apply count_complement.
Qed.

Lemma variant_counts_add_up_witness :
  exists st' o,
    Part000.overallSummary st' = [o]
    /\ sum_of0 Part000.PassingCount (Part000.groupSummary st') = Part000.PassingCount o.
Proof.
  destruct (variant_counts_add_up true (loaded0 example_data)
              (fst (fst (Part000.generateReport true (loaded0 example_data)))) [])
    as (o & Ho & _ & _ & _ & Hp & _).
  - vm_compute. reflexivity.
  - eexists. exists o. split; [exact Ho|exact Hp].
Defined.

